(** * miaopacks: the resource-pack conversion engine

    A shallow embedding of the conversion core of [miaopacks.py]:
    version keys, the version-config registry ([load_version_configs],
    [get_available_versions]), the resolver ([get_version_operations]),
    the asset operations ([split_image], [merge_images],
    [apply_transparency], [process_version_conversion]) and the conversion
    run of [on_confirm] with its packaging step.

    Modelling conventions.
    - A Python [float] obtained from a short decimal string is modelled by
      the exact rational it denotes ([Q]); [float('inf')] and
      [float('-inf')] are the two extra points of [bound].  Only the
      comparisons [<], [<=], [!=] are used by the program, and on decimal
      strings of at most 15 significant digits they agree with the
      comparisons of the exact values.
    - Exceptions are values of [exn]; code that can raise returns
      [result].  The [while] loop of the resolver takes a fuel argument.
    - A version-config document is a record with the fields of the JSON
      schema; a file that cannot be opened or parsed is [Unreadable] or
      [Malformed].
    - The package cache is a finite map from directory names to
      directories, a directory a finite map from pack-relative paths to
      files; [os.path.join(base, rel)] is the pair [(base, rel)].
      Sub-directories exist through the files below them, and paths are
      taken as the rules write them.  A file is held by what reading it
      gives: an RGBA raster, a JSON document, or other contents; saving
      and loading an image loses nothing.
    - Failing writes are given by the world: a write to a path in [locked]
      raises [OSError], as does the creation of an archive whose path is in
      [unwritable].  [shutil.rmtree] succeeds.
    - The dialogs shown are recorded in [ui]; the console is recorded for
      [get_available_versions] only, and the progress bar is left out. *)

From Stdlib Require Import ZArith QArith Lqa String Ascii List Lia Bool.
From stdpp Require Import gmap strings list.

Local Open Scope Z_scope.
Local Open Scope string_scope.
Local Open Scope list_scope.

(** ** Exceptions and results *)

Inductive exn : Type :=
| ValueError
| KeyError
| TypeError
| OSError
| JSONDecodeError.

Inductive result (A : Type) : Type :=
| Ok (a : A)
| Raise (e : exn)
| OutOfFuel.

Arguments Ok {A} a.
Arguments Raise {A} e.
Arguments OutOfFuel {A}.

Definition rbind {A B} (r : result A) (k : A -> result B) : result B :=
  match r with
  | Ok a => k a
  | Raise e => Raise e
  | OutOfFuel => OutOfFuel
  end.

Notation "'try!' x ':=' c1 'in' c2" := (rbind c1 (fun x => c2))
  (at level 10, x pattern, c1 at level 100, c2 at level 200).

(** [for x in xs: st = body(st, x)] where the body may raise. *)
Fixpoint for_each {A S} (body : S -> A -> result S) (xs : list A) (st : S)
  : result S :=
  match xs with
  | [] => Ok st
  | x :: xs' => try! st' := body st x in for_each body xs' st'
  end.

(** ** Strings *)

(** [s.replace(old, new)] for a non-empty [old]: occurrences are found from
    left to right and do not overlap.  [skip] counts the characters of the
    occurrence just matched that are still to be dropped. *)
Fixpoint replace_from (old new : string) (skip : nat) (s : string) : string :=
  match s with
  | EmptyString => EmptyString
  | String c s' =>
      match skip with
      | S k => replace_from old new k s'
      | O =>
          if String.prefix old s
          then new ++ replace_from old new (String.length old - 1) s'
          else String c (replace_from old new 0 s')
      end
  end.

Definition replace (old new s : string) : string := replace_from old new 0 s.

(** [s.endswith(suffix)] *)
Definition endswith (s suffix : string) : bool :=
  let n := String.length s in
  let k := String.length suffix in
  (k <=? n)%nat && String.eqb (String.substring (n - k) k s) suffix.

Definition is_digit (c : ascii) : bool :=
  (48 <=? nat_of_ascii c)%nat && (nat_of_ascii c <=? 57)%nat.

Definition digit_val (c : ascii) : Z := Z.of_nat (nat_of_ascii c) - 48.

(** Reads the longest run of decimal digits at the head of [s]; returns the
    accumulated value, the number of digits read and the rest. *)
Fixpoint read_digits (s : string) (acc : Z) (n : nat) : Z * nat * string :=
  match s with
  | String c s' =>
      if is_digit c then read_digits s' (10 * acc + digit_val c) (S n)
      else (acc, n, s)
  | EmptyString => (acc, n, s)
  end.

(** [float(s)] on strings made of digits and dots: digits, an optional
    point, digits, with at least one digit.  Any other string is a
    [ValueError] here (Python also reads signs, exponents and the like,
    which no version string contains). *)
Definition float_of_string (s : string) : result Q :=
  let '(ip, ni, r1) := read_digits s 0 0 in
  match r1 with
  | EmptyString => if (ni =? 0)%nat then Raise ValueError else Ok (inject_Z ip)
  | String "."%char r2 =>
      let '(m, nf, r3) := read_digits r2 ip 0 in
      match r3 with
      | EmptyString =>
          if (ni + nf =? 0)%nat then Raise ValueError
          else Ok (m # Z.to_pos (10 ^ Z.of_nat nf))
      | String _ _ => Raise ValueError
      end
  | String _ _ => Raise ValueError
  end.

(** ** Floats *)

(** The value of [next_num]: a parsed key, or one of the two infinities the
    resolver starts from. *)
Inductive bound : Type :=
| NegInf
| Fin (q : Q)
| PosInf.

Definition Qlt_bool (x y : Q) : bool := negb (Qle_bool y x).

(** [x < b] and [x > b] for a finite [x]. *)
Definition lt_bound (x : Q) (b : bound) : bool :=
  match b with
  | NegInf => false
  | Fin q => Qlt_bool x q
  | PosInf => true
  end.

Definition gt_bound (x : Q) (b : bound) : bool :=
  match b with
  | NegInf => true
  | Fin q => Qlt_bool q x
  | PosInf => false
  end.

(** [float(version.replace('1.', ''))]: the number the resolver and
    [get_version_category] compare versions by. *)
Definition version_num (version : string) : result Q :=
  float_of_string (replace "1." "" version).

(** ** Python dictionaries, in insertion order *)

Definition dict (V : Type) : Type := list (string * V).

(** [d[k] = v]: an existing key keeps its place. *)
Fixpoint dict_set {V} (k : string) (v : V) (d : dict V) : dict V :=
  match d with
  | [] => [(k, v)]
  | (k', v') :: d' =>
      if String.eqb k' k then (k, v) :: d' else (k', v') :: dict_set k v d'
  end.

(** [d.get(k)] *)
Fixpoint dict_get {V} (k : string) (d : dict V) : option V :=
  match d with
  | [] => None
  | (k', v') :: d' => if String.eqb k' k then Some v' else dict_get k d'
  end.

(** [d[k]] *)
Definition dict_lookup {V} (k : string) (d : dict V) : result V :=
  match dict_get k d with
  | Some v => Ok v
  | None => Raise KeyError
  end.

(** ** Version-config records *)

(** [(left, top, right, bottom)] *)
Definition box : Type := Z * Z * Z * Z.

Record split_entry : Type := {
  split_source : box;
  split_target : string
}.

Record merge_entry : Type := {
  merge_source : string;
  merge_position : Z * Z
}.

Record transparency_entry : Type := {
  transparency_target : string;
  keep_area : box
}.

(** One version-config document.  ['versions'] may be absent; the other
    fields are read with [config.get(field, default)], so an absent field
    is the empty list here. *)
Record config : Type := {
  cfg_versions : option (list string);
  cfg_removed_files : list string;
  cfg_split_operations : dict (list split_entry);
  cfg_merge_operations : dict (list merge_entry);
  cfg_transparency_operations : dict transparency_entry
}.

(** What reading one file of the configuration directory gives:
    [open] fails, [json.load] fails, or a document is returned. *)
Inductive config_content : Type :=
| Unreadable
| Malformed
| Document (c : config).

Record config_file : Type := {
  file_name : string;
  file_content : config_content
}.

(** The configuration directory, in [os.listdir] order. *)
Definition config_store : Type := list config_file.

(** [with open(...) as f: json.load(f)] *)
Definition json_load (f : config_file) : result config :=
  match file_content f with
  | Unreadable => Raise OSError
  | Malformed => Raise JSONDecodeError
  | Document c => Ok c
  end.

(** ** The registry *)

Definition load_version_configs (config_dir : config_store)
  : result (dict config) :=
  for_each
    (fun configs file =>
       if endswith (file_name file) ".json" then
         let version := replace ".json" "" (file_name file) in
         try! c := json_load file in
         Ok (dict_set version c configs)
       else Ok configs)
    config_dir [].

(** ** The resolver *)

(** The body of [for version, config in configs.items()]; the state is
    [(next_version, next_num)]. *)
Definition select_step (ascending : bool) (current_num target_num : Q)
    (st : option string * bound) (item : string * config)
  : result (option string * bound) :=
  try! version_num := version_num (fst item) in
  if ascending then
    if Qlt_bool current_num version_num && Qle_bool version_num target_num
       && lt_bound version_num (snd st)
    then Ok (Some (fst item), Fin version_num)
    else Ok st
  else
    if Qlt_bool version_num current_num && Qle_bool target_num version_num
       && gt_bound version_num (snd st)
    then Ok (Some (fst item), Fin version_num)
    else Ok st.

(** The [while] loop that builds [version_path]. *)
Fixpoint version_loop (fuel : nat) (configs : dict config) (ascending : bool)
    (target_num : Q) (current_version : string) (version_path : list string)
  : result (list string) :=
  match fuel with
  | O => OutOfFuel
  | S fuel' =>
      try! current_num := version_num current_version in
      if Qeq_bool current_num target_num then Ok version_path
      else
        try! st := for_each (select_step ascending current_num target_num)
                     configs
                     (None, if ascending then PosInf else NegInf) in
        match fst st with
        | None => Ok version_path
        | Some next_version =>
            version_loop fuel' configs ascending target_num next_version
              (version_path ++ [next_version])
        end
  end.

(** One element of the returned list: [{'version': ..., 'config': ...}]. *)
Record operation : Type := {
  op_version : string;
  op_config : config
}.

(** [get_version_operations], on the dictionary [load_version_configs]
    returned. *)
Definition resolve (fuel : nat) (configs : dict config)
    (source_version target_version : string) : result (list operation) :=
  try! source_num := version_num source_version in
  try! target_num := version_num target_version in
  try! version_path :=
    version_loop fuel configs (Qlt_bool source_num target_num) target_num
      source_version [] in
  for_each
    (fun operations version =>
       try! c := dict_lookup version configs in
       Ok (operations ++ [{| op_version := version; op_config := c |}]))
    version_path [].

Definition get_version_operations (fuel : nat) (config_dir : config_store)
    (source_version target_version : string) : result (list operation) :=
  try! configs := load_version_configs config_dir in
  resolve fuel configs source_version target_version.

(** [get_version_category] *)
Definition get_version_category (version : string) : result string :=
  try! version_num := float_of_string (replace "1." "" version) in
  if Qle_bool version_num (194 # 10) then Ok "1.19"
  else if Qle_bool version_num (206 # 10) then Ok "1.20"
  else Ok "1.21".

(** ** Listing the declared versions *)

(** [s.split('.')] *)
Fixpoint split_dot (s : string) : list string :=
  match s with
  | EmptyString => [EmptyString]
  | String c s' =>
      if Ascii.eqb c "."%char then EmptyString :: split_dot s'
      else match split_dot s' with
           | h :: t => String c h :: t
           | [] => [String c EmptyString]
           end
  end.

(** [int(s)] on strings of decimal digits; anything else is a
    [ValueError] here. *)
Definition int_of_string (s : string) : result Z :=
  match read_digits s 0 0 with
  | (n, S _, EmptyString) => Ok n
  | _ => Raise ValueError
  end.

Fixpoint map_result {A B} (f : A -> result B) (xs : list A) : result (list B) :=
  match xs with
  | [] => Ok []
  | x :: xs' =>
      try! y := f x in
      try! ys := map_result f xs' in
      Ok (y :: ys)
  end.

(** The sort key [[int(n) for n in x.replace('1.', '').split('.')]]. *)
Definition sort_key (x : string) : result (list Z) :=
  map_result int_of_string (split_dot (replace "1." "" x)).

(** [a < b] on lists of integers. *)
Fixpoint list_ltb (a b : list Z) : bool :=
  match a, b with
  | [], [] => false
  | [], _ :: _ => true
  | _ :: _, [] => false
  | x :: a', y :: b' => (x <? y)%Z || ((x =? y)%Z && list_ltb a' b')
  end.

(** Stable insertion for a descending order: [x] goes after every element
    whose key is not below its own. *)
Fixpoint insert_desc (x : list Z * string) (l : list (list Z * string))
  : list (list Z * string) :=
  match l with
  | [] => [x]
  | y :: l' => if list_ltb (fst y) (fst x) then x :: y :: l'
               else y :: insert_desc x l'
  end.

(** [sorted(l, key=..., reverse=True)] on elements paired with their keys. *)
Definition sorted_desc (l : list (list Z * string)) : list (list Z * string) :=
  fold_left (fun acc x => insert_desc x acc) l [].

(** A line printed on the console by [get_available_versions]. *)
Record diagnostic : Type := {
  diag_file : string;
  diag_error : exn
}.

(** The scan of the configuration directory in [get_available_versions]:
    the set of versions and the printed diagnostics. *)
Fixpoint scan_versions (config_dir : config_store) (versions : gset string)
    (console : list diagnostic) : gset string * list diagnostic :=
  match config_dir with
  | [] => (versions, console)
  | file :: rest =>
      if endswith (file_name file) ".json" then
        match json_load file with
        | Ok c =>
            match cfg_versions c with
            | Some vs => scan_versions rest (versions ∪ list_to_set vs) console
            | None => scan_versions rest versions console
            end
        | Raise e =>
            scan_versions rest versions
              (console ++ [{| diag_file := file_name file; diag_error := e |}])
        | OutOfFuel => scan_versions rest versions console
        end
      else scan_versions rest versions console
  end.

Definition get_available_versions (config_dir : config_store)
  : result (list string) * list diagnostic :=
  let '(versions, console) := scan_versions config_dir ∅ [] in
  let l := elements versions in
  (try! keys := map_result sort_key l in
   Ok (map snd (sorted_desc (combine keys l))),
   console).

(** ** Rasters *)

(** One RGBA pixel; each band is a byte. *)
Record pixel : Type := Pixel { red : Z; green : Z; blue : Z; alpha : Z }.

(** A decoded image in mode RGBA, rows first ([img.convert('RGBA')] is the
    identity on it). *)
Record image : Type := {
  img_width : nat;
  img_height : nat;
  img_data : list pixel
}.

(** The pixel at [(x, y)], when the point lies inside the image. *)
Definition getpixel (img : image) (x y : Z) : option pixel :=
  if (0 <=? x)%Z && (x <? Z.of_nat (img_width img))%Z
     && (0 <=? y)%Z && (y <? Z.of_nat (img_height img))%Z
  then img_data img !! Z.to_nat (y * Z.of_nat (img_width img) + x)
  else None.

(** [img.crop(box)]: the region may reach outside the image, where it is
    filled with zeros; a box whose right or lower edge comes first is a
    [ValueError]. *)
Definition crop (img : image) (crop_box : box) : result image :=
  let '(l, t, r, b) := crop_box in
  if (r <? l)%Z || (b <? t)%Z then Raise ValueError
  else
    let w := Z.to_nat (r - l) in
    let h := Z.to_nat (b - t) in
    Ok {| img_width := w;
          img_height := h;
          img_data :=
            flat_map
              (fun y =>
                 map (fun x =>
                        default (Pixel 0 0 0 0)
                          (getpixel img (l + Z.of_nat x) (t + Z.of_nat y)))
                     (seq 0 w))
              (seq 0 h) |}.

(** Pillow's 8-bit blend of [in1] towards [in2] by [mask / 255]. *)
Definition blend8 (mask in1 in2 : Z) : Z :=
  let tmp := in1 * (255 - mask) + in2 * mask + 128 in
  Z.shiftr (Z.shiftr tmp 8 + tmp) 8.

Definition blend_pixel (under over : pixel) : pixel :=
  let m := alpha over in
  Pixel (blend8 m (red under) (red over))
        (blend8 m (green under) (green over))
        (blend8 m (blue under) (blue over))
        (blend8 m (alpha under) (alpha over)).

(** [base.paste(overlay, position, overlay)]: inside the overlay's
    rectangle, clipped to the base, each pixel is blended with the overlay
    pixel, the overlay's alpha band being the mask. *)
Definition paste (base overlay : image) (position : Z * Z) : image :=
  let w := Z.of_nat (img_width base) in
  {| img_width := img_width base;
     img_height := img_height base;
     img_data :=
       imap (fun i p =>
               let x := (Z.of_nat i mod w)%Z in
               let y := (Z.of_nat i / w)%Z in
               match getpixel overlay (x - fst position) (y - snd position) with
               | Some o => blend_pixel p o
               | None => p
               end)
            (img_data base) |}.

(** [keep_area[0] <= x <= keep_area[2] and keep_area[1] <= y <= keep_area[3]] *)
Definition in_keep_area (keep_area : box) (x y : nat) : bool :=
  let '(l, t, r, b) := keep_area in
  (l <=? Z.of_nat x)%Z && (Z.of_nat x <=? r)%Z
  && (t <=? Z.of_nat y)%Z && (Z.of_nat y <=? b)%Z.

Definition clear_alpha (p : pixel) : pixel :=
  Pixel (red p) (green p) (blue p) 0.

(** The body of the two loops of [apply_transparency] at [(x, y)]. *)
Definition mask_at (keep_area : box) (width : nat) (y x : nat)
    (pixels : list pixel) : list pixel :=
  if negb (in_keep_area keep_area x y) then
    match pixels !! (y * width + x)%nat with
    | Some p => <[(y * width + x)%nat := clear_alpha p]> pixels
    | None => pixels
    end
  else pixels.

(** [for y in range(height): for x in range(width): ...] *)
Definition mask_image (img : image) (keep_area : box) : image :=
  let width := img_width img in
  let height := img_height img in
  {| img_width := width;
     img_height := height;
     img_data :=
       fold_left
         (fun pixels y =>
            fold_left (fun pixels x => mask_at keep_area width y x pixels)
                      (seq 0 width) pixels)
         (seq 0 height) (img_data img) |}.

(** Whether an image has no pixels. *)
Definition is_empty_image (img : image) : bool :=
  ((img_width img =? 0) || (img_height img =? 0))%nat.

(** ** Files *)

#[local] Unset Elimination Schemes.
Inductive json : Type :=
| JNull
| JBool (b : bool)
| JInt (n : Z)
| JStr (s : string)
| JList (l : list json)
| JDict (d : list (string * json)).
#[local] Set Elimination Schemes.

(** A file, by what reading it gives: an image [Image.open] decodes, a
    document [json.load] parses, or anything else. *)
Inductive file : Type :=
| ImageFile (img : image)
| JsonFile (doc : json)
| OtherFile (content : string).

(** A full path: a directory of the package cache and a path inside it. *)
Definition path : Type := string * string.

Inductive ui_event : Type :=
| ShowError (e : exn)
| ShowInfo (save_path : string)
| WindowDestroyed.

(** The part of the machine the conversion touches: the directories of the
    package cache, the archives written, the paths that cannot be written
    (a write there raises [OSError]) and the dialogs shown. *)
Record world : Type := {
  disk : gmap string (gmap string file);
  archives : gmap string (list (string * file));
  locked : gset path;
  unwritable : gset string;
  ui : list ui_event
}.

Definition set_disk (d : gmap string (gmap string file)) (w : world) : world :=
  {| disk := d; archives := archives w; locked := locked w;
     unwritable := unwritable w; ui := ui w |}.

Definition set_archives (a : gmap string (list (string * file))) (w : world)
  : world :=
  {| disk := disk w; archives := a; locked := locked w;
     unwritable := unwritable w; ui := ui w |}.

Definition show (e : ui_event) (w : world) : world :=
  {| disk := disk w; archives := archives w; locked := locked w;
     unwritable := unwritable w; ui := ui w ++ [e] |}.

(** Computations that read and write the world and may raise. *)
Definition io (A : Type) : Type := world -> result A * world.

Definition io_ret {A} (a : A) : io A := fun w => (Ok a, w).

Definition io_raise {A} (e : exn) : io A := fun w => (Raise e, w).

Definition io_bind {A B} (c : io A) (k : A -> io B) : io B :=
  fun w =>
    match c w with
    | (Ok a, w') => k a w'
    | (Raise e, w') => (Raise e, w')
    | (OutOfFuel, w') => (OutOfFuel, w')
    end.

Notation "'do!' x ':=' c1 'in' c2" := (io_bind c1 (fun x => c2))
  (at level 10, x pattern, c1 at level 100, c2 at level 200).

(** [try: c  except Exception as e: handler(e)] *)
Definition io_catch {A} (c : io A) (handler : exn -> io A) : io A :=
  fun w =>
    match c w with
    | (Raise e, w') => handler e w'
    | r => r
    end.

Definition io_lift {A} (r : result A) : io A := fun w => (r, w).

(** [for x in xs: body(x)] *)
Fixpoint io_for {A} (xs : list A) (body : A -> io unit) : io unit :=
  match xs with
  | [] => io_ret tt
  | x :: xs' => do! _ := body x in io_for xs' body
  end.

Definition read_file (p : path) (w : world) : option file :=
  disk w !! fst p ≫= fun d => d !! snd p.

(** [os.path.exists(p)] for the path of a file. *)
Definition exists_file (p : path) : io bool :=
  fun w => (Ok (bool_decide (is_Some (read_file p w))), w).

(** [os.path.exists(dir)] for a directory of the cache. *)
Definition exists_dir (dir : string) : io bool :=
  fun w => (Ok (bool_decide (is_Some (disk w !! dir))), w).

(** Writing a file, parent directories being made as needed. *)
Definition write_file (p : path) (f : file) : io unit :=
  fun w =>
    if decide (p ∈ locked w) then (Raise OSError, w)
    else (Ok tt,
          set_disk (<[fst p := <[snd p := f]> (default ∅ (disk w !! fst p))]>
                      (disk w)) w).

(** [shutil.rmtree(dir)] *)
Definition rmtree (dir : string) : io unit :=
  fun w => (Ok tt, set_disk (delete dir (disk w)) w).

(** [shutil.copytree(src, dst)] *)
Definition copytree (src dst : string) : io unit :=
  fun w =>
    match disk w !! src with
    | Some d => (Ok tt, set_disk (<[dst := d]> (disk w)) w)
    | None => (Raise OSError, w)
    end.

(** [shutil.copy2(src, dst)] *)
Definition copy2 (src dst : path) : io unit :=
  fun w =>
    match read_file src w with
    | Some f => write_file dst f w
    | None => (Raise OSError, w)
    end.

(** [Image.open(p)] followed by the decoding of the pixels. *)
Definition image_open (p : path) : io image :=
  fun w =>
    match read_file p w with
    | Some (ImageFile img) => (Ok img, w)
    | _ => (Raise OSError, w)
    end.

(** [os.makedirs(os.path.dirname(p), exist_ok=True); img.save(p)]: an image
    without pixels cannot be encoded. *)
Definition image_save (img : image) (p : path) : io unit :=
  if is_empty_image img then io_raise ValueError
  else write_file p (ImageFile img).

(** ** The image operations *)

Definition split_image (image_path : path) (crop_box : box)
    (target_path : path) : io bool :=
  io_catch
    (do! img := image_open image_path in
     do! cropped := io_lift (crop img crop_box) in
     do! _ := image_save cropped target_path in
     io_ret true)
    (fun _ => io_ret false).

Definition merge_images (base_path overlay_path : path) (position : Z * Z)
    (target_path : option path) : io bool :=
  io_catch
    (do! base := image_open base_path in
     do! overlay := image_open overlay_path in
     let base := paste base overlay position in
     let save_path := default base_path target_path in
     do! _ := image_save base save_path in
     io_ret true)
    (fun _ => io_ret false).

Definition apply_transparency (image_path : path) (keep_area : box)
    (target_path : option path) : io bool :=
  io_catch
    (do! img := image_open image_path in
     let img := mask_image img keep_area in
     let save_path := default image_path target_path in
     do! _ := image_save img save_path in
     io_ret true)
    (fun _ => io_ret false).

(** ** Applying one version's rules *)

(** A file of [config/mcmetaFile/<version>], as [os.walk] reports it:
    the directory relative to the version directory (["."] at the top),
    the file name and the contents. *)
Record sidecar : Type := {
  sidecar_rel_path : string;
  sidecar_name : string;
  sidecar_content : file
}.

(** [config/mcmetaFile], by version, each in [os.walk] order. *)
Definition mcmeta_store : Type := gmap string (list sidecar).

(** [os.path.join(a, b)] for a relative [b] *)
Definition path_join (a b : string) : string := a ++ "/" ++ b.

(** The path inside [target_path] that
    [os.path.join(os.path.join(target_path, rel_path), name)] names. *)
Definition tree_key (rel_path name : string) : string :=
  if String.eqb rel_path "." then name else path_join rel_path name.

(** [file[:-7]] *)
Definition drop_mcmeta (name : string) : string :=
  String.substring 0 (String.length name - 7) name.

Definition process_splits (source_path target_path : string) (c : config)
  : io unit :=
  io_for (cfg_split_operations c) (fun item =>
    let source_file_path := (source_path, fst item) in
    do! found := exists_file source_file_path in
    if found then
      io_for (snd item) (fun split =>
        let target_file := (target_path, split_target split) in
        do! _ := split_image source_file_path (split_source split) target_file in
        io_ret tt)
    else io_ret tt).

(** The body of [for merge in merges]. *)
Definition merge_step (source_path : string) (target_file_path : path)
    (merge : merge_entry) : io unit :=
  let source_file_path := (source_path, merge_source merge) in
  do! found := exists_file source_file_path in
  if found then
    do! _ := merge_images target_file_path source_file_path
               (merge_position merge) None in
    io_ret tt
  else io_ret tt.

Definition process_merges (source_path target_path : string) (c : config)
  : io unit :=
  io_for (cfg_merge_operations c) (fun item =>
    let target_file_path := (target_path, fst item) in
    io_for (snd item) (merge_step source_path target_file_path)).

Definition process_transparency (source_path target_path : string) (c : config)
  : io unit :=
  io_for (cfg_transparency_operations c) (fun item =>
    let source_file_path := (source_path, fst item) in
    do! found := exists_file source_file_path in
    if found then
      let target_file := (target_path, transparency_target (snd item)) in
      do! _ := copy2 source_file_path target_file in
      do! _ := apply_transparency target_file (keep_area (snd item)) None in
      io_ret tt
    else io_ret tt).

(** Whether [rel_path/original_file] is the target of a split of [c]. *)
Definition is_split_target (c : config) (rel_path original_file : string)
  : bool :=
  existsb
    (fun item =>
       existsb
         (fun split =>
            String.eqb (replace "\" "/" (split_target split))
                       (replace "\" "/" (path_join rel_path original_file)))
         (snd item))
    (cfg_split_operations c).

Definition process_mcmeta (mcmeta_dir : mcmeta_store) (target_path : string)
    (version : string) (c : config) : io unit :=
  match mcmeta_dir !! version with
  | None => io_ret tt
  | Some walk =>
      io_for walk (fun entry =>
        let file := sidecar_name entry in
        if endswith file ".mcmeta" then
          let rel_path := sidecar_rel_path entry in
          let original_file := drop_mcmeta file in
          let target_original_file := (target_path, tree_key rel_path original_file) in
          do! found := exists_file target_original_file in
          if is_split_target c rel_path original_file || found then
            write_file (target_path, tree_key rel_path file)
                       (sidecar_content entry)
          else io_ret tt
        else io_ret tt)
  end.

(** The body of [for operation in operations] after the removals. *)
Definition process_operation (mcmeta_dir : mcmeta_store)
    (source_path target_path : string) (operation : operation) : io unit :=
  let c := op_config operation in
  do! _ := process_splits source_path target_path c in
  do! _ := process_merges source_path target_path c in
  do! _ := process_transparency source_path target_path c in
  process_mcmeta mcmeta_dir target_path (op_version operation) c.

(** [for file in config.get('removed_files', []): exclude_files.add(file)] *)
Definition add_removed (c : config) (exclude_files : gset string) : gset string :=
  fold_left (fun s file => s ∪ {[file]}) (cfg_removed_files c) exclude_files.

(** The [try] block of [process_version_conversion] with its handler: the
    loop over the operations, which ends at the first exception with
    [(False, exclude_files)]. *)
Fixpoint process_operations (mcmeta_dir : mcmeta_store)
    (source_path target_path : string) (operations : list operation)
    (exclude_files : gset string) : io (bool * gset string) :=
  match operations with
  | [] => io_ret (true, exclude_files)
  | operation :: rest =>
      let exclude_files := add_removed (op_config operation) exclude_files in
      fun w =>
        match process_operation mcmeta_dir source_path target_path operation w with
        | (Ok _, w') =>
            process_operations mcmeta_dir source_path target_path rest
              exclude_files w'
        | (Raise e, w') => (Ok (false, exclude_files), show (ShowError e) w')
        | (OutOfFuel, w') => (OutOfFuel, w')
        end
  end.

Definition process_version_conversion (fuel : nat) (config_dir : config_store)
    (mcmeta_dir : mcmeta_store)
    (source_path target_path source_version target_version : string)
  : io (bool * gset string) :=
  do! operations :=
    io_lift (get_version_operations fuel config_dir source_version
               target_version) in
  process_operations mcmeta_dir source_path target_path operations ∅.

(** ** Packaging *)

Definition version_format : dict Z :=
  [("1.16.5", 6); ("1.17.1", 7); ("1.18.2", 8); ("1.19.2", 9);
   ("1.19.3", 12); ("1.19.4", 13); ("1.20.1", 15); ("1.20.2", 18);
   ("1.20.4", 26); ("1.21", 30)].

(** [mcmeta['pack']['pack_format'] = version_format.get(target, 15)] *)
Definition set_pack_format (target : string) (mcmeta : json) : result json :=
  match mcmeta with
  | JDict d =>
      match dict_get "pack" d with
      | Some (JDict pack) =>
          Ok (JDict
                (dict_set "pack"
                   (JDict
                      (dict_set "pack_format"
                         (JInt (default 15 (dict_get target version_format)))
                         pack))
                   d))
      | Some _ => Raise TypeError
      | None => Raise KeyError
      end
  | _ => Raise TypeError
  end.

(** [with open(p) as f: json.load(f)] *)
Definition json_read (p : path) : io json :=
  fun w =>
    match read_file p w with
    | Some (JsonFile doc) => (Ok doc, w)
    | Some _ => (Raise JSONDecodeError, w)
    | None => (Raise OSError, w)
    end.

(** The entries [zipf.write(file_path, rel_path)] adds while walking
    [tree]. *)
Definition pack_archive (tree : gmap string file) (exclude_files : gset string)
  : list (string * file) :=
  fold_left
    (fun zipf item =>
       let rel_path := replace "\" "/" (fst item) in
       if decide (rel_path ∈ exclude_files) then zipf
       else zipf ++ [(rel_path, snd item)])
    (map_to_list tree) [].

Definition temp_dir : string := "temp_convert".

(** [with zipfile.ZipFile(save_path, 'w', ZIP_DEFLATED) as zipf: ...] *)
Definition write_zip (save_path : string) (exclude_files : gset string)
  : io unit :=
  fun w =>
    if decide (save_path ∈ unwritable w) then (Raise OSError, w)
    else
      (Ok tt,
       set_archives
         (<[save_path :=
              pack_archive (default ∅ (disk w !! temp_dir)) exclude_files]>
            (archives w)) w).

Definition io_show (e : ui_event) : io unit := fun w => (Ok tt, show e w).

(** The [if os.path.exists(mcmeta_path)] block. *)
Definition update_pack_format (target : string) : io unit :=
  let mcmeta_path := (temp_dir, "pack.mcmeta") in
  do! found := exists_file mcmeta_path in
  if found then
    do! mcmeta := json_read mcmeta_path in
    do! mcmeta := io_lift (set_pack_format target mcmeta) in
    write_file mcmeta_path (JsonFile mcmeta)
  else io_ret tt.

(** The [try] block of [on_confirm].  [pack_name] names the directory of
    the selected pack in the cache; [save_path] is the answer of the save
    dialog, empty when it was cancelled. *)
Definition on_confirm_try (fuel : nat) (config_dir : config_store)
    (mcmeta_dir : mcmeta_store) (pack_name source target save_path : string)
  : io unit :=
  let source_path := pack_name in
  do! _ := copytree source_path temp_dir in
  do! _ := update_pack_format target in
  do! r := process_version_conversion fuel config_dir mcmeta_dir
             source_path temp_dir source target in
  if fst r then
    if String.eqb save_path "" then io_ret tt
    else
      do! _ := write_zip save_path (snd r) in
      do! _ := io_show (ShowInfo save_path) in
      io_show WindowDestroyed
  else io_ret tt.

(** [finally: if os.path.exists(temp_dir): shutil.rmtree(temp_dir)] *)
Definition remove_temp_dir : io unit :=
  do! found := exists_dir temp_dir in
  if found then rmtree temp_dir else io_ret tt.

(** [try: c  finally: cleanup]: the cleanup runs whatever [c] did. *)
Definition io_finally {A} (c : io A) (cleanup : io unit) : io A :=
  fun w =>
    match c w with
    | (r, w') =>
        match cleanup w' with
        | (Ok _, w'') => (r, w'')
        | (Raise e, w'') => (Raise e, w'')
        | (OutOfFuel, w'') => (OutOfFuel, w'')
        end
    end.

Definition on_confirm (fuel : nat) (config_dir : config_store)
    (mcmeta_dir : mcmeta_store) (pack_name source target save_path : string)
  : io unit :=
  do! _ := remove_temp_dir in
  io_finally
    (io_catch
       (on_confirm_try fuel config_dir mcmeta_dir pack_name source target
          save_path)
       (fun e =>
          do! _ := io_show (ShowError e) in
          io_show WindowDestroyed))
    remove_temp_dir.

(** [mcmeta['pack']['pack_format']], read back from a document. *)
Definition pack_format_of (mcmeta : json) : option json :=
  match mcmeta with
  | JDict d =>
      match dict_get "pack" d with
      | Some (JDict pack) => dict_get "pack_format" pack
      | _ => None
      end
  | _ => None
  end.

(** ** Detecting the version of a pack *)

Definition format_to_version : list (Z * string) :=
  [(6, "1.16.5"); (7, "1.17.1"); (8, "1.18.2"); (9, "1.19.2");
   (12, "1.19.3"); (13, "1.19.4"); (15, "1.20.1"); (18, "1.20.2");
   (26, "1.20.4"); (30, "1.21")].

(** [d.get(k)] for integer keys. *)
Fixpoint int_dict_get {V} (k : Z) (d : list (Z * V)) : option V :=
  match d with
  | [] => None
  | (k', v) :: d' => if (k' =? k)%Z then Some v else int_dict_get k d'
  end.

(** [get_version_from_pack_format]: the argument is whatever the metadata
    file holds.  [True] and [False] are the keys 1 and 0; a list or a
    dictionary cannot be a key. *)
Definition get_version_from_pack_format (pack_format : json)
  : result (option string) :=
  match pack_format with
  | JInt n => Ok (int_dict_get n format_to_version)
  | JBool b => Ok (int_dict_get (if b then 1 else 0) format_to_version)
  | JNull | JStr _ => Ok None
  | JList _ | JDict _ => Raise TypeError
  end.

(** [mcmeta['pack']['pack_format']] *)
Definition read_pack_format (mcmeta : json) : result json :=
  match mcmeta with
  | JDict d =>
      match dict_get "pack" d with
      | Some (JDict pack) => dict_lookup "pack_format" pack
      | Some _ => Raise TypeError
      | None => Raise KeyError
      end
  | _ => Raise TypeError
  end.

(** The [try] block of [open_convert_window] on the parsed metadata:
    [current_version] stays [None] when anything raises. *)
Definition current_version_of (mcmeta : json) : option string :=
  match (try! pack_format := read_pack_format mcmeta in
         get_version_from_pack_format pack_format) with
  | Ok current_version => current_version
  | _ => None
  end.

(** ** Specification vocabulary for the file operations *)

(** [w'] is [w] after writes into the directory [dir] at paths that satisfy
    [K]: the other directories, the other paths of [dir], the archives and
    the sets of unwritable paths are as before, and no file of [dir] has
    gone. *)
Definition writes_within (dir : string) (K : string -> Prop) (w w' : world)
  : Prop :=
  (forall d, d <> dir -> disk w' !! d = disk w !! d) /\
  (forall p, ~ K p -> read_file (dir, p) w' = read_file (dir, p) w) /\
  (forall p, is_Some (read_file (dir, p) w) ->
             is_Some (read_file (dir, p) w')) /\
  archives w' = archives w /\
  locked w' = locked w /\
  unwritable w' = unwritable w.

(** A computation that only writes into [dir], at paths that satisfy [K]. *)
Definition confined (dir : string) (K : string -> Prop) {A} (c : io A) : Prop :=
  forall w, writes_within dir K w (snd (c w)).

(** Two worlds with the same source pack, the same unwritable paths, and
    the same files in the working copy at the paths that satisfy [K]; their
    working copies may differ anywhere else. *)
Definition agree (source_path target_path : string) (K : string -> Prop)
    (w1 w2 : world) : Prop :=
  disk w1 !! source_path = disk w2 !! source_path /\
  locked w1 = locked w2 /\
  forall p, K p -> read_file (target_path, p) w1 = read_file (target_path, p) w2.

(** A computation that looks at the working copy at most at the paths that
    satisfy [R]: run in two worlds that agree (at least there), it returns
    the same result, the working copies then agree wherever they agreed or
    it wrote, and it leaves the other paths of each working copy alone. *)
Definition oblivious (source_path target_path : string) (R : string -> Prop)
    {A} (c : io A) : Prop :=
  forall (K : string -> Prop) (w1 w2 : world),
    (forall p, R p -> K p) ->
    agree source_path target_path K w1 w2 ->
    exists K' : string -> Prop,
      (forall p, K p -> K' p) /\
      fst (c w1) = fst (c w2) /\
      agree source_path target_path K' (snd (c w1)) (snd (c w2)) /\
      (forall p, ~ K' p ->
         read_file (target_path, p) (snd (c w1)) = read_file (target_path, p) w1 /\
         read_file (target_path, p) (snd (c w2)) = read_file (target_path, p) w2).

(** Every file of the source pack has a file at the same path of the
    working copy. *)
Definition covers (source_path target_path : string) (w : world) : Prop :=
  forall p, is_Some (read_file (source_path, p) w) ->
            is_Some (read_file (target_path, p) w).


(** The paths of the working copy that the rules of [c] name as targets. *)
Definition split_targets (c : config) (p : string) : Prop :=
  exists item split,
    In item (cfg_split_operations c) /\ In split (snd item) /\
    p = split_target split.

Definition merge_targets (c : config) (p : string) : Prop :=
  In p (map fst (cfg_merge_operations c)).

Definition transparency_targets (c : config) (p : string) : Prop :=
  exists item,
    In item (cfg_transparency_operations c) /\
    p = transparency_target (snd item).

(** The paths at which the sidecars of [version] may be copied. *)
Definition sidecar_targets (mcmeta_dir : mcmeta_store) (version : string)
    (p : string) : Prop :=
  exists walk entry,
    mcmeta_dir !! version = Some walk /\ In entry walk /\
    p = tree_key (sidecar_rel_path entry) (sidecar_name entry).

Definition operation_targets (mcmeta_dir : mcmeta_store) (op : operation)
    (p : string) : Prop :=
  split_targets (op_config op) p \/ merge_targets (op_config op) p \/
  transparency_targets (op_config op) p \/
  sidecar_targets mcmeta_dir (op_version op) p.

Definition plan_targets (mcmeta_dir : mcmeta_store) (plan : list operation)
    (p : string) : Prop :=
  exists op, In op plan /\ operation_targets mcmeta_dir op p.

(** Whether a path holds no forward slash. *)
Fixpoint no_slash (s : string) : bool :=
  match s with
  | EmptyString => true
  | String c s' => negb (Ascii.eqb c "/"%char) && no_slash s'
  end.

(** Whether ["1."] occurs somewhere in [s]. *)
Fixpoint occurs_1dot (s : string) : bool :=
  String.prefix "1." s
  || match s with
     | EmptyString => false
     | String _ s' => occurs_1dot s'
     end.

(** ** Sample data *)

Definition empty_config : config :=
  {| cfg_versions := None;
     cfg_removed_files := [];
     cfg_split_operations := [];
     cfg_merge_operations := [];
     cfg_transparency_operations := [] |}.

(** A configuration directory with three version records. *)
Definition sample_store : config_store :=
  [ {| file_name := "1.20.json"; file_content := Document empty_config |};
    {| file_name := "1.19.4.json"; file_content := Document empty_config |};
    {| file_name := "1.21.json"; file_content := Document empty_config |} ].

Definition sample_configs : dict config :=
  [("1.20", empty_config); ("1.19.4", empty_config); ("1.21", empty_config)].

(** The same directory with one record that does not parse. *)
Definition broken_store : config_store :=
  [ {| file_name := "1.20.json";
       file_content :=
         Document {| cfg_versions := Some ["1.20.1"; "1.20.2"];
                     cfg_removed_files := [];
                     cfg_split_operations := [];
                     cfg_merge_operations := [];
                     cfg_transparency_operations := [] |} |};
    {| file_name := "1.21.json"; file_content := Malformed |} ].

(** A 2x2 opaque image and the pack that holds it with a metadata file;
    there is no [overlay.png]. *)
Definition sample_image : image :=
  {| img_width := 2;
     img_height := 2;
     img_data := [Pixel 10 20 30 255; Pixel 11 21 31 255;
                  Pixel 12 22 32 255; Pixel 13 23 33 128] |}.

Definition sample_mcmeta : dict json :=
  [("pack", JDict [("pack_format", JInt 9); ("description", JStr "sample")])].

Definition sample_pack : gmap string file :=
  <["base.png" := ImageFile sample_image]>
    (<["pack.mcmeta" := JsonFile (JDict sample_mcmeta)]> ∅).

(** The cache after [copytree]: the pack and its working copy. *)
Definition sample_world : world :=
  {| disk := <["mypack" := sample_pack]> (<[temp_dir := sample_pack]> ∅);
     archives := ∅;
     locked := ∅;
     unwritable := ∅;
     ui := [] |}.

(** The merge of the scenario: paste [overlay.png] at (4, 4) onto
    [base.png]. *)
Definition overlay_merge : merge_entry :=
  {| merge_source := "overlay.png"; merge_position := (4, 4) |}.

Definition merge_config : config :=
  {| cfg_versions := Some ["1.20"];
     cfg_removed_files := [];
     cfg_split_operations := [];
     cfg_merge_operations := [("base.png", [overlay_merge])];
     cfg_transparency_operations := [] |}.

(** A plan of two steps: the first crops [base.png] into [overlay.png],
    the second pastes [overlay.png] onto [base.png]. *)
Definition split_config : config :=
  {| cfg_versions := Some ["1.19.4"];
     cfg_removed_files := [];
     cfg_split_operations :=
       [("base.png",
         [{| split_source := (0, 0, 1, 1); split_target := "overlay.png" |}])];
     cfg_merge_operations := [];
     cfg_transparency_operations := [] |}.

Definition split_then_merge : list operation :=
  [ {| op_version := "1.19.4"; op_config := split_config |};
    {| op_version := "1.20"; op_config := merge_config |} ].

(** The cache before a conversion: the pack alone. *)
Definition cache_world : world :=
  {| disk := <["mypack" := sample_pack]> ∅;
     archives := ∅;
     locked := ∅;
     unwritable := ∅;
     ui := [] |}.

(** A rule whose target cannot be written. *)
Definition transparency_config : config :=
  {| cfg_versions := Some ["1.20"];
     cfg_removed_files := ["base.png"];
     cfg_split_operations := [];
     cfg_merge_operations := [];
     cfg_transparency_operations :=
       [("base.png",
         {| transparency_target := "masked.png"; keep_area := (0, 0, 0, 0) |})] |}.

Definition transparency_store : config_store :=
  [ {| file_name := "1.20.json"; file_content := Document transparency_config |} ].

Definition locked_world : world :=
  {| disk := <["mypack" := sample_pack]> ∅;
     archives := ∅;
     locked := {[ (temp_dir, "masked.png") ]};
     unwritable := ∅;
     ui := [] |}.

(** The key as the specification words it: only the leading ["1."] is
    removed, and the rest is read as one decimal number. *)
Definition prefix_stripped_key (version : string) : result Q :=
  match version with
  | String "1"%char (String "."%char rest) => float_of_string rest
  | _ => Raise ValueError
  end.

(** ** Specification vocabulary for the resolver *)

(** [q] is a key the resolver may move to from [current_num]. *)
Definition candidate (ascending : bool) (current_num target_num q : Q) : Prop :=
  if ascending then (current_num < q)%Q /\ (q <= target_num)%Q
  else (q < current_num)%Q /\ (target_num <= q)%Q.

(** [q] is at least as near to the current version as [b]. *)
Definition nearer (ascending : bool) (q : Q) (b : Q) : Prop :=
  if ascending then (q <= b)%Q else (b <= q)%Q.

Definition all_keys (configs : dict config) : Prop :=
  Forall (fun item => exists q, version_num (fst item) = Ok q) configs.

(** What [(next_version, next_num)] holds after any number of iterations. *)
Inductive selected (ascending : bool) (current_num target_num : Q)
    (seen : dict config) : option string * bound -> Prop :=
| selected_none :
    Forall (fun item => forall q, version_num (fst item) = Ok q ->
                        ~ candidate ascending current_num target_num q) seen ->
    selected ascending current_num target_num seen
      (None, if ascending then PosInf else NegInf)
| selected_some v q :
    In v (map fst seen) ->
    version_num v = Ok q ->
    candidate ascending current_num target_num q ->
    Forall (fun item => forall q', version_num (fst item) = Ok q' ->
                        candidate ascending current_num target_num q' ->
                        nearer ascending q q') seen ->
    selected ascending current_num target_num seen (Some v, Fin q).


Definition candidateb (ascending : bool) (current_num target_num q : Q) : bool :=
  if ascending then Qlt_bool current_num q && Qle_bool q target_num
  else Qlt_bool q current_num && Qle_bool target_num q.

Definition is_candidate (ascending : bool) (current_num target_num : Q)
    (item : string * config) : bool :=
  match version_num (fst item) with
  | Ok q => candidateb ascending current_num target_num q
  | _ => false
  end.

(** How many registered versions the resolver may still move to. *)
Definition remaining (ascending : bool) (current_num target_num : Q)
    (configs : dict config) : nat :=
  length (List.filter (is_candidate ascending current_num target_num) configs).

(** A version path leaving the key [qc]: every step moves to a registered
    version that is a candidate from the previous one. *)
Inductive chain (ascending : bool) (target_num : Q) (configs : dict config)
  : Q -> list string -> Prop :=
| chain_nil qc : chain ascending target_num configs qc []
| chain_cons qc v q ext :
    In v (map fst configs) ->
    version_num v = Ok q ->
    candidate ascending qc target_num q ->
    chain ascending target_num configs q ext ->
    chain ascending target_num configs qc (v :: ext).

(** What the [while] loop computes from the key [qc]: it stops when the
    target key is reached or when no registered version qualifies, and
    otherwise moves to a nearest qualifying version. *)
Inductive resolved (ascending : bool) (target_num : Q) (configs : dict config)
  : Q -> list string -> Prop :=
| resolved_reached qc :
    (qc == target_num)%Q ->
    resolved ascending target_num configs qc []
| resolved_stuck qc :
    ~ (qc == target_num)%Q ->
    Forall (fun item => forall q, version_num (fst item) = Ok q ->
                        ~ candidate ascending qc target_num q) configs ->
    resolved ascending target_num configs qc []
| resolved_step qc v q ext :
    ~ (qc == target_num)%Q ->
    In v (map fst configs) ->
    version_num v = Ok q ->
    candidate ascending qc target_num q ->
    Forall (fun item => forall q', version_num (fst item) = Ok q' ->
                        candidate ascending qc target_num q' ->
                        nearer ascending q q') configs ->
    resolved ascending target_num configs q ext ->
    resolved ascending target_num configs qc (v :: ext).

(** ** Specification vocabulary for the further properties *)

(** The key [qc] lies strictly on the source side of the target key. *)
Definition short_of (ascending : bool) (qc target_num : Q) : Prop :=
  if ascending then (qc < target_num)%Q else (target_num < qc)%Q.

(** The version name [load_version_configs] gives to a file. *)
Definition version_of_file (f : config_file) : string :=
  replace ".json" "" (file_name f).

(** The document of the last [.json] file of [files] named for [version]. *)
Fixpoint latest_document (files : config_store) (version : string)
  : option config :=
  match files with
  | [] => None
  | f :: rest =>
      match latest_document rest version with
      | Some c => Some c
      | None =>
          if endswith (file_name f) ".json"
             && String.eqb (version_of_file f) version
          then match file_content f with
               | Document c => Some c
               | _ => None
               end
          else None
      end
  end.

(** [version] is declared by a record of the directory that loads. *)
Definition declared (config_dir : config_store) (version : string) : Prop :=
  exists f c versions,
    In f config_dir /\ endswith (file_name f) ".json" = true /\
    file_content f = Document c /\ cfg_versions c = Some versions /\
    In version versions.

(** Whether a [.json] file of the directory fails to load. *)
Definition fails_to_load (f : config_file) : bool :=
  endswith (file_name f) ".json"
  && match file_content f with
     | Document _ => false
     | _ => true
     end.

(** The exception reading a file of the directory raises. *)
Definition load_error (f : config_file) : exn :=
  match file_content f with
  | Unreadable => OSError
  | _ => JSONDecodeError
  end.

(** The diagnostic [get_available_versions] prints for a file. *)
Definition diagnostic_of (f : config_file) : diagnostic :=
  {| diag_file := file_name f; diag_error := load_error f |}.

(** A list of keyed versions in which no element is below a later one. *)
Definition descending (l : list (list Z * string)) : Prop :=
  forall (i j : nat) a b,
    (i < j)%nat -> l !! i = Some a -> l !! j = Some b ->
    list_ltb (fst a) (fst b) = false.

(** A computation that leaves the component [f] of the world as it is. *)
Definition keeps {X} (f : world -> X) {A} (c : io A) : Prop :=
  forall w, f (snd (c w)) = f w.

(** A computation that always returns normally. *)
Definition always_returns {A} (c : io A) : Prop :=
  forall w, exists a, fst (c w) = Ok a.

(** A computation that returns normally or raises [OSError]. *)
Definition raises_only_OSError {A} (c : io A) : Prop :=
  forall w, (exists a, fst (c w) = Ok a) \/ fst (c w) = Raise OSError.

(** [p] is listed in the [removed_files] of a step of the plan. *)
Definition removed_by (plan : list operation) (p : string) : Prop :=
  exists op, In op plan /\ In p (cfg_removed_files (op_config op)).

(** [p] is a target of a transparency rule or of a sidecar of the plan:
    the writes of a step that are not inside a [try] of their own. *)
Definition unguarded_targets (mcmeta_dir : mcmeta_store)
    (plan : list operation) (p : string) : Prop :=
  exists op,
    In op plan /\
    (transparency_targets (op_config op) p \/
     sidecar_targets mcmeta_dir (op_version op) p).

(** What a conversion has no business with: the directories of the cache
    other than the working copy, the archives other than the one being
    saved, and the write protections. *)
Definition leaves_rest_alone (save_path : string) (w w' : world) : Prop :=
  (forall d, d <> temp_dir -> disk w' !! d = disk w !! d) /\
  (forall a, a <> save_path -> archives w' !! a = archives w !! a) /\
  locked w' = locked w /\
  unwritable w' = unwritable w.

(** What the [try] block of [on_confirm] has done when it returns having
    shown the success dialog: the archive at [save_path] was written from
    the working copy [tree], which holds the files of the pack [src] as
    they were wherever no rule of [plan] and no metadata update wrote, and
    the metadata file of the pack, rewritten for [target], unless a rule
    of [plan] wrote over it. *)
Definition packaged (mcmeta_dir : mcmeta_store) (save_path target : string)
    (src : gmap string file) (plan : list operation) (w w' : world) : Prop :=
  exists exclude_files tree,
    (forall p, p ∈ exclude_files <-> removed_by plan p) /\
    archives w'
    = <[save_path := pack_archive tree exclude_files]> (archives w) /\
    (forall p, ~ plan_targets mcmeta_dir plan p -> p <> "pack.mcmeta" ->
               tree !! p = src !! p) /\
    (forall p, is_Some (src !! p) -> is_Some (tree !! p)) /\
    (forall f, src !! "pack.mcmeta" = Some f ->
       exists mcmeta mcmeta',
         f = JsonFile mcmeta /\
         set_pack_format target mcmeta = Ok mcmeta' /\
         (~ plan_targets mcmeta_dir plan "pack.mcmeta" ->
          tree !! "pack.mcmeta" = Some (JsonFile mcmeta'))).

(** The exception that the metadata update raises on the file [f] found
    at [pack.mcmeta], if it raises one. *)
Definition metadata_error (target : string) (f : file) : option exn :=
  match f with
  | JsonFile doc =>
      match set_pack_format target doc with
      | Raise e => Some e
      | _ => None
      end
  | _ => Some JSONDecodeError
  end.

(** Whether a name holds no backslash. *)
Fixpoint no_backslash (s : string) : bool :=
  match s with
  | EmptyString => true
  | String c s' => negb (Ascii.eqb c "\"%char) && no_backslash s'
  end.

(** A pixel whose four bands are bytes. *)
Definition byte_pixel (p : pixel) : Prop :=
  (0 <= red p <= 255)%Z /\ (0 <= green p <= 255)%Z /\
  (0 <= blue p <= 255)%Z /\ (0 <= alpha p <= 255)%Z.

(** The body of the loop of [process_mcmeta], by name. *)
Definition mcmeta_step (target_path : string) (c : config) (entry : sidecar)
  : io unit :=
  let file := sidecar_name entry in
  if endswith file ".mcmeta" then
    let rel_path := sidecar_rel_path entry in
    let original_file := drop_mcmeta file in
    let target_original_file := (target_path, tree_key rel_path original_file) in
    do! found := exists_file target_original_file in
    if is_split_target c rel_path original_file || found then
      write_file (target_path, tree_key rel_path file) (sidecar_content entry)
    else io_ret tt
  else io_ret tt.

(** Where the sidecar [entry] goes in the working copy, and the file it
    describes. *)
Definition sidecar_key (entry : sidecar) : string :=
  tree_key (sidecar_rel_path entry) (sidecar_name entry).

Definition sidecar_original (entry : sidecar) : string :=
  tree_key (sidecar_rel_path entry) (drop_mcmeta (sidecar_name entry)).

(** The comparison by which [process_mcmeta] recognises the original of
    a sidecar as the target of a split: the target of some split of the
    step equals, backslashes normalised, the directory of the sidecar
    joined with the name of the original.  At the top of the sidecar
    directory that directory is ["."] and the joined path is [./name], so
    a target written [name] is not recognised there. *)
Definition compared_as_split_target (c : config) (entry : sidecar) : Prop :=
  exists item split,
    In item (cfg_split_operations c) /\ In split (snd item) /\
    replace "\" "/" (split_target split)
    = replace "\" "/" (path_join (sidecar_rel_path entry)
                         (drop_mcmeta (sidecar_name entry))).

(** When [process_mcmeta] copies [entry]: it is a [.mcmeta] file, and the
    file it describes is in the working copy or passes the comparison
    above. *)
Definition sidecar_wanted (target_path : string) (c : config)
    (entry : sidecar) (w : world) : Prop :=
  endswith (sidecar_name entry) ".mcmeta" = true /\
  (compared_as_split_target c entry \/
   is_Some (read_file (target_path, sidecar_original entry) w)).

(** A sidecar directory for 1.20 with one animation file for
    [base.png]. *)
Definition sample_sidecar : sidecar :=
  {| sidecar_rel_path := ".";
     sidecar_name := "base.png.mcmeta";
     sidecar_content := JsonFile (JDict [("animation", JDict [])]) |}.

Definition sample_sidecars : mcmeta_store :=
  {[ "1.20" := [sample_sidecar] ]}.

(** Whether some character of [s] satisfies [P]. *)
Fixpoint holds (P : ascii -> bool) (s : string) : bool :=
  match s with
  | EmptyString => false
  | String c s' => P c || holds P s'
  end.

(** An ASCII letter.  No string that [int()] reads holds one: it reads
    digits, a sign, underscores and blanks. *)
Definition is_letter (c : ascii) : bool :=
  (65 <=? nat_of_ascii c)%nat && (nat_of_ascii c <=? 90)%nat
  || (97 <=? nat_of_ascii c)%nat && (nat_of_ascii c <=? 122)%nat.

(** The letters of the spellings [float()] reads: the exponent mark and
    those of [inf], [infinity] and [nan], in either case. *)
Definition float_letter (c : ascii) : bool :=
  holds (Ascii.eqb c) "aefintyAEFINTY".

(** A letter that no string read by [float()] holds. *)
Definition foreign_letter (c : ascii) : bool :=
  is_letter c && negb (float_letter c).

(** A registry whose plan from 1.19 to 1.20 is [split_then_merge], and
    a world in which the targets of its rules cannot be written. *)
Definition split_merge_store : config_store :=
  [ {| file_name := "1.19.4.json"; file_content := Document split_config |};
    {| file_name := "1.20.json"; file_content := Document merge_config |} ].

Definition protected_world : world :=
  {| disk := <["mypack" := sample_pack]> ∅;
     archives := ∅;
     locked := {[ (temp_dir, "overlay.png"); (temp_dir, "base.png") ]};
     unwritable := ∅;
     ui := [] |}.

(** A step whose transparency rule writes the masked [base.png] over the
    metadata file. *)
Definition overwrite_config : config :=
  {| cfg_versions := Some ["1.20"];
     cfg_removed_files := [];
     cfg_split_operations := [];
     cfg_merge_operations := [];
     cfg_transparency_operations :=
       [("base.png",
         {| transparency_target := "pack.mcmeta";
            keep_area := (0, 0, 1, 1) |})] |}.

Definition overwrite_store : config_store :=
  [ {| file_name := "1.20.json"; file_content := Document overwrite_config |} ].

(** * Properties *)

(** ** Comparisons on keys *)

Lemma Qlt_bool_iff (x y : Q) : Qlt_bool x y = true <-> (x < y)%Q.
Proof.
  unfold Qlt_bool. rewrite negb_true_iff.
  split; intros H.
  - apply Qnot_le_lt. intros Hle. apply Qle_bool_iff in Hle. congruence.
  - destruct (Qle_bool y x) eqn:E; [|reflexivity].
    apply Qle_bool_iff in E. exfalso. apply (Qlt_not_le _ _ H E).
Qed.

Lemma Qeq_bool_false_neq (x y : Q) : Qeq_bool x y = false -> ~ (x == y)%Q.
Proof. intros H Heq. apply Qeq_bool_iff in Heq. congruence. Qed.

(** ** Results *)

Lemma rbind_Ok {A B} (r : result A) (k : A -> result B) (b : B) :
  rbind r k = Ok b -> exists a, r = Ok a /\ k a = Ok b.
Proof. destruct r; simpl; intros H; try discriminate. eauto. Qed.

(** ** The selection loop *)

Lemma nearer_refl ascending q : nearer ascending q q.
Proof. destruct ascending; simpl; apply Qle_refl. Qed.

Lemma nearer_trans ascending a b c :
  nearer ascending a b -> nearer ascending b c -> nearer ascending a c.
Proof. destruct ascending; simpl; intros; lra. Qed.

Lemma selected_keep ascending cur tgt seen st item q :
  selected ascending cur tgt seen st ->
  version_num (fst item) = Ok q ->
  (~ candidate ascending cur tgt q \/
   exists v q0, st = (Some v, Fin q0) /\ nearer ascending q0 q) ->
  selected ascending cur tgt (seen ++ [item]) st.
Proof.
  intros Hsel Hq Hwhy.
  inversion Hsel as [Hall | v q0 Hin Hv Hc Hall]; subst.
  - constructor. apply Forall_app. split; [assumption|].
    constructor; [|constructor]. intros q' Hq'. rewrite Hq in Hq'.
    injection Hq' as <-. destruct Hwhy as [H | (v & q0 & H & _)]; [assumption|].
    destruct ascending; discriminate.
  - apply selected_some; try assumption.
    + rewrite map_app. apply in_or_app. now left.
    + apply Forall_app. split; [assumption|].
      constructor; [|constructor]. intros q' Hq' Hc'. rewrite Hq in Hq'.
      injection Hq' as <-.
      destruct Hwhy as [H | (v' & q1 & H & Hn)]; [contradiction|].
      now injection H as <- <-.
Qed.

Lemma selected_take ascending cur tgt seen st item q :
  selected ascending cur tgt seen st ->
  version_num (fst item) = Ok q ->
  candidate ascending cur tgt q ->
  (forall v q0, st = (Some v, Fin q0) -> nearer ascending q q0) ->
  selected ascending cur tgt (seen ++ [item]) (Some (fst item), Fin q).
Proof.
  intros Hsel Hq Hc Hwhy.
  apply selected_some; try assumption.
  - rewrite map_app. apply in_or_app. right. now left.
  - apply Forall_app. split.
    + inversion Hsel as [Hall | v q0 Hin Hv Hc0 Hall]; subst.
      * eapply Forall_impl; [exact Hall|]. simpl.
        intros a Ha q' Hq' Hc'. exfalso. exact (Ha q' Hq' Hc').
      * eapply Forall_impl; [exact Hall|]. simpl.
        intros a Ha q' Hq' Hc'.
        eapply nearer_trans; [apply (Hwhy v q0 eq_refl)|]. now apply Ha.
    + constructor; [|constructor]. intros q' Hq' _. rewrite Hq in Hq'.
      injection Hq' as <-. apply nearer_refl.
Qed.

Lemma lt_bound_nearer q (st : option string * bound) :
  lt_bound q (snd st) = true ->
  forall v q0, st = (Some v, Fin q0) -> nearer true q q0.
Proof.
  intros H v q0 ->. simpl in *. apply Qlt_bool_iff in H. lra.
Qed.

Lemma gt_bound_nearer q (st : option string * bound) :
  gt_bound q (snd st) = true ->
  forall v q0, st = (Some v, Fin q0) -> nearer false q q0.
Proof.
  intros H v q0 ->. simpl in *. apply Qlt_bool_iff in H. lra.
Qed.

Lemma select_step_spec ascending cur tgt seen st item :
  selected ascending cur tgt seen st ->
  (exists q, version_num (fst item) = Ok q) ->
  exists st', select_step ascending cur tgt st item = Ok st' /\
              selected ascending cur tgt (seen ++ [item]) st'.
Proof.
  intros Hsel [q Hq]. unfold select_step. rewrite Hq. simpl.
  destruct ascending.
  - destruct (Qlt_bool cur q) eqn:E1; simpl.
    2:{ eexists; split; [reflexivity|]. eapply selected_keep; eauto. left.
        intros [H _]. apply Qlt_bool_iff in H. congruence. }
    destruct (Qle_bool q tgt) eqn:E2; simpl.
    2:{ eexists; split; [reflexivity|]. eapply selected_keep; eauto. left.
        intros [_ H]. apply Qle_bool_iff in H. congruence. }
    apply Qlt_bool_iff in E1. apply Qle_bool_iff in E2.
    destruct (lt_bound q (snd st)) eqn:E3.
    + eexists; split; [reflexivity|].
      eapply selected_take; eauto using lt_bound_nearer. split; assumption.
    + eexists; split; [reflexivity|]. eapply selected_keep; eauto. right.
      inversion Hsel; subst; simpl in E3; [discriminate|].
      do 2 eexists. split; [reflexivity|]. simpl.
      destruct (Qlt_le_dec q q0) as [Hlt|Hle]; [|assumption].
      apply Qlt_bool_iff in Hlt. congruence.
  - destruct (Qlt_bool q cur) eqn:E1; simpl.
    2:{ eexists; split; [reflexivity|]. eapply selected_keep; eauto. left.
        intros [H _]. apply Qlt_bool_iff in H. congruence. }
    destruct (Qle_bool tgt q) eqn:E2; simpl.
    2:{ eexists; split; [reflexivity|]. eapply selected_keep; eauto. left.
        intros [_ H]. apply Qle_bool_iff in H. congruence. }
    apply Qlt_bool_iff in E1. apply Qle_bool_iff in E2.
    destruct (gt_bound q (snd st)) eqn:E3.
    + eexists; split; [reflexivity|].
      eapply selected_take; eauto using gt_bound_nearer. split; assumption.
    + eexists; split; [reflexivity|]. eapply selected_keep; eauto. right.
      inversion Hsel; subst; simpl in E3; [discriminate|].
      do 2 eexists. split; [reflexivity|]. simpl.
      destruct (Qlt_le_dec q0 q) as [Hlt|Hle]; [|assumption].
      apply Qlt_bool_iff in Hlt. congruence.
Qed.

Lemma select_from ascending cur tgt (rest seen : dict config) st :
  selected ascending cur tgt seen st ->
  all_keys rest ->
  exists st', for_each (select_step ascending cur tgt) rest st = Ok st' /\
              selected ascending cur tgt (seen ++ rest) st'.
Proof.
  revert seen st. induction rest as [|item rest IH]; intros seen st Hsel Hall.
  - exists st. rewrite app_nil_r. split; [reflexivity|assumption].
  - inversion Hall as [|? ? Hitem Hrest]; subst.
    destruct (select_step_spec _ _ _ _ _ _ Hsel Hitem) as (st1 & E1 & Hsel1).
    destruct (IH _ _ Hsel1 Hrest) as (st2 & E2 & Hsel2).
    exists st2. simpl. rewrite E1. simpl. split; [assumption|].
    now rewrite <- app_assoc in Hsel2.
Qed.

Lemma select_all ascending cur tgt (configs : dict config) :
  all_keys configs ->
  exists st,
    for_each (select_step ascending cur tgt) configs
      (None, if ascending then PosInf else NegInf) = Ok st /\
    selected ascending cur tgt configs st.
Proof.
  intros Hall.
  apply (select_from ascending cur tgt configs []); [|assumption].
  constructor. constructor.
Qed.

(** ** Termination of the [while] loop *)

Lemma candidateb_iff ascending cur tgt q :
  candidateb ascending cur tgt q = true <-> candidate ascending cur tgt q.
Proof.
  unfold candidateb, candidate. destruct ascending;
    rewrite andb_true_iff, Qlt_bool_iff, Qle_bool_iff; reflexivity.
Qed.

Lemma remaining_le ascending cur tgt (configs : dict config) :
  (remaining ascending cur tgt configs <= length configs)%nat.
Proof.
  unfold remaining. induction configs as [|item configs IH]; simpl; [lia|].
  destruct (is_candidate _ _ _ _); simpl; lia.
Qed.

Lemma candidate_step ascending cur tgt q q' :
  candidate ascending cur tgt q ->
  candidate ascending q tgt q' -> candidate ascending cur tgt q'.
Proof. unfold candidate. destruct ascending; intros [? ?] [? ?]; split; lra. Qed.

Lemma candidate_irrefl ascending tgt q : ~ candidate ascending q tgt q.
Proof. unfold candidate. destruct ascending; intros [? ?]; lra. Qed.

Lemma is_candidate_step ascending cur tgt q item :
  candidate ascending cur tgt q ->
  is_candidate ascending q tgt item = true ->
  is_candidate ascending cur tgt item = true.
Proof.
  intros Hc. unfold is_candidate.
  destruct (version_num (fst item)) as [q'| |]; try discriminate.
  rewrite !candidateb_iff. now apply candidate_step.
Qed.

Lemma remaining_mono ascending cur tgt q (configs : dict config) :
  candidate ascending cur tgt q ->
  (remaining ascending q tgt configs <= remaining ascending cur tgt configs)%nat.
Proof.
  intros Hc. unfold remaining.
  induction configs as [|item configs IH]; simpl; [lia|].
  pose proof (is_candidate_step ascending cur tgt q item Hc) as Hstep.
  destruct (is_candidate ascending q tgt item).
  - rewrite Hstep by reflexivity. simpl. lia.
  - destruct (is_candidate ascending cur tgt item); simpl; lia.
Qed.

Lemma remaining_decreases ascending cur tgt v q (configs : dict config) :
  In v (map fst configs) ->
  version_num v = Ok q ->
  candidate ascending cur tgt q ->
  (remaining ascending q tgt configs < remaining ascending cur tgt configs)%nat.
Proof.
  intros Hin Hv Hc.
  induction configs as [|item configs IH]; simpl in *; [contradiction|].
  pose proof (remaining_mono ascending cur tgt q configs Hc) as Hm.
  unfold remaining in *. simpl.
  destruct Hin as [<- | Hin].
  - assert (E1 : is_candidate ascending q tgt item = false).
    { unfold is_candidate. rewrite Hv.
      destruct (candidateb ascending q tgt q) eqn:E; [|reflexivity].
      apply candidateb_iff in E. now apply candidate_irrefl in E. }
    assert (E2 : is_candidate ascending cur tgt item = true).
    { unfold is_candidate. rewrite Hv. now apply candidateb_iff. }
    rewrite E1, E2. simpl. lia.
  - specialize (IH Hin).
    pose proof (is_candidate_step ascending cur tgt q item Hc) as Hstep.
    destruct (is_candidate ascending q tgt item).
    + rewrite Hstep by reflexivity. simpl. lia.
    + destruct (is_candidate ascending cur tgt item); simpl; lia.
Qed.

(** ** The version path *)

Lemma version_loop_resolved fuel : forall ascending tgt (configs : dict config)
    cur path qc,
  all_keys configs ->
  version_num cur = Ok qc ->
  (remaining ascending qc tgt configs < fuel)%nat ->
  exists ext,
    version_loop fuel configs ascending tgt cur path = Ok (path ++ ext) /\
    resolved ascending tgt configs qc ext.
Proof.
  induction fuel as [|fuel IH]; intros ascending tgt configs cur path qc
    Hall Hcur Hfuel; [lia|].
  simpl. rewrite Hcur. simpl.
  destruct (Qeq_bool qc tgt) eqn:Eq.
  { exists []. rewrite app_nil_r. split; [reflexivity|].
    apply resolved_reached. now apply Qeq_bool_iff. }
  apply Qeq_bool_false_neq in Eq.
  destruct (select_all ascending qc tgt configs Hall) as (st & -> & Hsel).
  simpl. inversion Hsel as [Hnone | v q Hin Hv Hc Hmin]; subst; simpl.
  { exists []. rewrite app_nil_r. split; [reflexivity|].
    now apply resolved_stuck. }
  destruct (IH ascending tgt configs v (path ++ [v]) q Hall Hv) as (ext & E & Hch).
  { pose proof (remaining_decreases _ _ _ _ _ _ Hin Hv Hc). lia. }
  exists (v :: ext). split.
  - rewrite E. now rewrite <- app_assoc.
  - eapply resolved_step; eassumption.
Qed.

Lemma resolved_chain ascending tgt (configs : dict config) qc ext :
  resolved ascending tgt configs qc ext -> chain ascending tgt configs qc ext.
Proof. induction 1; econstructor; eassumption. Qed.

Lemma chain_candidates ascending tgt (configs : dict config) qc ext :
  chain ascending tgt configs qc ext ->
  Forall (fun v => In v (map fst configs) /\
                   exists q, version_num v = Ok q /\
                             candidate ascending qc tgt q) ext.
Proof.
  induction 1 as [|qc v q ext Hin Hv Hc Hch IH]; constructor.
  - split; [assumption|]. eauto.
  - eapply Forall_impl; [exact IH|]. simpl.
    intros v' (Hin' & q' & Hv' & Hc'). split; [assumption|].
    exists q'. split; [assumption|]. eapply candidate_step; eassumption.
Qed.

Lemma chain_ordered ascending tgt (configs : dict config) qc ext :
  chain ascending tgt configs qc ext ->
  forall (i j : nat) vi vj qi qj,
    (i < j)%nat -> ext !! i = Some vi -> ext !! j = Some vj ->
    version_num vi = Ok qi -> version_num vj = Ok qj ->
    candidate ascending qi tgt qj.
Proof.
  induction 1 as [|qc v q ext Hin Hv Hc Hch IH];
    intros i j vi vj qi qj Hij Hi Hj Hqi Hqj.
  - discriminate.
  - destruct j as [|j]; [lia|]. simpl in Hj.
    destruct i as [|i]; simpl in Hi.
    + injection Hi as <-. rewrite Hv in Hqi. injection Hqi as <-.
      pose proof (chain_candidates _ _ _ _ _ Hch) as Hall.
      rewrite Forall_forall in Hall.
      destruct (Hall vj) as (_ & q' & Hq' & Hc').
      { eapply list_elem_of_lookup_2. eassumption. }
      rewrite Hqj in Hq'. now injection Hq' as <-.
    + eapply (IH i j); eauto. lia.
Qed.

Lemma dict_get_In {V} (d : dict V) (k : string) :
  In k (map fst d) -> exists v, dict_get k d = Some v.
Proof.
  induction d as [|[k' v'] d IH]; simpl; [contradiction|].
  intros [-> | Hin].
  - rewrite String.eqb_refl. eauto.
  - destruct (String.eqb k' k); eauto.
Qed.

Lemma collect_operations (configs : dict config) (path : list string) :
  forall acc,
  Forall (fun v => In v (map fst configs)) path ->
  exists ops,
    for_each
      (fun operations version =>
         try! c := dict_lookup version configs in
         Ok (operations ++ [{| op_version := version; op_config := c |}]))
      path acc = Ok (acc ++ ops) /\
    map op_version ops = path /\
    Forall (fun op => dict_get (op_version op) configs = Some (op_config op)) ops.
Proof.
  induction path as [|v path IH]; intros acc Hall.
  - exists []. rewrite app_nil_r. repeat split; constructor.
  - inversion Hall as [|? ? Hv Hrest]; subst.
    destruct (dict_get_In _ _ Hv) as [c Hc].
    destruct (IH (acc ++ [{| op_version := v; op_config := c |}]) Hrest)
      as (ops & E & Hmap & Hget).
    exists ({| op_version := v; op_config := c |} :: ops). simpl.
    unfold dict_lookup at 1. rewrite Hc. simpl. rewrite E.
    rewrite <- app_assoc. simpl. repeat split.
    + now rewrite Hmap.
    + constructor; assumption.
Qed.

(** [get_version_operations] returns, and the versions of its plan are the
    path the loop computes. *)
Lemma get_version_operations_resolved (config_dir : config_store)
    (configs : dict config) (source target : string) (qs qt : Q) (fuel : nat) :
  load_version_configs config_dir = Ok configs ->
  all_keys configs ->
  version_num source = Ok qs ->
  version_num target = Ok qt ->
  (length configs < fuel)%nat ->
  exists plan,
    get_version_operations fuel config_dir source target = Ok plan /\
    resolved (Qlt_bool qs qt) qt configs qs (map op_version plan) /\
    Forall (fun op => dict_get (op_version op) configs = Some (op_config op))
      plan.
Proof.
  intros Hload Hall Hs Ht Hfuel.
  unfold get_version_operations, resolve. rewrite Hload. simpl.
  rewrite Hs, Ht. simpl.
  destruct (version_loop_resolved fuel (Qlt_bool qs qt) qt configs source [] qs
              Hall Hs) as (path & E & Hres).
  { pose proof (remaining_le (Qlt_bool qs qt) qs qt configs). lia. }
  rewrite E. simpl.
  destruct (collect_operations configs path []) as (ops & Eops & Hmap & Hget).
  { pose proof (chain_candidates _ _ _ _ _ (resolved_chain _ _ _ _ _ Hres)) as H.
    eapply Forall_impl; [exact H|]. simpl. tauto. }
  exists ops. rewrite Eops. simpl. rewrite Hmap. auto.
Qed.

(** ** Ascending plans *)

(** C1.  For versions [a] and [b] with the key of [a] below the key of [b]
    (in particular for two registered versions), [get_version_operations]
    returns a plan; every config of the plan is the registered config of
    its version, with a key above the key of [a] and at most the key of
    [b]; and along the plan the keys never decrease. *)
Theorem plan_ascending_within_range (config_dir : config_store)
    (configs : dict config) (a b : string) (qa qb : Q) (fuel : nat) :
  load_version_configs config_dir = Ok configs ->
  all_keys configs ->
  version_num a = Ok qa ->
  version_num b = Ok qb ->
  (qa < qb)%Q ->
  (length configs < fuel)%nat ->
  exists plan,
    get_version_operations fuel config_dir a b = Ok plan /\
    (forall op, In op plan ->
       dict_get (op_version op) configs = Some (op_config op) /\
       exists q, version_num (op_version op) = Ok q /\
                 (qa < q)%Q /\ (q <= qb)%Q) /\
    (forall (i j : nat) opi opj qi qj,
       (i < j)%nat ->
       plan !! i = Some opi -> plan !! j = Some opj ->
       version_num (op_version opi) = Ok qi ->
       version_num (op_version opj) = Ok qj ->
       (qi <= qj)%Q).
Proof.
  intros Hload Hall Ha Hb Hlt Hfuel.
  destruct (get_version_operations_resolved config_dir configs a b qa qb fuel
              Hload Hall Ha Hb Hfuel) as (plan & E & Hres & Hget).
  assert (Hasc : Qlt_bool qa qb = true) by now apply Qlt_bool_iff.
  rewrite Hasc in Hres. apply resolved_chain in Hres.
  exists plan. split; [exact E|]. split.
  - intros op Hop. split.
    + rewrite Forall_forall in Hget. apply Hget. now apply list_elem_of_In.
    + pose proof (chain_candidates _ _ _ _ _ Hres) as Hc.
      rewrite Forall_forall in Hc.
      destruct (Hc (op_version op)) as (_ & q & Hq & Hlo & Hhi).
      { apply list_elem_of_In. now apply in_map. }
      eauto.
  - intros i j opi opj qi qj Hij Hi Hj Hqi Hqj.
    assert (Hc : candidate true qi qb qj).
    { eapply (chain_ordered _ _ _ _ _ Hres i j); eauto;
        rewrite list_lookup_fmap; [rewrite Hi|rewrite Hj]; reflexivity. }
    destruct Hc as [Hc _]. now apply Qlt_le_weak.
Qed.

(** ** Plans that cannot reach the target *)

Lemma version_loop_no_candidate (fuel : nat) (configs : dict config)
    (ascending : bool) (tgt : Q) (cur : string) (qc : Q) (path : list string) :
  all_keys configs ->
  version_num cur = Ok qc ->
  Forall (fun item => is_candidate ascending qc tgt item = false) configs ->
  version_loop (S fuel) configs ascending tgt cur path = Ok path.
Proof.
  intros Hall Hcur Hnone. simpl. rewrite Hcur. simpl.
  destruct (Qeq_bool qc tgt); [reflexivity|].
  destruct (select_all ascending qc tgt configs Hall) as (st & -> & Hsel).
  simpl. inversion Hsel as [Hn | v q Hin Hv Hc Hmin]; subst; [reflexivity|].
  exfalso. apply in_map_iff in Hin. destruct Hin as (item & <- & Hitem).
  rewrite Forall_forall in Hnone.
  specialize (Hnone item ltac:(now apply list_elem_of_In)).
  unfold is_candidate in Hnone. rewrite Hv in Hnone.
  apply candidateb_iff in Hc. congruence.
Qed.

(** C8.  Resolution always returns: with enough fuel
    [get_version_operations] yields a plan and raises nothing, whether or
    not the target can be reached.  The plan follows the loop: it ends
    where the target key is reached or where no registered version
    qualifies.  Whenever no version qualifies from the current one, the
    loop returns the path built so far, unchanged; so the plan is empty
    when nothing qualifies from the source. *)
Theorem resolution_stops_with_partial_plan (config_dir : config_store)
    (configs : dict config) (source target : string) (qs qt : Q) (fuel : nat) :
  load_version_configs config_dir = Ok configs ->
  all_keys configs ->
  version_num source = Ok qs ->
  version_num target = Ok qt ->
  (length configs < fuel)%nat ->
  (exists plan,
     get_version_operations fuel config_dir source target = Ok plan /\
     resolved (Qlt_bool qs qt) qt configs qs (map op_version plan) /\
     (Forall (fun item => is_candidate (Qlt_bool qs qt) qs qt item = false)
        configs -> plan = [])) /\
  (forall ascending current qc version_path n,
     version_num current = Ok qc ->
     Forall (fun item => is_candidate ascending qc qt item = false) configs ->
     version_loop (S n) configs ascending qt current version_path
     = Ok version_path).
Proof.
  intros Hload Hall Hs Ht Hfuel. split.
  - destruct (get_version_operations_resolved config_dir configs source target
                qs qt fuel Hload Hall Hs Ht Hfuel) as (plan & E & Hres & Hget).
    exists plan. split; [exact E|]. split; [exact Hres|].
    intros Hnone. destruct plan as [|op plan]; [reflexivity|]. exfalso.
    simpl in Hres.
    inversion Hres as [| |qc v q ext Hne Hin Hv Hc Hmin Hrest]; subst.
    apply in_map_iff in Hin. destruct Hin as (item & Hfst & Hitem).
    rewrite Forall_forall in Hnone.
    specialize (Hnone item ltac:(now apply list_elem_of_In)).
    unfold is_candidate in Hnone. rewrite Hfst, Hv in Hnone.
    apply candidateb_iff in Hc. congruence.
  - intros ascending current qc version_path n Hcur Hnone.
    now apply (version_loop_no_candidate n configs ascending qt current qc).
Qed.

Lemma sample_all_keys : all_keys sample_configs.
Proof.
  unfold all_keys, sample_configs.
  repeat (apply Forall_cons; split; [eexists; reflexivity|]).
  apply Forall_nil. exact I.
Qed.

Lemma plan_ascending_within_range_witness :
  exists plan,
    get_version_operations 4 sample_store "1.19.4" "1.21" = Ok plan /\
    (forall op, In op plan ->
       dict_get (op_version op) sample_configs = Some (op_config op) /\
       exists q, version_num (op_version op) = Ok q /\
                 (194 # 10 < q)%Q /\ (q <= 21 # 1)%Q) /\
    (forall (i j : nat) opi opj qi qj,
       (i < j)%nat ->
       plan !! i = Some opi -> plan !! j = Some opj ->
       version_num (op_version opi) = Ok qi ->
       version_num (op_version opj) = Ok qj ->
       (qi <= qj)%Q).
Proof.
  apply (plan_ascending_within_range sample_store sample_configs
           "1.19.4" "1.21" (194 # 10) (21 # 1) 4).
  - reflexivity.
  - exact sample_all_keys.
  - reflexivity.
  - reflexivity.
  - reflexivity.
  - simpl. lia.
Defined.

Lemma resolution_stops_with_partial_plan_witness :
  (exists plan,
     get_version_operations 4 sample_store "1.21" "1.25" = Ok plan /\
     resolved (Qlt_bool (21 # 1) (25 # 1)) (25 # 1) sample_configs (21 # 1)
       (map op_version plan) /\
     (Forall (fun item =>
                is_candidate (Qlt_bool (21 # 1) (25 # 1)) (21 # 1) (25 # 1) item
                = false) sample_configs -> plan = [])) /\
  (forall ascending current qc version_path n,
     version_num current = Ok qc ->
     Forall (fun item => is_candidate ascending qc (25 # 1) item = false)
       sample_configs ->
     version_loop (S n) sample_configs ascending (25 # 1) current version_path
     = Ok version_path).
Proof.
  apply (resolution_stops_with_partial_plan sample_store sample_configs
           "1.21" "1.25" (21 # 1) (25 # 1) 4).
  - reflexivity.
  - exact sample_all_keys.
  - reflexivity.
  - reflexivity.
  - simpl. lia.
Defined.

(** The gap of the witness above: nothing is registered between 1.21 and
    1.25, and the plan is empty. *)
Example resolve_gap_empty :
  get_version_operations 4 sample_store "1.21" "1.25" = Ok [].
Proof. reflexivity. Qed.

(** A target that is not registered truncates the plan after the last
    version below it. *)
Example resolve_gap_partial :
  get_version_operations 4 sample_store "1.19.4" "1.25"
  = Ok [ {| op_version := "1.20"; op_config := empty_config |};
         {| op_version := "1.21"; op_config := empty_config |} ].
Proof. reflexivity. Qed.

(** ** The version key *)

(** C6.  On ["1.21.1"] the resolver's key is 21: [replace] removes the
    second ["1."] as well, while removing the leading prefix alone gives
    21.1.  The two keys differ, and the resolver takes 1.21 and 1.21.1 for
    the same version. *)
Theorem version_num_drops_inner_prefix :
  version_num "1.21.1" = Ok (21 # 1) /\
  prefix_stripped_key "1.21.1" = Ok (211 # 10) /\
  ~ (21 # 1 == 211 # 10)%Q /\
  version_num "1.21.1" = version_num "1.21".
Proof.
  repeat split; try reflexivity. intros H. discriminate H.
Qed.

(** Where the rest of the string holds no further ["1."], both readings
    agree, as on the example of the specification. *)
Example version_num_1_19_4 :
  version_num "1.19.4" = Ok (194 # 10) /\
  prefix_stripped_key "1.19.4" = Ok (194 # 10).
Proof. split; reflexivity. Qed.

Lemma replace_without_occurrence (s : string) :
  occurs_1dot s = false -> replace "1." "" s = s.
Proof.
  unfold replace. induction s as [|c s IH]; intros Hocc; [reflexivity|].
  change (occurs_1dot (String c s))
    with (String.prefix "1." (String c s) || occurs_1dot s) in Hocc.
  apply orb_false_iff in Hocc. destruct Hocc as [Hprefix Hrest].
  change (replace_from "1." "" 0 (String c s))
    with (if String.prefix "1." (String c s)
          then ("" ++ replace_from "1." "" (String.length "1." - 1) s)%string
          else String c (replace_from "1." "" 0 s)).
  rewrite Hprefix. f_equal. now apply IH.
Qed.

(** The two readings of the key agree on every version whose remainder
    after the leading ["1."] holds no further ["1."]. *)
Lemma version_num_without_inner_prefix (rest : string) :
  occurs_1dot rest = false ->
  version_num (String "1" (String "." rest))
  = prefix_stripped_key (String "1" (String "." rest)).
Proof.
  intros Hocc. unfold version_num, prefix_stripped_key.
  f_equal. rewrite <- (replace_without_occurrence rest Hocc) at 2.
  unfold replace.
  change (replace_from "1." "" 0 (String "1" (String "." rest)))
    with (if String.prefix "1." (String "1" (String "." rest))
          then ("" ++ replace_from "1." "" (String.length "1." - 1)
                        (String "." rest))%string
          else String "1" (replace_from "1." "" 0 (String "." rest))).
  assert (Hp : String.prefix "1." (String "1" (String "." rest)) = true).
  { cbn [String.prefix].
    destruct (ascii_dec "1" "1") as [_|H]; [|congruence].
    destruct (ascii_dec "." ".") as [_|H]; [|congruence].
    now destruct rest. }
  rewrite Hp. reflexivity.
Qed.

(** With the collapsed key the resolver finds nothing to do between 1.21
    and 1.21.1, although a config for 1.21.1 is registered. *)
Example resolve_1_21_to_1_21_1 :
  get_version_operations 3
    [ {| file_name := "1.21.json"; file_content := Document empty_config |};
      {| file_name := "1.21.1.json"; file_content := Document empty_config |} ]
    "1.21" "1.21.1" = Ok [].
Proof. reflexivity. Qed.

(** ** Loading the registry *)

Lemma load_step_raises (bad : config_file) (configs : dict config) :
  endswith (file_name bad) ".json" = true ->
  (forall c, file_content bad <> Document c) ->
  exists e,
    (if endswith (file_name bad) ".json" then
       let version := replace ".json" "" (file_name bad) in
       try! c := json_load bad in
       Ok (dict_set version c configs)
     else Ok configs) = Raise e.
Proof.
  intros -> Hbad. unfold json_load.
  destruct (file_content bad) as [| |c]; simpl; eauto.
  now destruct (Hbad c).
Qed.

Lemma for_each_raises {A S} (body : S -> A -> result S) (xs : list A) (x : A) :
  In x xs ->
  (forall st, exists e, body st x = Raise e) ->
  (forall st y, body st y <> OutOfFuel) ->
  forall st, exists e, for_each body xs st = Raise e.
Proof.
  intros Hin Hx Hfuel. induction xs as [|y xs IH]; [contradiction|].
  intros st. simpl.
  destruct (body st y) as [st'|e|] eqn:E; simpl.
  - destruct Hin as [-> | Hin].
    + destruct (Hx st) as [e He]. congruence.
    + now apply IH.
  - eauto.
  - now destruct (Hfuel st y).
Qed.

(** One record that cannot be read or parsed makes [load_version_configs]
    raise, whatever the other records are. *)
Lemma load_version_configs_aborts (config_dir : config_store)
    (bad : config_file) :
  In bad config_dir ->
  endswith (file_name bad) ".json" = true ->
  (forall c, file_content bad <> Document c) ->
  exists e, load_version_configs config_dir = Raise e.
Proof.
  intros Hin Hjson Hbad. unfold load_version_configs.
  apply for_each_raises with (x := bad); [assumption| |].
  - intros st. now apply load_step_raises.
  - intros st y. destruct (endswith (file_name y) ".json"); [|discriminate].
    unfold json_load. destruct (file_content y); discriminate.
Qed.

(** C4.  On a directory holding one well-formed and one malformed record,
    [load_version_configs] raises: nothing is skipped and the well-formed
    record is not returned, so [get_version_operations] raises too.  On the
    same directory [get_available_versions] skips the malformed record,
    prints a diagnostic for it and returns the versions of the other. *)
Theorem load_version_configs_aborts_on_malformed :
  load_version_configs broken_store = Raise JSONDecodeError /\
  (forall fuel source target,
     get_version_operations fuel broken_store source target
     = Raise JSONDecodeError) /\
  get_available_versions broken_store
  = (Ok ["1.20.2"; "1.20.1"],
     [{| diag_file := "1.21.json"; diag_error := JSONDecodeError |}]).
Proof.
  split; [reflexivity|]. split; [reflexivity|]. vm_compute. reflexivity.
Qed.

(** ** Transparency masking *)

Lemma clear_alpha_idem (p : pixel) : clear_alpha (clear_alpha p) = clear_alpha p.
Proof. reflexivity. Qed.

Section Clearing.

(** A pass over the raster that clears the alpha of the pixels it hits
    and leaves every other pixel alone. *)
Context {A : Type}.
Variable step : A -> list pixel -> list pixel.
Variable hits : A -> nat -> bool.
Hypothesis step_lookup : forall a (pixels : list pixel) (i : nat),
  step a pixels !! i
  = if hits a i then clear_alpha <$> pixels !! i else pixels !! i.

Lemma fold_clear_lookup (l : list A) : forall (pixels : list pixel) (i : nat),
  fold_left (fun pixels a => step a pixels) l pixels !! i
  = if existsb (fun a => hits a i) l
    then clear_alpha <$> pixels !! i else pixels !! i.
Proof.
  induction l as [|a l IH]; intros pixels i; simpl; [reflexivity|].
  rewrite IH, step_lookup.
  destruct (hits a i), (existsb (fun a => hits a i) l); simpl;
    try reflexivity.
  destruct (pixels !! i); reflexivity.
Qed.

End Clearing.

Lemma mask_at_lookup (keep_area : box) (width y x : nat) (pixels : list pixel)
    (i : nat) :
  mask_at keep_area width y x pixels !! i
  = if ((y * width + x =? i)%nat && negb (in_keep_area keep_area x y))
    then clear_alpha <$> pixels !! i else pixels !! i.
Proof.
  unfold mask_at. destruct (in_keep_area keep_area x y); simpl.
  { now rewrite andb_false_r. }
  rewrite andb_true_r.
  destruct (Nat.eqb_spec (y * width + x) i) as [<- | Hne].
  - destruct (pixels !! (y * width + x)%nat) as [p|] eqn:E; simpl.
    + rewrite list_lookup_insert_eq; [reflexivity|].
      eapply lookup_lt_Some; eassumption.
    + assumption.
  - destruct (pixels !! (y * width + x)%nat) as [p|] eqn:E; [|reflexivity].
    now rewrite list_lookup_insert_ne.
Qed.

(** Whether the loops of [apply_transparency] clear the pixel stored at
    index [i]. *)
Lemma mask_image_lookup (img : image) (keep_area : box) (i : nat) :
  img_data (mask_image img keep_area) !! i
  = if existsb
         (fun y =>
            existsb
              (fun x => (y * img_width img + x =? i)%nat
                        && negb (in_keep_area keep_area x y))
              (seq 0 (img_width img)))
         (seq 0 (img_height img))
    then clear_alpha <$> img_data img !! i else img_data img !! i.
Proof.
  unfold mask_image. simpl.
  apply (fold_clear_lookup
           (fun y pixels =>
              fold_left
                (fun pixels x => mask_at keep_area (img_width img) y x pixels)
                (seq 0 (img_width img)) pixels)
           (fun y i =>
              existsb
                (fun x => (y * img_width img + x =? i)%nat
                          && negb (in_keep_area keep_area x y))
                (seq 0 (img_width img)))).
  intros y pixels j.
  apply (fold_clear_lookup
           (fun x pixels => mask_at keep_area (img_width img) y x pixels)
           (fun x i => (y * img_width img + x =? i)%nat
                       && negb (in_keep_area keep_area x y))).
  intros x pixels' k. apply mask_at_lookup.
Qed.

Lemma mask_image_idempotent (img : image) (keep_area : box) :
  mask_image (mask_image img keep_area) keep_area = mask_image img keep_area.
Proof.
  assert (Hdata : img_data (mask_image (mask_image img keep_area) keep_area)
                  = img_data (mask_image img keep_area)).
  { apply list_eq. intros i.
    rewrite (mask_image_lookup (mask_image img keep_area)).
    change (img_width (mask_image img keep_area)) with (img_width img).
    change (img_height (mask_image img keep_area)) with (img_height img).
    rewrite mask_image_lookup.
    destruct (existsb _ _); [|reflexivity].
    destruct (img_data img !! i); reflexivity. }
  unfold mask_image in *. simpl in *. now rewrite Hdata.
Qed.

Lemma cell_index_inj (w y x y' x' : nat) :
  (x < w)%nat -> (x' < w)%nat ->
  (y * w + x = y' * w + x')%nat -> y = y' /\ x = x'.
Proof.
  intros Hx Hx' E.
  destruct (lt_eq_lt_dec y y') as [[Hlt | ->] | Hgt].
  - assert ((y + 1) * w <= y' * w)%nat by (apply Nat.mul_le_mono_r; lia). lia.
  - split; [reflexivity|lia].
  - assert ((y' + 1) * w <= y * w)%nat by (apply Nat.mul_le_mono_r; lia). lia.
Qed.

(** Inside the keep rectangle the pixel is left as it was, alpha
    included; outside, only the alpha changes, to zero. *)
Lemma mask_image_pixel (img : image) (keep_area : box) (x y : nat) (p : pixel) :
  (x < img_width img)%nat ->
  (y < img_height img)%nat ->
  img_data img !! (y * img_width img + x)%nat = Some p ->
  img_data (mask_image img keep_area) !! (y * img_width img + x)%nat
  = Some (if in_keep_area keep_area x y then p else clear_alpha p).
Proof.
  intros Hx Hy Hp. rewrite mask_image_lookup, Hp.
  destruct (in_keep_area keep_area x y) eqn:Ein.
  - destruct (existsb _ _) eqn:E; [|reflexivity]. exfalso.
    apply existsb_exists in E. destruct E as (y' & Hy' & E).
    apply existsb_exists in E. destruct E as (x' & Hx' & E).
    apply andb_true_iff in E. destruct E as [E1 E2].
    apply Nat.eqb_eq in E1. apply in_seq in Hx'.
    destruct (cell_index_inj (img_width img) y' x' y x) as [-> ->];
      [lia|lia|assumption|].
    rewrite Ein in E2. discriminate.
  - assert (E : existsb
                  (fun y0 =>
                     existsb
                       (fun x0 => (y0 * img_width img + x0
                                   =? y * img_width img + x)%nat
                                  && negb (in_keep_area keep_area x0 y0))
                       (seq 0 (img_width img)))
                  (seq 0 (img_height img)) = true).
    { apply existsb_exists. exists y. split; [apply in_seq; lia|].
      apply existsb_exists. exists x. split; [apply in_seq; lia|].
      rewrite Nat.eqb_refl, Ein. reflexivity. }
    rewrite E. reflexivity.
Qed.

(** ** Reading and writing files *)

Lemma write_file_ok (p : path) (f : file) (w : world) :
  p ∉ locked w ->
  write_file p f w
  = (Ok tt,
     set_disk (<[fst p := <[snd p := f]> (default ∅ (disk w !! fst p))]> (disk w))
       w).
Proof. intros H. unfold write_file. now rewrite decide_False. Qed.

Lemma write_file_locked (p : path) (f : file) (w : world) :
  p ∈ locked w -> write_file p f w = (Raise OSError, w).
Proof. intros H. unfold write_file. now rewrite decide_True. Qed.

Lemma read_after_write (p : path) (f : file) (w : world) :
  p ∉ locked w ->
  read_file p (snd (write_file p f w)) = Some f.
Proof.
  intros H. rewrite write_file_ok by assumption. unfold read_file. simpl.
  rewrite lookup_insert_eq. simpl. apply lookup_insert_eq.
Qed.

Lemma write_same_again (p : path) (f : file) (w : world) :
  p ∉ locked w ->
  write_file p f (snd (write_file p f w)) = write_file p f w.
Proof.
  intros H. rewrite (write_file_ok p f w) by assumption. simpl.
  rewrite write_file_ok by assumption. simpl. f_equal.
  unfold set_disk. simpl. f_equal.
  rewrite lookup_insert_eq. simpl.
  now rewrite !insert_insert_eq.
Qed.

Lemma apply_transparency_unfold (image_path : path) (keep_area : box)
    (w : world) :
  apply_transparency image_path keep_area None w
  = match read_file image_path w with
    | Some (ImageFile img) =>
        if is_empty_image (mask_image img keep_area) then (Ok false, w)
        else if decide (image_path ∈ locked w) then (Ok false, w)
        else (Ok true,
              snd (write_file image_path
                     (ImageFile (mask_image img keep_area)) w))
    | _ => (Ok false, w)
    end.
Proof.
  unfold apply_transparency, io_catch, io_bind, image_open, image_save.
  destruct (read_file image_path w) as [[img| |]|]; try reflexivity.
  cbn [default].
  destruct (is_empty_image (mask_image img keep_area)); [reflexivity|].
  unfold write_file. destruct (decide (image_path ∈ locked w)); reflexivity.
Qed.

(** C7.  Masking is idempotent.  On pixels: masking a masked image with
    the same keep rectangle gives the masked image, where masking leaves a
    pixel inside the rectangle (bounds included) as it is and sets the
    alpha of a pixel outside to zero.  On files: a second
    [apply_transparency] with the same rectangle on the file the first one
    left returns what the first returned and changes nothing. *)
Theorem transparency_mask_idempotent (img : image) (keep_area : box)
    (image_path : path) (w : world) :
  mask_image (mask_image img keep_area) keep_area = mask_image img keep_area /\
  (forall (x y : nat) (p : pixel),
     (x < img_width img)%nat ->
     (y < img_height img)%nat ->
     img_data img !! (y * img_width img + x)%nat = Some p ->
     img_data (mask_image img keep_area) !! (y * img_width img + x)%nat
     = Some (if in_keep_area keep_area x y then p else clear_alpha p)) /\
  apply_transparency image_path keep_area None
    (snd (apply_transparency image_path keep_area None w))
  = apply_transparency image_path keep_area None w.
Proof.
  split; [apply mask_image_idempotent|].
  split; [intros x y p; apply mask_image_pixel|].
  rewrite (apply_transparency_unfold image_path keep_area w).
  destruct (read_file image_path w) as [[src| |]|] eqn:Eread;
    try (cbn [snd]; rewrite apply_transparency_unfold, Eread; reflexivity).
  destruct (is_empty_image (mask_image src keep_area)) eqn:Eempty.
  { cbn [snd]. rewrite apply_transparency_unfold, Eread, Eempty. reflexivity. }
  destruct (decide (image_path ∈ locked w)) as [Hlock | Hfree].
  { cbn [snd]. rewrite apply_transparency_unfold, Eread, Eempty.
    now rewrite decide_True. }
  cbn [snd]. rewrite apply_transparency_unfold.
  rewrite read_after_write by assumption.
  rewrite mask_image_idempotent, Eempty.
  rewrite write_same_again by assumption.
  rewrite (write_file_ok image_path _ w) by assumption. cbn [snd].
  destruct (decide (image_path ∈ locked (set_disk _ w))) as [Hl|_];
    [contradiction|reflexivity].
Qed.

(** ** Packaging *)

Lemma pack_archive_fold (exclude_files : gset string)
    (items : list (string * file)) :
  forall (zipf : list (string * file)) (name : string) (f : file),
  In (name, f)
     (fold_left
        (fun zipf item =>
           let rel_path := replace "\" "/" (fst item) in
           if decide (rel_path ∈ exclude_files) then zipf
           else zipf ++ [(rel_path, snd item)])
        items zipf)
  <-> In (name, f) zipf \/
      exists p, In (p, f) items /\ name = replace "\" "/" p /\
                name ∉ exclude_files.
Proof.
  induction items as [|[p0 f0] items IH]; intros zipf name f; simpl.
  - split; [tauto|]. intros [H | (p & [] & _)]. exact H.
  - rewrite IH. clear IH. simpl.
    destruct (decide (replace "\" "/" p0 ∈ exclude_files)) as [Hex | Hin].
    + split.
      * intros [H | (p & Hp & Hn & Hx)]; [tauto|]. right. eauto.
      * intros [H | (p & [Heq | Hp] & Hn & Hx)]; [tauto| |right; eauto].
        injection Heq as <- <-. subst name. contradiction.
    + rewrite in_app_iff. simpl. split.
      * intros [[H | [Heq | []]] | (p & Hp & Hn & Hx)]; [tauto| |right; eauto].
        injection Heq as <- <-. right. exists p0. eauto.
      * intros [H | (p & [Heq | Hp] & Hn & Hx)]; [tauto| |right; eauto].
        injection Heq as <- <-. subst name. left. right. now left.
Qed.

Lemma pack_archive_In (tree : gmap string file) (exclude_files : gset string)
    (name : string) (f : file) :
  In (name, f) (pack_archive tree exclude_files)
  <-> exists p, tree !! p = Some f /\ name = replace "\" "/" p /\
                name ∉ exclude_files.
Proof.
  unfold pack_archive. rewrite pack_archive_fold. simpl. split.
  - intros [[] | (p & Hp & Hn & Hx)]. exists p. split; [|auto].
    apply elem_of_map_to_list. now apply list_elem_of_In.
  - intros (p & Hp & Hn & Hx). right. exists p. split; [|auto].
    apply list_elem_of_In. now apply elem_of_map_to_list.
Qed.

(** C2.  The archive written at packaging time holds exactly the files of
    the working tree whose normalised path is not excluded: no entry has an
    excluded name, a file whose normalised path is excluded has no entry,
    every other file of the tree has its entry, and so has every split
    target present in the tree and not excluded. *)
Theorem archive_honours_exclusions (tree : gmap string file)
    (exclude_files : gset string) :
  (forall save_path (w : world),
     disk w !! temp_dir = Some tree ->
     save_path ∉ unwritable w ->
     archives (snd (write_zip save_path exclude_files w)) !! save_path
     = Some (pack_archive tree exclude_files)) /\
  (forall name f,
     In (name, f) (pack_archive tree exclude_files) ->
     (name ∉ exclude_files) /\
     exists p, tree !! p = Some f /\ name = replace "\" "/" p) /\
  (forall p f,
     tree !! p = Some f ->
     replace "\" "/" p ∈ exclude_files ->
     forall f', ~ In (replace "\" "/" p, f') (pack_archive tree exclude_files)) /\
  (forall p f,
     tree !! p = Some f ->
     replace "\" "/" p ∉ exclude_files ->
     In (replace "\" "/" p, f) (pack_archive tree exclude_files)) /\
  (forall (c : config) source splits split f,
     In (source, splits) (cfg_split_operations c) ->
     In split splits ->
     tree !! split_target split = Some f ->
     replace "\" "/" (split_target split) ∉ exclude_files ->
     In (replace "\" "/" (split_target split), f)
        (pack_archive tree exclude_files)).
Proof.
  split; [|split; [|split; [|split]]].
  - intros save_path w Htree Hfree. unfold write_zip.
    rewrite decide_False by assumption. simpl.
    rewrite lookup_insert_eq, Htree. reflexivity.
  - intros name f H. apply pack_archive_In in H.
    destruct H as (p & Hp & Hn & Hx). eauto.
  - intros p f Hp Hex f' H. apply pack_archive_In in H.
    destruct H as (_ & _ & _ & Hx). contradiction.
  - intros p f Hp Hx. apply pack_archive_In. eauto.
  - intros c source splits split f _ _ Hp Hx. apply pack_archive_In. eauto.
Qed.

(** ** The metadata file *)

Lemma dict_get_set_eq {V} (k : string) (v : V) (d : dict V) :
  dict_get k (dict_set k v d) = Some v.
Proof.
  induction d as [|[k' v'] d IH]; simpl.
  - now rewrite String.eqb_refl.
  - destruct (String.eqb k' k) eqn:E; simpl.
    + now rewrite String.eqb_refl.
    + now rewrite E.
Qed.

Lemma set_pack_format_ok (target : string) (d : dict json) (pack : dict json) :
  dict_get "pack" d = Some (JDict pack) ->
  exists mcmeta,
    set_pack_format target (JDict d) = Ok mcmeta /\
    pack_format_of mcmeta
    = Some (JInt (default 15 (dict_get target version_format))).
Proof.
  intros Hpack. unfold set_pack_format. rewrite Hpack.
  eexists. split; [reflexivity|].
  unfold pack_format_of. rewrite dict_get_set_eq. apply dict_get_set_eq.
Qed.

(** ** The temporary directory *)

Lemma remove_temp_dir_spec (w : world) :
  exists w',
    remove_temp_dir w = (Ok tt, w') /\
    disk w' !! temp_dir = None /\
    (forall dir, dir <> temp_dir -> disk w' !! dir = disk w !! dir) /\
    archives w' = archives w /\ ui w' = ui w.
Proof.
  unfold remove_temp_dir, io_bind, exists_dir, rmtree, io_ret.
  destruct (bool_decide (is_Some (disk w !! temp_dir))) eqn:E.
  - eexists. split; [reflexivity|]. simpl. split; [apply lookup_delete_eq|].
    split; [|auto]. intros dir Hne. now apply lookup_delete_ne.
  - exists w. split; [reflexivity|]. split; [|auto].
    apply bool_decide_eq_false in E.
    destruct (disk w !! temp_dir) eqn:Ed; [|reflexivity].
    exfalso. apply E. eauto.
Qed.

(** C9.  Whatever the inputs and whatever happens in between (packaging
    done, an exception caught by the handler, a failed conversion, a
    cancelled save dialog), the temporary directory does not exist when
    [on_confirm] returns, and no exception leaves [on_confirm]. *)
Theorem temp_dir_removed_on_every_exit (fuel : nat) (config_dir : config_store)
    (mcmeta_dir : mcmeta_store) (pack_name source target save_path : string)
    (w : world) :
  disk (snd (on_confirm fuel config_dir mcmeta_dir pack_name source target
               save_path w)) !! temp_dir = None /\
  forall e,
    fst (on_confirm fuel config_dir mcmeta_dir pack_name source target
           save_path w) <> Raise e.
Proof.
  destruct (remove_temp_dir_spec w) as (w1 & E1 & _).
  unfold on_confirm, io_bind, io_finally. rewrite E1.
  destruct (io_catch _ _ w1) as [r w2] eqn:Ebody.
  destruct (remove_temp_dir_spec w2) as (w3 & E3 & Hgone & _).
  rewrite E3. simpl. split; [exact Hgone|].
  intros e ->. revert Ebody.
  unfold io_catch.
  destruct (on_confirm_try _ _ _ _ _ _ _ w1) as [[u|e'|] w'];
    try discriminate.
Qed.

(** ** Where the operations write *)

Lemma writes_within_refl (dir : string) (K : string -> Prop) (w : world) :
  writes_within dir K w w.
Proof. repeat split; auto. Qed.

Lemma writes_within_trans (dir : string) (K : string -> Prop) (w1 w2 w3 : world) :
  writes_within dir K w1 w2 -> writes_within dir K w2 w3 ->
  writes_within dir K w1 w3.
Proof.
  intros (A1 & B1 & C1 & D1 & E1 & F1) (A2 & B2 & C2 & D2 & E2 & F2).
  repeat split.
  - intros d Hd. rewrite A2, A1; auto.
  - intros p Hp. rewrite B2, B1; auto.
  - auto.
  - congruence.
  - congruence.
  - congruence.
Qed.

Lemma writes_within_weaken (dir : string) (K K' : string -> Prop) (w w' : world) :
  (forall p, K p -> K' p) ->
  writes_within dir K w w' -> writes_within dir K' w w'.
Proof.
  intros HK (A1 & B1 & C1 & D1 & E1 & F1). repeat split; auto.
Qed.

Section Confined.

Variable dir : string.
Variable K : string -> Prop.

Lemma confined_ret {A} (a : A) : confined dir K (io_ret a).
Proof. intros w. apply writes_within_refl. Qed.

Lemma confined_raise {A} (e : exn) : confined dir K (@io_raise A e).
Proof. intros w. apply writes_within_refl. Qed.

Lemma confined_lift {A} (r : result A) : confined dir K (io_lift r).
Proof. intros w. apply writes_within_refl. Qed.

Lemma confined_bind {A B} (c : io A) (k : A -> io B) :
  confined dir K c -> (forall a, confined dir K (k a)) ->
  confined dir K (io_bind c k).
Proof.
  intros Hc Hk w. unfold io_bind. specialize (Hc w).
  destruct (c w) as [[a|e|] w1]; simpl in *; try assumption.
  eapply writes_within_trans; [exact Hc|apply Hk].
Qed.

Lemma confined_catch {A} (c : io A) (handler : exn -> io A) :
  confined dir K c -> (forall e, confined dir K (handler e)) ->
  confined dir K (io_catch c handler).
Proof.
  intros Hc Hh w. unfold io_catch. specialize (Hc w).
  destruct (c w) as [[a|e|] w1]; simpl in *; try assumption.
  eapply writes_within_trans; [exact Hc|apply Hh].
Qed.

Lemma confined_for {A} (xs : list A) (body : A -> io unit) :
  (forall x, In x xs -> confined dir K (body x)) ->
  confined dir K (io_for xs body).
Proof.
  induction xs as [|x xs IH]; intros Hbody; simpl.
  - apply confined_ret.
  - apply confined_bind; [apply Hbody; now left|].
    intros _. apply IH. intros y Hy. apply Hbody. now right.
Qed.

Lemma confined_exists_file (p : path) : confined dir K (exists_file p).
Proof. intros w. apply writes_within_refl. Qed.

Lemma confined_image_open (p : path) : confined dir K (image_open p).
Proof.
  intros w. unfold image_open.
  destruct (read_file p w) as [[| |]|]; apply writes_within_refl.
Qed.

Lemma confined_json_read (p : path) : confined dir K (json_read p).
Proof.
intros w. unfold json_read.
destruct (read_file p w) as [[| |]|]; apply writes_within_refl.
Qed.

Lemma confined_write_file (p : string) (f : file) :
  K p -> confined dir K (write_file (dir, p) f).
Proof.
  intros HK w.
  destruct (decide ((dir, p) ∈ locked w)) as [Hl | Hf].
  { rewrite write_file_locked by assumption. apply writes_within_refl. }
  rewrite write_file_ok by assumption.
  simpl. repeat split; simpl; auto.
  - intros d Hd. now apply lookup_insert_ne.
  - intros q Hq. unfold read_file. simpl. rewrite lookup_insert_eq. simpl.
    rewrite lookup_insert_ne by (intros ->; contradiction).
    destruct (disk w !! dir); reflexivity.
  - intros q Hq. unfold read_file in *. simpl in *.
    rewrite lookup_insert_eq. simpl.
    destruct (decide (p = q)) as [<- | Hne].
    + rewrite lookup_insert_eq. eauto.
    + rewrite lookup_insert_ne by assumption.
      destruct (disk w !! dir); simpl in *; [assumption|].
      destruct Hq as [? Hq]. discriminate.
Qed.

Lemma confined_image_save (img : image) (p : string) :
  K p -> confined dir K (image_save img (dir, p)).
Proof.
  intros HK. unfold image_save.
  destruct (is_empty_image img);
    [apply confined_raise|now apply confined_write_file].
Qed.

Lemma confined_copy2 (src : path) (p : string) :
  K p -> confined dir K (copy2 src (dir, p)).
Proof.
  intros HK w. unfold copy2.
  destruct (read_file src w); [now apply confined_write_file|].
  apply writes_within_refl.
Qed.

Lemma confined_split_image (image_path : path) (crop_box : box) (p : string) :
  K p -> confined dir K (split_image image_path crop_box (dir, p)).
Proof.
  intros HK. unfold split_image.
  apply confined_catch; [|intros; apply confined_ret].
  apply confined_bind; [apply confined_image_open|]. intros img.
  apply confined_bind; [apply confined_lift|]. intros cropped.
  apply confined_bind; [now apply confined_image_save|]. intros _.
  apply confined_ret.
Qed.

Lemma confined_merge_images (p : string) (overlay_path : path)
    (position : Z * Z) :
  K p -> confined dir K (merge_images (dir, p) overlay_path position None).
Proof.
  intros HK. unfold merge_images.
  apply confined_catch; [|intros; apply confined_ret].
  apply confined_bind; [apply confined_image_open|]. intros base.
  apply confined_bind; [apply confined_image_open|]. intros overlay.
  apply confined_bind; [now apply confined_image_save|]. intros _.
  apply confined_ret.
Qed.

Lemma confined_apply_transparency (p : string) (keep : box) :
  K p -> confined dir K (apply_transparency (dir, p) keep None).
Proof.
  intros HK. unfold apply_transparency.
  apply confined_catch; [|intros; apply confined_ret].
  apply confined_bind; [apply confined_image_open|]. intros img.
  apply confined_bind; [now apply confined_image_save|]. intros _.
  apply confined_ret.
Qed.

Lemma confined_process_splits (source_path : string) (c : config) :
  (forall p, split_targets c p -> K p) ->
  confined dir K (process_splits source_path dir c).
Proof.
  intros HK. unfold process_splits.
  apply confined_for. intros item Hitem.
  apply confined_bind; [apply confined_exists_file|]. intros [|];
    [|apply confined_ret].
  apply confined_for. intros split Hsplit.
  apply confined_bind; [|intros; apply confined_ret].
  apply confined_split_image. apply HK. exists item, split. auto.
Qed.

Lemma confined_merge_step (source_path p : string) (merge : merge_entry) :
  K p -> confined dir K (merge_step source_path (dir, p) merge).
Proof.
  intros HK. unfold merge_step.
  apply confined_bind; [apply confined_exists_file|]. intros [|];
    [|apply confined_ret].
  apply confined_bind; [|intros; apply confined_ret].
  now apply confined_merge_images.
Qed.

Lemma confined_process_merges (source_path : string) (c : config) :
  (forall p, merge_targets c p -> K p) ->
  confined dir K (process_merges source_path dir c).
Proof.
  intros HK. unfold process_merges.
  apply confined_for. intros item Hitem.
  apply confined_for. intros merge Hmerge.
  apply confined_merge_step. apply HK. unfold merge_targets.
  now apply in_map.
Qed.

Lemma confined_process_transparency (source_path : string) (c : config) :
  (forall p, transparency_targets c p -> K p) ->
  confined dir K (process_transparency source_path dir c).
Proof.
  intros HK. unfold process_transparency.
  apply confined_for. intros item Hitem.
  apply confined_bind; [apply confined_exists_file|]. intros [|];
    [|apply confined_ret].
  assert (K (transparency_target (snd item))) by (apply HK; exists item; auto).
  apply confined_bind; [now apply confined_copy2|]. intros _.
  apply confined_bind; [now apply confined_apply_transparency|]. intros _.
  apply confined_ret.
Qed.

Lemma confined_process_mcmeta (mcmeta_dir : mcmeta_store) (version : string)
    (c : config) :
  (forall p, sidecar_targets mcmeta_dir version p -> K p) ->
  confined dir K (process_mcmeta mcmeta_dir dir version c).
Proof.
  intros HK. unfold process_mcmeta.
  destruct (mcmeta_dir !! version) as [walk|] eqn:Ewalk;
    [|apply confined_ret].
  apply confined_for. intros entry Hentry.
  destruct (endswith (sidecar_name entry) ".mcmeta"); [|apply confined_ret].
  apply confined_bind; [apply confined_exists_file|]. intros found.
  destruct (is_split_target c _ _ || found); [|apply confined_ret].
  apply confined_write_file. apply HK. exists walk, entry. auto.
Qed.

Lemma confined_process_operation (mcmeta_dir : mcmeta_store)
    (source_path : string) (op : operation) :
  (forall p, operation_targets mcmeta_dir op p -> K p) ->
  confined dir K (process_operation mcmeta_dir source_path dir op).
Proof.
  intros HK. unfold process_operation, operation_targets in *.
  apply confined_bind; [apply confined_process_splits; auto|]. intros _.
  apply confined_bind; [apply confined_process_merges; auto|]. intros _.
  apply confined_bind; [apply confined_process_transparency; auto|].
  intros _. apply confined_process_mcmeta; auto.
Qed.

Lemma confined_process_operations (mcmeta_dir : mcmeta_store)
    (source_path : string) (plan : list operation) :
  (forall p, plan_targets mcmeta_dir plan p -> K p) ->
  forall exclude_files,
    confined dir K
      (process_operations mcmeta_dir source_path dir plan exclude_files).
Proof.
  induction plan as [|op plan IH]; intros HK exclude_files w; simpl.
  - apply writes_within_refl.
  - pose proof (confined_process_operation mcmeta_dir source_path op) as Hop.
    specialize (Hop ltac:(intros p Hp; apply HK; exists op; split;
                          [now left|assumption]) w).
    destruct (process_operation mcmeta_dir source_path dir op w)
      as [[u|e|] w1]; simpl in *.
    + eapply writes_within_trans; [exact Hop|]. apply IH.
      intros p (op' & Hin & Hp). apply HK. exists op'. split;
        [now right|assumption].
    + destruct Hop as (A1 & B1 & C1 & D1 & E1 & F1). repeat split; auto.
    + assumption.
Qed.

End Confined.

(** ** A merge whose source is missing *)


Lemma source_survives (source_path target_path : string) (K : string -> Prop)
    (p : string) (w w' : world) :
  source_path <> target_path ->
  writes_within target_path K w w' ->
  read_file (source_path, p) w' = read_file (source_path, p) w.
Proof.
  intros Hne (Hdirs & _). unfold read_file. simpl. now rewrite Hdirs.
Qed.





(** The working copy starts as a copy of the source pack and never loses
    a file, so a path missing from the working copy is missing from the
    source pack, where the code looks for it. *)
Lemma copytree_covers (source_path target_path : string) (w w' : world) :
  copytree source_path target_path w = (Ok tt, w') ->
  covers source_path target_path w'.
Proof.
  unfold copytree. destruct (disk w !! source_path) as [d|] eqn:E;
    [|discriminate].
  intros [= <-] p. unfold read_file. simpl.
  rewrite lookup_insert_eq.
  destruct (decide (target_path = source_path)) as [-> | Hne].
  - now rewrite lookup_insert_eq.
  - rewrite lookup_insert_ne by assumption. now rewrite E.
Qed.

Lemma covers_preserved (source_path target_path : string) (K : string -> Prop)
    (w w' : world) :
  source_path <> target_path ->
  covers source_path target_path w ->
  writes_within target_path K w w' ->
  covers source_path target_path w'.
Proof.
  intros Hne Hcov Hw p Hp.
  rewrite (source_survives source_path target_path K p w w' Hne Hw) in Hp.
  destruct Hw as (_ & _ & Hkeep & _). apply Hkeep. now apply Hcov.
Qed.

Lemma confined_update_pack_format (target : string) :
  confined temp_dir (fun p => p = "pack.mcmeta") (update_pack_format target).
Proof.
  unfold update_pack_format.
  apply confined_bind; [apply confined_exists_file|]. intros [|];
    [|apply confined_ret].
  apply confined_bind; [apply confined_json_read|]. intros mcmeta.
  apply confined_bind; [apply confined_lift|]. intros mcmeta'.
  now apply confined_write_file.
Qed.

Lemma missing_from_working_copy (mcmeta_dir : mcmeta_store)
    (pack_name target : string) (plan : list operation)
    (exclude_files : gset string) (w w1 w2 : world) (p : string) :
  pack_name <> temp_dir ->
  copytree pack_name temp_dir w = (Ok tt, w1) ->
  update_pack_format target w1 = (Ok tt, w2) ->
  read_file (temp_dir, p)
    (snd (process_operations mcmeta_dir pack_name temp_dir plan exclude_files
            w2)) = None ->
  read_file (pack_name, p)
    (snd (process_operations mcmeta_dir pack_name temp_dir plan exclude_files
            w2)) = None.
Proof.
  intros Hne Hcopy Hupdate Hmissing.
  pose proof (copytree_covers _ _ _ _ Hcopy) as Hcov1.
  pose proof (confined_update_pack_format target w1) as Hw2.
  rewrite Hupdate in Hw2. cbn [snd] in Hw2.
  pose proof (covers_preserved _ _ _ _ _ Hne Hcov1 Hw2) as Hcov2.
  pose proof (confined_process_operations temp_dir (fun _ => True) mcmeta_dir
                pack_name plan (fun _ _ => I) exclude_files w2) as Hw3.
  pose proof (covers_preserved _ _ _ _ _ Hne Hcov2 Hw3 p) as Hcov3.
  destruct (read_file (pack_name, p) _) as [src|] eqn:E; [|reflexivity].
  destruct (Hcov3 ltac:(eauto)) as [copy Hcopied]. congruence.
Qed.




(** The scenario of the specification: the step whose only rule is that
    merge leaves [base.png], and everything else, unchanged. *)
Example merge_scenario :
  process_operation ∅ "mypack" temp_dir
    {| op_version := "1.20"; op_config := merge_config |} sample_world
  = (Ok tt, sample_world).
Proof. reflexivity. Qed.

(** ** What the operations read *)

Section Oblivious.

Variables source_path target_path : string.
Hypothesis distinct : source_path <> target_path.

Lemma oblivious_pure {A} (R : string -> Prop) (c : io A) (r : result A) :
  (forall w, c w = (r, w)) -> oblivious source_path target_path R c.
Proof.
  intros Hc K w1 w2 HR Hagree. exists K. rewrite !Hc. simpl.
  split; [auto|]. split; [reflexivity|]. split; [assumption|]. auto.
Qed.

Lemma oblivious_ret {A} R (a : A) : oblivious source_path target_path R (io_ret a).
Proof. now apply (oblivious_pure R _ (Ok a)). Qed.

Lemma oblivious_raise {A} R (e : exn) : oblivious source_path target_path R (@io_raise A e).
Proof. now apply (oblivious_pure R _ (Raise e)). Qed.

Lemma oblivious_lift {A} R (r : result A) : oblivious source_path target_path R (io_lift r).
Proof. now apply (oblivious_pure R _ r). Qed.

Lemma oblivious_bind {A B} R (c : io A) (k : A -> io B) :
  oblivious source_path target_path R c -> (forall a, oblivious source_path target_path R (k a)) ->
  oblivious source_path target_path R (io_bind c k).
Proof.
  intros Hc Hk K w1 w2 HR Hagree.
  destruct (Hc K w1 w2 HR Hagree) as (K1 & Hsub1 & Hres & Hagree1 & Hrest1).
  unfold io_bind.
  destruct (c w1) as [r1 w1'], (c w2) as [r2 w2']. simpl in *. subst r2.
  destruct r1 as [a|e|]; try (exists K1; simpl; auto; fail).
  destruct (Hk a K1 w1' w2' ltac:(auto) Hagree1)
    as (K2 & Hsub2 & Hres2 & Hagree2 & Hrest2).
  exists K2. split; [auto|]. split; [assumption|]. split; [assumption|].
  intros p Hp. destruct (Hrest2 p Hp) as [E1 E2]. rewrite E1, E2.
  apply Hrest1. auto.
Qed.

Lemma oblivious_catch {A} R (c : io A) (handler : exn -> io A) :
  oblivious source_path target_path R c -> (forall e, oblivious source_path target_path R (handler e)) ->
  oblivious source_path target_path R (io_catch c handler).
Proof.
  intros Hc Hh K w1 w2 HR Hagree.
  destruct (Hc K w1 w2 HR Hagree) as (K1 & Hsub1 & Hres & Hagree1 & Hrest1).
  unfold io_catch.
  destruct (c w1) as [r1 w1'], (c w2) as [r2 w2']. simpl in *. subst r2.
  destruct r1 as [a|e|]; try (exists K1; simpl; auto; fail).
  destruct (Hh e K1 w1' w2' ltac:(auto) Hagree1)
    as (K2 & Hsub2 & Hres2 & Hagree2 & Hrest2).
  exists K2. split; [auto|]. split; [assumption|]. split; [assumption|].
  intros p Hp. destruct (Hrest2 p Hp) as [E1 E2]. rewrite E1, E2.
  apply Hrest1. auto.
Qed.

Lemma oblivious_for {A} R (xs : list A) (body : A -> io unit) :
  (forall x, In x xs -> oblivious source_path target_path R (body x)) ->
  oblivious source_path target_path R (io_for xs body).
Proof.
  induction xs as [|x xs IH]; intros Hbody; simpl.
  - apply oblivious_ret.
  - apply oblivious_bind; [apply Hbody; now left|].
    intros _. apply IH. intros y Hy. apply Hbody. now right.
Qed.

Lemma agree_source K (w1 w2 : world) (p : string) :
  agree source_path target_path K w1 w2 ->
  read_file (source_path, p) w1 = read_file (source_path, p) w2.
Proof. intros (Hs & _). unfold read_file. simpl. now rewrite Hs. Qed.

(** The existence test on a path of the source pack. *)
Lemma oblivious_exists_source R (p : string) :
  oblivious source_path target_path R (exists_file (source_path, p)).
Proof.
  intros K w1 w2 HR Hagree. exists K. unfold exists_file. simpl.
  rewrite (agree_source K w1 w2 p Hagree).
  split; [auto|]. split; [reflexivity|]. split; [assumption|]. auto.
Qed.

(** Opening an image of the source pack. *)
Lemma oblivious_open_source R (p : string) :
  oblivious source_path target_path R (image_open (source_path, p)).
Proof.
  intros K w1 w2 HR Hagree. exists K. unfold image_open.
  rewrite (agree_source K w1 w2 p Hagree).
  destruct (read_file (source_path, p) w2) as [[| |]|]; simpl;
    (split; [auto|]; split; [reflexivity|]; split; [assumption|]; auto).
Qed.

(** Opening an image of the working copy, at a path it may look at. *)
Lemma oblivious_open_target (R : string -> Prop) (p : string) :
  R p -> oblivious source_path target_path R (image_open (target_path, p)).
Proof.
  intros HRp K w1 w2 HR Hagree. exists K. unfold image_open.
  pose proof Hagree as (Hs & Hl & Ht). rewrite (Ht p (HR p HRp)).
  destruct (read_file (target_path, p) w2) as [[| |]|]; simpl;
    (split; [auto|]; split; [reflexivity|]; split; [assumption|]; auto).
Qed.

Lemma read_write_other (p q : string) (f : file) (w : world) :
  p <> q ->
  read_file (target_path, q) (snd (write_file (target_path, p) f w))
  = read_file (target_path, q) w.
Proof.
  intros Hne.
  destruct (confined_write_file target_path (fun x => x = p) p f eq_refl w)
    as (_ & H & _).
  apply H. congruence.
Qed.

Lemma write_keeps_source (p : string) (f : file) (w : world) :
  disk (snd (write_file (target_path, p) f w)) !! source_path
  = disk w !! source_path.
Proof.
  destruct (confined_write_file target_path (fun _ => True) p f I w)
    as (H & _).
  now apply H.
Qed.

Lemma write_keeps_locked (p : path) (f : file) (w : world) :
  locked (snd (write_file p f w)) = locked w.
Proof. unfold write_file. destruct (decide _); reflexivity. Qed.

(** Writing the same file at the same path of both working copies. *)
Lemma oblivious_write R (p : string) (f : file) :
  oblivious source_path target_path R (write_file (target_path, p) f).
Proof.
  intros K w1 w2 HR Hagree. pose proof Hagree as (Hs & Hl & Ht).
  destruct (decide ((target_path, p) ∈ locked w1)) as [Hlock | Hfree].
  - exists K.
    rewrite (write_file_locked _ f w1) by assumption.
    rewrite (write_file_locked _ f w2) by (now rewrite <- Hl). simpl.
    split; [auto|]. split; [reflexivity|]. split; [assumption|]. auto.
  - exists (fun q => K q \/ q = p). split; [auto|].
    assert (Hfree2 : (target_path, p) ∉ locked w2) by (now rewrite <- Hl).
    split; [now rewrite !write_file_ok by assumption|].
    split; [split; [|split]|].
    + now rewrite !write_keeps_source.
    + now rewrite !write_keeps_locked.
    + intros q Hq. destruct (decide (p = q)) as [<- | Hne].
      * now rewrite !read_after_write by assumption.
      * rewrite !read_write_other by assumption.
        destruct Hq as [Hq | ->]; [now apply Ht|congruence].
    + intros q Hq. split; apply read_write_other; intros ->; apply Hq;
        now right.
Qed.

Lemma oblivious_image_save R (img : image) (p : string) :
  oblivious source_path target_path R (image_save img (target_path, p)).
Proof.
  unfold image_save. destruct (is_empty_image img);
    [apply oblivious_raise|apply oblivious_write].
Qed.

Lemma oblivious_split_image R (source_file target_file : string)
    (crop_box : box) :
  oblivious source_path target_path R
    (split_image (source_path, source_file) crop_box
       (target_path, target_file)).
Proof.
  unfold split_image.
  apply oblivious_catch; [|intros; apply oblivious_ret].
  apply oblivious_bind; [apply oblivious_open_source|]. intros img.
  apply oblivious_bind; [apply oblivious_lift|]. intros cropped.
  apply oblivious_bind; [apply oblivious_image_save|]. intros _.
  apply oblivious_ret.
Qed.

Lemma oblivious_merge_images (R : string -> Prop)
    (target_file source_file : string) (position : Z * Z) :
  R target_file ->
  oblivious source_path target_path R
    (merge_images (target_path, target_file) (source_path, source_file)
       position None).
Proof.
  intros HR. unfold merge_images.
  apply oblivious_catch; [|intros; apply oblivious_ret].
  apply oblivious_bind; [now apply oblivious_open_target|]. intros base.
  apply oblivious_bind; [apply oblivious_open_source|]. intros overlay.
  apply oblivious_bind; [apply oblivious_image_save|]. intros _.
  apply oblivious_ret.
Qed.

(** After a successful write the rest may look at the path written. *)
Lemma oblivious_write_then {A} (R : string -> Prop) (p : string) (f : file)
    (k : io A) :
  oblivious source_path target_path (fun q => R q \/ q = p) k ->
  oblivious source_path target_path R
    (do! _ := write_file (target_path, p) f in k).
Proof.
  intros Hk K w1 w2 HR Hagree. pose proof Hagree as (Hs & Hl & Ht).
  unfold io_bind.
  destruct (decide ((target_path, p) ∈ locked w1)) as [Hlock | Hfree].
  - exists K.
    rewrite (write_file_locked _ f w1) by assumption.
    rewrite (write_file_locked _ f w2) by (now rewrite <- Hl). simpl.
    split; [auto|]. split; [reflexivity|]. split; [assumption|]. auto.
  - assert (Hfree2 : (target_path, p) ∉ locked w2) by (now rewrite <- Hl).
    assert (Hagree1 : agree source_path target_path (fun q => K q \/ q = p)
              (snd (write_file (target_path, p) f w1))
              (snd (write_file (target_path, p) f w2))).
    { split; [|split].
      - now rewrite !write_keeps_source.
      - now rewrite !write_keeps_locked.
      - intros q Hq. destruct (decide (p = q)) as [<- | Hne].
        + now rewrite !read_after_write by assumption.
        + rewrite !read_write_other by assumption.
          destruct Hq as [Hq | ->]; [now apply Ht|congruence]. }
    destruct (Hk (fun q => K q \/ q = p) _ _
                ltac:(intros q [Hq | ->]; auto) Hagree1)
      as (K2 & Hsub2 & Hres2 & Hagree2 & Hrest2).
    exists K2.
    rewrite (write_file_ok _ f w1) in * by assumption.
    rewrite (write_file_ok _ f w2) in * by assumption.
    cbn [snd] in *.
    split; [auto|]. split; [assumption|]. split; [assumption|].
    intros q Hq. destruct (Hrest2 q Hq) as [E1 E2]. rewrite E1, E2.
    assert (Hne : p <> q) by (intros ->; apply Hq; apply Hsub2; now right).
    pose proof (read_write_other p q f w1 Hne) as R1.
    pose proof (read_write_other p q f w2 Hne) as R2.
    rewrite write_file_ok in R1, R2 by assumption. auto.
Qed.

Lemma oblivious_copy2_then {A} (R : string -> Prop)
    (source_file target_file : string) (k : io A) :
  oblivious source_path target_path (fun q => R q \/ q = target_file) k ->
  oblivious source_path target_path R
    (do! _ := copy2 (source_path, source_file) (target_path, target_file) in
     k).
Proof.
  intros Hk K w1 w2 HR Hagree.
  pose proof (agree_source K w1 w2 source_file Hagree) as Hsrc.
  destruct (read_file (source_path, source_file) w2) as [f|] eqn:E.
  - pose proof (oblivious_write_then R target_file f k Hk K w1 w2 HR Hagree)
      as H.
    unfold io_bind, copy2 in *. rewrite Hsrc, E. exact H.
  - exists K. unfold io_bind, copy2. rewrite Hsrc, E. simpl.
    split; [auto|]. split; [reflexivity|]. split; [assumption|]. auto.
Qed.

Lemma oblivious_apply_transparency (R : string -> Prop) (p : string)
    (keep : box) :
  R p ->
  oblivious source_path target_path R
    (apply_transparency (target_path, p) keep None).
Proof.
  intros HR. unfold apply_transparency.
  apply oblivious_catch; [|intros; apply oblivious_ret].
  apply oblivious_bind; [now apply oblivious_open_target|]. intros img.
  apply oblivious_bind; [apply oblivious_image_save|]. intros _.
  apply oblivious_ret.
Qed.

Lemma oblivious_process_transparency (c : config) :
  oblivious source_path target_path (fun _ => False)
    (process_transparency source_path target_path c).
Proof.
  unfold process_transparency.
  apply oblivious_for. intros item _.
  apply oblivious_bind; [apply oblivious_exists_source|]. intros [|];
    [|apply oblivious_ret].
  apply oblivious_copy2_then.
  apply oblivious_bind; [|intros; apply oblivious_ret].
  apply oblivious_apply_transparency. now right.
Qed.

Lemma oblivious_process_splits (c : config) :
  oblivious source_path target_path (fun _ => False) (process_splits source_path target_path c).
Proof.
  unfold process_splits.
  apply oblivious_for. intros item _.
  apply oblivious_bind; [apply oblivious_exists_source|]. intros [|];
    [|apply oblivious_ret].
  apply oblivious_for. intros split _.
  apply oblivious_bind; [apply oblivious_split_image|]. intros _.
  apply oblivious_ret.
Qed.

Lemma oblivious_process_merges (c : config) :
  oblivious source_path target_path (merge_targets c) (process_merges source_path target_path c).
Proof.
  unfold process_merges.
  apply oblivious_for. intros item Hitem.
  apply oblivious_for. intros merge _. unfold merge_step.
  apply oblivious_bind; [apply oblivious_exists_source|]. intros [|];
    [|apply oblivious_ret].
  apply oblivious_bind; [|intros; apply oblivious_ret].
  apply oblivious_merge_images. unfold merge_targets. now apply in_map.
Qed.

End Oblivious.

(** C10.  With the source pack and the working copy in different
    directories: a plan writes only into the working copy, at the targets
    its rules name, so the files of the source pack are the same after any
    number of steps as before the first; and the split, transparency and
    merge operations take their source images, and the existence tests on
    them, from the source pack.  Two runs that start from the same source
    pack and arbitrary working copies make the same existence tests, the
    same writes and return the same; for merges the working copies have to
    hold the same merge targets, which are the only files of the working
    copy a merge reads. *)
Theorem sources_come_from_source_pack (mcmeta_dir : mcmeta_store)
    (source_path target_path : string) :
  source_path <> target_path ->
  (forall plan exclude_files w,
     writes_within target_path (plan_targets mcmeta_dir plan) w
       (snd (process_operations mcmeta_dir source_path target_path plan
               exclude_files w))) /\
  (forall plan exclude_files w p,
     read_file (source_path, p)
       (snd (process_operations mcmeta_dir source_path target_path plan
               exclude_files w))
     = read_file (source_path, p) w) /\
  (forall c,
     oblivious source_path target_path (fun _ => False)
       (process_splits source_path target_path c)) /\
  (forall c,
     oblivious source_path target_path (fun _ => False)
       (process_transparency source_path target_path c)) /\
  (forall c,
     oblivious source_path target_path (merge_targets c)
       (process_merges source_path target_path c)).
Proof.
  intros Hne. split; [|split; [|split; [|split]]].
  - intros plan exclude_files w.
    now apply confined_process_operations.
  - intros plan exclude_files w p.
    apply (source_survives source_path target_path
             (plan_targets mcmeta_dir plan)); [assumption|].
    now apply confined_process_operations.
  - intros c. now apply oblivious_process_splits.
  - intros c. now apply oblivious_process_transparency.
  - intros c. now apply oblivious_process_merges.
Qed.

Lemma sources_come_from_source_pack_witness :
  (forall plan exclude_files w,
     writes_within temp_dir (plan_targets ∅ plan) w
       (snd (process_operations ∅ "mypack" temp_dir plan exclude_files w))) /\
  (forall plan exclude_files w p,
     read_file ("mypack", p)
       (snd (process_operations ∅ "mypack" temp_dir plan exclude_files w))
     = read_file ("mypack", p) w) /\
  (forall c,
     oblivious "mypack" temp_dir (fun _ => False)
       (process_splits "mypack" temp_dir c)) /\
  (forall c,
     oblivious "mypack" temp_dir (fun _ => False)
       (process_transparency "mypack" temp_dir c)) /\
  (forall c,
     oblivious "mypack" temp_dir (merge_targets c)
       (process_merges "mypack" temp_dir c)).
Proof.
  apply (sources_come_from_source_pack ∅ "mypack" temp_dir).
  discriminate.
Defined.

(** A later step does not see what an earlier step wrote: the first step
    creates [overlay.png] in the working copy, the merge of the second
    step finds no [overlay.png] in the source pack and leaves [base.png]
    as it was. *)
Example later_step_reads_source_pack :
  let w' := snd (process_operations ∅ "mypack" temp_dir split_then_merge ∅
                   sample_world) in
  read_file (temp_dir, "overlay.png") w'
  = Some (ImageFile {| img_width := 1; img_height := 1;
                       img_data := [Pixel 10 20 30 255] |}) /\
  read_file ("mypack", "overlay.png") w' = None /\
  read_file (temp_dir, "base.png") w' = Some (ImageFile sample_image).
Proof. vm_compute. repeat split. Qed.

(** ** The packaged metadata file *)

Lemma prefix_single (a c : ascii) (s : string) :
  String.prefix (String a EmptyString) (String c s) = Ascii.eqb c a.
Proof.
  cbn [String.prefix].
  destruct (ascii_dec a c) as [<- | Hne].
  - rewrite Ascii.eqb_refl. now destruct s.
  - symmetry. apply Ascii.eqb_neq. congruence.
Qed.

Lemma replace_backslash_cons (c : ascii) (s : string) :
  replace "\" "/" (String c s)
  = String (if Ascii.eqb c "\"%char then "/"%char else c) (replace "\" "/" s).
Proof.
  unfold replace.
  change (replace_from "\" "/" 0 (String c s))
    with (if String.prefix "\" (String c s)
          then ("/" ++ replace_from "\" "/" (String.length "\" - 1) s)%string
          else String c (replace_from "\" "/" 0 s)).
  rewrite prefix_single.
  destruct (Ascii.eqb c "\"%char); reflexivity.
Qed.

Lemma replace_backslash_inv (p : string) : forall q,
  replace "\" "/" p = q -> no_slash q = true -> p = q.
Proof.
  induction p as [|c p IH]; intros q Hq Hno.
  - exact Hq.
  - rewrite replace_backslash_cons in Hq. subst q. simpl in Hno.
    apply andb_true_iff in Hno. destruct Hno as [Hc Hrest].
    destruct (Ascii.eqb_spec c "\"%char) as [-> | Hne]; [discriminate|].
    f_equal. now apply IH.
Qed.

(** ** The exit paths of [on_confirm], run *)

(** Packaging done: the archive is written and the temporary directory is
    gone. *)
Example exit_after_packaging :
  let r := on_confirm 4 sample_store ∅ "mypack" "1.19.4" "1.21" "out.zip"
             cache_world in
  fst r = Ok tt /\
  ui (snd r) = [ShowInfo "out.zip"; WindowDestroyed] /\
  archives (snd r) !! "out.zip"
  = Some [("base.png", ImageFile sample_image);
          ("pack.mcmeta",
           JsonFile
             (JDict [("pack", JDict [("pack_format", JInt 30);
                                     ("description", JStr "sample")])]))] /\
  disk (snd r) !! temp_dir = None /\
  disk (snd r) !! "mypack" = Some sample_pack.
Proof. vm_compute. repeat split. Qed.

(** An exception caught by the handler: a malformed version record. *)
Example exit_after_caught_error :
  let r := on_confirm 4 broken_store ∅ "mypack" "1.19.4" "1.21" "out.zip"
             cache_world in
  fst r = Ok tt /\
  ui (snd r) = [ShowError JSONDecodeError; WindowDestroyed] /\
  archives (snd r) !! "out.zip" = None /\
  disk (snd r) !! temp_dir = None.
Proof. vm_compute. repeat split. Qed.

(** A conversion that fails inside [process_version_conversion]: the
    target of a rule cannot be written. *)
Example exit_after_failed_conversion :
  let r := on_confirm 4 transparency_store ∅ "mypack" "1.19.4" "1.20" "out.zip"
             locked_world in
  fst r = Ok tt /\
  ui (snd r) = [ShowError OSError] /\
  archives (snd r) !! "out.zip" = None /\
  disk (snd r) !! temp_dir = None.
Proof. vm_compute. repeat split. Qed.

(** The save dialog cancelled. *)
Example exit_after_cancelled_dialog :
  let r := on_confirm 4 sample_store ∅ "mypack" "1.19.4" "1.21" ""
             cache_world in
  fst r = Ok tt /\
  ui (snd r) = [] /\
  archives (snd r) = ∅ /\
  disk (snd r) !! temp_dir = None.
Proof. vm_compute. repeat split. Qed.

(** The scenario of the specification for removals and splits: the
    excluded file stays in the working tree and is left out of the
    archive, which holds the new file. *)
Example exclusion_scenario :
  let r := on_confirm 4 transparency_store ∅ "mypack" "1.19.4" "1.20" "out.zip"
             cache_world in
  exists archive,
    archives (snd r) !! "out.zip" = Some archive /\
    map fst archive = ["masked.png"; "pack.mcmeta"].
Proof. vm_compute. eexists. split; reflexivity. Qed.

(** * Further properties of the code *)

(** ** More on the resolver *)

Lemma float_of_string_raises (s : string) :
  (exists q, float_of_string s = Ok q) \/ float_of_string s = Raise ValueError.
Proof.
  unfold float_of_string.
  destruct (read_digits s 0 0) as [[ip ni] r1].
  destruct r1 as [|c r2].
  - destruct (ni =? 0)%nat; eauto.
  - destruct (Ascii.eqb_spec c "."%char) as [-> | Hne].
    + destruct (read_digits r2 ip 0) as [[m nf] r3].
      destruct r3; [destruct (ni + nf =? 0)%nat|]; eauto.
    + right. destruct c as [[] [] [] [] [] [] [] []]; try reflexivity.
      now destruct Hne.
Qed.

Lemma version_num_raises (version : string) :
  (exists q, version_num version = Ok q) \/ version_num version = Raise ValueError.
Proof. apply float_of_string_raises. Qed.

Lemma candidate_short_of ascending qc tgt q :
  candidate ascending qc tgt q -> ~ (q == tgt)%Q -> short_of ascending q tgt.
Proof.
  unfold candidate, short_of. destruct ascending; intros [H1 H2] Hne.
  - apply Qle_lt_or_eq in H2. tauto.
  - apply Qle_lt_or_eq in H2. destruct H2 as [H2 | H2]; [assumption|].
    destruct Hne. now symmetry.
Qed.

Lemma short_of_initial qs qt :
  ~ (qs == qt)%Q -> short_of (Qlt_bool qs qt) qs qt.
Proof.
  intros Hne. unfold short_of. destruct (Qlt_bool qs qt) eqn:E.
  - now apply Qlt_bool_iff.
  - destruct (Qlt_le_dec qs qt) as [Hlt | Hle].
    + apply Qlt_bool_iff in Hlt. congruence.
    + apply Qle_lt_or_eq in Hle. destruct Hle as [H | H]; [assumption|].
      destruct Hne. now symmetry.
Qed.

(** Every registered key the loop could still move to is the key of a
    version of the path. *)
Lemma resolved_complete ascending tgt (configs : dict config) qc ext :
  resolved ascending tgt configs qc ext ->
  forall item q,
    In item configs ->
    version_num (fst item) = Ok q ->
    candidate ascending qc tgt q ->
    exists v q', In v ext /\ version_num v = Ok q' /\ (q' == q)%Q.
Proof.
  induction 1 as [qc Heq | qc Hne Hnone | qc v q0 ext Hne Hin Hv Hc Hmin Hrest IH];
    intros item q Hitem Hq Hcand.
  - exfalso. unfold candidate in Hcand. destruct ascending; lra.
  - exfalso. rewrite Forall_forall in Hnone.
    apply (Hnone item ltac:(now apply list_elem_of_In) q Hq Hcand).
  - rewrite Forall_forall in Hmin.
    pose proof (Hmin item ltac:(now apply list_elem_of_In) q Hq Hcand) as Hnear.
    destruct (Qeq_dec q0 q) as [Heq | Hneq].
    + exists v, q0. split; [now left|]. auto.
    + assert (Hcand' : candidate ascending q0 tgt q).
      { unfold candidate, nearer in *. destruct ascending.
        - destruct Hcand as [_ Hhi]. split; [|assumption].
          apply Qle_lt_or_eq in Hnear. tauto.
        - destruct Hcand as [_ Hlo]. split; [|assumption].
          apply Qle_lt_or_eq in Hnear. destruct Hnear as [H | H];
            [assumption|]. destruct Hneq. now symmetry. }
      destruct (IH item q Hitem Hq Hcand') as (v' & q' & Hv' & Hq' & Heq').
      exists v', q'. split; [now right|]. auto.
Qed.

(** When the target key is registered the path ends on it. *)
Lemma resolved_reaches ascending tgt (configs : dict config) qc ext :
  resolved ascending tgt configs qc ext ->
  short_of ascending qc tgt ->
  (exists item q, In item configs /\ version_num (fst item) = Ok q /\
                  (q == tgt)%Q) ->
  exists v q, last ext = Some v /\ version_num v = Ok q /\ (q == tgt)%Q.
Proof.
  induction 1 as [qc Heq | qc Hne Hnone | qc v q0 ext Hne Hin Hv Hc Hmin Hrest IH];
    intros Hshort Hreg.
  - exfalso. unfold short_of in Hshort. destruct ascending; lra.
  - exfalso. destruct Hreg as (item & q & Hitem & Hq & Heq).
    rewrite Forall_forall in Hnone.
    apply (Hnone item ltac:(now apply list_elem_of_In) q Hq).
    unfold candidate, short_of in *. destruct ascending; split; lra.
  - destruct (Qeq_dec q0 tgt) as [Heq | Hneq].
    + inversion Hrest; subst; try contradiction.
      exists v, q0. auto.
    + destruct (IH (candidate_short_of _ _ _ _ Hc Hneq) Hreg)
        as (v' & q' & Hlast & Hq' & Heq').
      exists v', q'. split; [|auto].
      destruct ext as [|v'' ext]; [discriminate|].
      rewrite last_cons_cons. exact Hlast.
Qed.

(** X1.  Downgrades mirror upgrades: when the key of the source lies above
    the key of the target, the plan is returned, every entry is a
    registered config with a key at least the target's and below the
    source's, and the keys strictly decrease along the plan. *)
Theorem plan_descending_within_range (config_dir : config_store)
    (configs : dict config) (a b : string) (qa qb : Q) (fuel : nat) :
  load_version_configs config_dir = Ok configs ->
  all_keys configs ->
  version_num a = Ok qa ->
  version_num b = Ok qb ->
  (qb < qa)%Q ->
  (length configs < fuel)%nat ->
  exists plan,
    get_version_operations fuel config_dir a b = Ok plan /\
    (forall op, In op plan ->
       dict_get (op_version op) configs = Some (op_config op) /\
       exists q, version_num (op_version op) = Ok q /\
                 (qb <= q)%Q /\ (q < qa)%Q) /\
    (forall (i j : nat) opi opj qi qj,
       (i < j)%nat ->
       plan !! i = Some opi -> plan !! j = Some opj ->
       version_num (op_version opi) = Ok qi ->
       version_num (op_version opj) = Ok qj ->
       (qj < qi)%Q).
Proof.
  intros Hload Hall Ha Hb Hlt Hfuel.
  destruct (get_version_operations_resolved config_dir configs a b qa qb fuel
              Hload Hall Ha Hb Hfuel) as (plan & E & Hres & Hget).
  assert (Hdesc : Qlt_bool qa qb = false).
  { destruct (Qlt_bool qa qb) eqn:E'; [|reflexivity].
    apply Qlt_bool_iff in E'. lra. }
  rewrite Hdesc in Hres. apply resolved_chain in Hres.
  exists plan. split; [exact E|]. split.
  - intros op Hop. split.
    + rewrite Forall_forall in Hget. apply Hget. now apply list_elem_of_In.
    + pose proof (chain_candidates _ _ _ _ _ Hres) as Hc.
      rewrite Forall_forall in Hc.
      destruct (Hc (op_version op)) as (_ & q & Hq & Hhi & Hlo).
      { apply list_elem_of_In. now apply in_map. }
      eauto.
  - intros i j opi opj qi qj Hij Hi Hj Hqi Hqj.
    assert (Hc : candidate false qi qb qj).
    { eapply (chain_ordered _ _ _ _ _ Hres i j); eauto;
        rewrite list_lookup_fmap; [rewrite Hi|rewrite Hj]; reflexivity. }
    now destruct Hc as [Hc _].
Qed.

Lemma plan_descending_within_range_witness :
  exists plan,
    get_version_operations 4 sample_store "1.21" "1.19.4" = Ok plan /\
    (forall op, In op plan ->
       dict_get (op_version op) sample_configs = Some (op_config op) /\
       exists q, version_num (op_version op) = Ok q /\
                 (194 # 10 <= q)%Q /\ (q < 21 # 1)%Q) /\
    (forall (i j : nat) opi opj qi qj,
       (i < j)%nat ->
       plan !! i = Some opi -> plan !! j = Some opj ->
       version_num (op_version opi) = Ok qi ->
       version_num (op_version opj) = Ok qj ->
       (qj < qi)%Q).
Proof.
  apply (plan_descending_within_range sample_store sample_configs
           "1.21" "1.19.4" (21 # 1) (194 # 10) 4).
  - reflexivity.
  - exact sample_all_keys.
  - reflexivity.
  - reflexivity.
  - reflexivity.
  - simpl. lia.
Defined.

Lemma chain_NoDup ascending tgt (configs : dict config) qc ext :
  chain ascending tgt configs qc ext -> NoDup ext.
Proof.
  intros Hch. apply NoDup_alt. intros i j v Hi Hj.
  pose proof (chain_candidates _ _ _ _ _ Hch) as Hall.
  rewrite Forall_forall in Hall.
  destruct (Hall v) as (_ & q & Hq & _).
  { eapply list_elem_of_lookup_2. eassumption. }
  destruct (lt_eq_lt_dec i j) as [[Hlt | ->] | Hgt]; [|reflexivity|].
  - exfalso. eapply candidate_irrefl.
    apply (chain_ordered _ _ _ _ _ Hch i j v v q q Hlt Hi Hj Hq Hq).
  - exfalso. eapply candidate_irrefl.
    apply (chain_ordered _ _ _ _ _ Hch j i v v q q Hgt Hj Hi Hq Hq).
Qed.

(** X2.  In either direction a plan lists no version twice. *)
Theorem plan_lists_no_version_twice (config_dir : config_store)
    (configs : dict config) (source target : string) (qs qt : Q) (fuel : nat) :
  load_version_configs config_dir = Ok configs ->
  all_keys configs ->
  version_num source = Ok qs ->
  version_num target = Ok qt ->
  (length configs < fuel)%nat ->
  exists plan,
    get_version_operations fuel config_dir source target = Ok plan /\
    NoDup (map op_version plan).
Proof.
  intros Hload Hall Hs Ht Hfuel.
  destruct (get_version_operations_resolved config_dir configs source target
              qs qt fuel Hload Hall Hs Ht Hfuel) as (plan & E & Hres & Hget).
  exists plan. split; [exact E|].
  eapply chain_NoDup, resolved_chain, Hres.
Qed.

Lemma plan_lists_no_version_twice_witness :
  exists plan,
    get_version_operations 4 sample_store "1.21" "1.19.4" = Ok plan /\
    NoDup (map op_version plan).
Proof.
  apply (plan_lists_no_version_twice sample_store sample_configs
           "1.21" "1.19.4" (21 # 1) (194 # 10) 4).
  - reflexivity.
  - exact sample_all_keys.
  - reflexivity.
  - reflexivity.
  - simpl. lia.
Defined.

(** X3.  A plan skips nothing: every registered version whose key lies
    between the source and the target (the target's key included, the
    source's not) has its key on the plan.  Of several registered versions
    with equal keys the plan has one. *)
Theorem plan_covers_every_key_between (config_dir : config_store)
    (configs : dict config) (source target : string) (qs qt : Q) (fuel : nat) :
  load_version_configs config_dir = Ok configs ->
  all_keys configs ->
  version_num source = Ok qs ->
  version_num target = Ok qt ->
  (length configs < fuel)%nat ->
  exists plan,
    get_version_operations fuel config_dir source target = Ok plan /\
    forall version c q,
      In (version, c) configs ->
      version_num version = Ok q ->
      candidate (Qlt_bool qs qt) qs qt q ->
      exists op q',
        In op plan /\ version_num (op_version op) = Ok q' /\ (q' == q)%Q.
Proof.
  intros Hload Hall Hs Ht Hfuel.
  destruct (get_version_operations_resolved config_dir configs source target
              qs qt fuel Hload Hall Hs Ht Hfuel) as (plan & E & Hres & Hget).
  exists plan. split; [exact E|].
  intros version c q Hin Hq Hcand.
  destruct (resolved_complete _ _ _ _ _ Hres (version, c) q Hin Hq Hcand)
    as (v & q' & Hv & Hq' & Heq).
  apply in_map_iff in Hv. destruct Hv as (op & <- & Hop).
  exists op, q'. auto.
Qed.

Lemma plan_covers_every_key_between_witness :
  exists plan,
    get_version_operations 4 sample_store "1.19.4" "1.21" = Ok plan /\
    forall version c q,
      In (version, c) sample_configs ->
      version_num version = Ok q ->
      candidate (Qlt_bool (194 # 10) (21 # 1)) (194 # 10) (21 # 1) q ->
      exists op q',
        In op plan /\ version_num (op_version op) = Ok q' /\ (q' == q)%Q.
Proof.
  apply (plan_covers_every_key_between sample_store sample_configs
           "1.19.4" "1.21" (194 # 10) (21 # 1) 4).
  - reflexivity.
  - exact sample_all_keys.
  - reflexivity.
  - reflexivity.
  - simpl. lia.
Defined.

(** X4.  When a version with the target's key is registered and the source
    has another key, the plan is not empty and its last entry has the
    target's key: the conversion arrives. *)
Theorem plan_ends_on_registered_target (config_dir : config_store)
    (configs : dict config) (source target : string) (qs qt : Q) (fuel : nat)
    (version : string) (c : config) (q : Q) :
  load_version_configs config_dir = Ok configs ->
  all_keys configs ->
  version_num source = Ok qs ->
  version_num target = Ok qt ->
  (length configs < fuel)%nat ->
  ~ (qs == qt)%Q ->
  In (version, c) configs ->
  version_num version = Ok q ->
  (q == qt)%Q ->
  exists plan op q',
    get_version_operations fuel config_dir source target = Ok plan /\
    last plan = Some op /\
    version_num (op_version op) = Ok q' /\ (q' == qt)%Q.
Proof.
  intros Hload Hall Hs Ht Hfuel Hne Hin Hq Heq.
  destruct (get_version_operations_resolved config_dir configs source target
              qs qt fuel Hload Hall Hs Ht Hfuel) as (plan & E & Hres & Hget).
  destruct (resolved_reaches _ _ _ _ _ Hres (short_of_initial qs qt Hne))
    as (v & q' & Hlast & Hq' & Heq').
  { exists (version, c), q. auto. }
  rewrite fmap_last in Hlast.
  destruct (last plan) as [op|] eqn:El; [|discriminate].
  injection Hlast as <-.
  exists plan, op, q'. auto.
Qed.

Lemma plan_ends_on_registered_target_witness :
  exists plan op q',
    get_version_operations 4 sample_store "1.19.4" "1.21" = Ok plan /\
    last plan = Some op /\
    version_num (op_version op) = Ok q' /\ (q' == 21 # 1)%Q.
Proof.
  apply (plan_ends_on_registered_target sample_store sample_configs
           "1.19.4" "1.21" (194 # 10) (21 # 1) 4 "1.21" empty_config (21 # 1)).
  - reflexivity.
  - exact sample_all_keys.
  - reflexivity.
  - reflexivity.
  - simpl. lia.
  - intros H. discriminate H.
  - right. right. now left.
  - reflexivity.
  - reflexivity.
Defined.

(** X5.  Source and target with the same key give the empty plan: the
    loop body never runs, so this holds whatever is registered, names
    without a key included. *)
Theorem same_key_gives_empty_plan (config_dir : config_store)
    (configs : dict config) (source target : string) (qs qt : Q) (fuel : nat) :
  load_version_configs config_dir = Ok configs ->
  version_num source = Ok qs ->
  version_num target = Ok qt ->
  (qs == qt)%Q ->
  (0 < fuel)%nat ->
  get_version_operations fuel config_dir source target = Ok [].
Proof.
  intros Hload Hs Ht Heq Hfuel.
  unfold get_version_operations, resolve. rewrite Hload. simpl.
  rewrite Hs, Ht. simpl.
  destruct fuel as [|fuel]; [lia|]. simpl. rewrite Hs. simpl.
  apply Qeq_bool_iff in Heq. rewrite Heq. reflexivity.
Qed.

Lemma same_key_gives_empty_plan_witness :
  get_version_operations 1
    [ {| file_name := "notes.json"; file_content := Document empty_config |} ]
    "1.20" "1.20.0" = Ok [].
Proof.
  apply (same_key_gives_empty_plan _ [("notes", empty_config)]
           "1.20" "1.20.0" (20 # 1) (200 # 10) 1).
  - reflexivity.
  - reflexivity.
  - reflexivity.
  - reflexivity.
  - lia.
Defined.

Lemma for_each_select_raises ascending cur tgt (configs : dict config) :
  forall st item,
  In item configs ->
  version_num (fst item) = Raise ValueError ->
  for_each (select_step ascending cur tgt) configs st = Raise ValueError.
Proof.
  induction configs as [|x configs IH]; intros st item Hin Hbad;
    [contradiction|].
  simpl. unfold select_step at 1.
  destruct (version_num_raises (fst x)) as [[q Hq] | Hx].
  - rewrite Hq. simpl.
    destruct Hin as [-> | Hin]; [congruence|].
    destruct ascending;
      match goal with
      | |- context [if ?b then _ else _] => destruct b
      end; simpl; eapply IH; eassumption.
  - rewrite Hx. reflexivity.
Qed.

Lemma is_letter_not_digit (c : ascii) :
  is_letter c = true -> is_digit c = false.
Proof.
  unfold is_letter, is_digit. intros H. apply andb_false_iff.
  apply orb_true_iff in H. destruct H as [H|H];
    apply andb_true_iff in H; destruct H as [H1 H2];
    apply Nat.leb_le in H1, H2; right; apply Nat.leb_gt; lia.
Qed.

Lemma holds_cons (P : ascii -> bool) (c : ascii) (s : string) :
  holds P (String c s) = P c || holds P s.
Proof. reflexivity. Qed.

Lemma holds_foreign_letter (s : string) :
  holds foreign_letter s = true -> holds is_letter s = true.
Proof.
  induction s as [|c s IH]; [discriminate|]. rewrite !holds_cons.
  intros H. apply orb_true_iff in H. apply orb_true_iff.
  destruct H as [H|H]; [left|right; now apply IH].
  unfold foreign_letter in H. now apply andb_true_iff in H.
Qed.

Lemma read_digits_keeps_letter (s : string) : forall acc n,
  holds is_letter s = true ->
  holds is_letter (snd (read_digits s acc n)) = true.
Proof.
  induction s as [|c s IH]; intros acc n H; [discriminate|].
  cbn [read_digits]. destruct (is_digit c) eqn:Ed; [|exact H].
  apply IH. rewrite holds_cons in H. apply orb_true_iff in H.
  destruct H as [H|H]; [|exact H].
  apply is_letter_not_digit in H. congruence.
Qed.

(** [float] of a string with a letter in it, in the model as in Python
    when the letter is foreign. *)
Lemma float_of_string_letter (s : string) :
  holds is_letter s = true -> float_of_string s = Raise ValueError.
Proof.
  intros H. unfold float_of_string.
  pose proof (read_digits_keeps_letter s 0 0 H) as H1.
  destruct (read_digits s 0 0) as [[ip ni] r1]. cbn [snd] in H1.
  destruct r1 as [|c r2]; [discriminate|].
  destruct (Ascii.eqb_spec c "."%char) as [-> | Hne].
  - change (holds is_letter (String "." r2)) with (holds is_letter r2) in H1.
    pose proof (read_digits_keeps_letter r2 ip 0 H1) as H2.
    destruct (read_digits r2 ip 0) as [[m nf] r3]. cbn [snd] in H2.
    destruct r3; [discriminate|reflexivity].
  - destruct c as [[] [] [] [] [] [] [] []]; try reflexivity.
    now destruct Hne.
Qed.

Lemma replace_keeps_letter_upto (n : nat) : forall s,
  (String.length s <= n)%nat ->
  holds is_letter s = true ->
  holds is_letter (replace "1." "" s) = true.
Proof.
  unfold replace. induction n as [|n IH]; intros s Hlen H.
  { destruct s; [discriminate|]. simpl in Hlen. lia. }
  destruct s as [|c s]; [discriminate|].
  change (replace_from "1." "" 0 (String c s))
    with (if String.prefix "1." (String c s)
          then ("" ++ replace_from "1." "" (String.length "1." - 1) s)%string
          else String c (replace_from "1." "" 0 s)).
  destruct (String.prefix "1." (String c s)) eqn:Ep.
  - cbn [String.prefix] in Ep.
    destruct (ascii_dec "1" c) as [<-|]; [|discriminate].
    destruct s as [|d s]; [discriminate|]. cbn [String.prefix] in Ep.
    destruct (ascii_dec "." d) as [<-|]; [|discriminate].
    change ("" ++ replace_from "1." "" (String.length "1." - 1)
                    (String "." s))%string
      with (replace_from "1." "" 0 s).
    change (holds is_letter (String "1" (String "." s)))
      with (holds is_letter s) in H.
    apply IH; [|exact H]. cbn [String.length] in Hlen. lia.
  - rewrite holds_cons in *. apply orb_true_iff in H. apply orb_true_iff.
    destruct H as [H|H]; [now left|right].
    apply IH; [|exact H]. cbn [String.length] in Hlen. lia.
Qed.

Lemma replace_keeps_letter (s : string) :
  holds is_letter s = true -> holds is_letter (replace "1." "" s) = true.
Proof. apply (replace_keeps_letter_upto (String.length s)). lia. Qed.

Lemma version_num_letter (version : string) :
  holds is_letter version = true -> version_num version = Raise ValueError.
Proof.
  intros H. apply float_of_string_letter. now apply replace_keeps_letter.
Qed.

(** X6.  One registered name that [float()] cannot read, such as a stray
    [notes.json] in the configuration directory, makes every resolution
    between versions with different keys raise [ValueError].  The name
    is one that holds a letter other than those of [inf], [infinity],
    [nan] and the exponent mark. *)
Theorem stray_record_name_breaks_resolution (config_dir : config_store)
    (configs : dict config) (source target : string) (qs qt : Q) (fuel : nat)
    (version : string) (c : config) :
  load_version_configs config_dir = Ok configs ->
  version_num source = Ok qs ->
  version_num target = Ok qt ->
  ~ (qs == qt)%Q ->
  In (version, c) configs ->
  holds foreign_letter version = true ->
  (0 < fuel)%nat ->
  get_version_operations fuel config_dir source target = Raise ValueError.
Proof.
  intros Hload Hs Ht Hne Hin Hbad Hfuel.
  apply holds_foreign_letter, version_num_letter in Hbad.
  unfold get_version_operations, resolve. rewrite Hload. simpl.
  rewrite Hs, Ht. simpl.
  destruct fuel as [|fuel]; [lia|]. simpl. rewrite Hs. simpl.
  destruct (Qeq_bool qs qt) eqn:E.
  { apply Qeq_bool_iff in E. contradiction. }
  rewrite (for_each_select_raises _ _ _ configs _ (version, c) Hin Hbad).
  reflexivity.
Qed.

Lemma stray_record_name_breaks_resolution_witness :
  get_version_operations 1
    [ {| file_name := "1.20.json"; file_content := Document empty_config |};
      {| file_name := "notes.json"; file_content := Document empty_config |} ]
    "1.19.4" "1.20" = Raise ValueError.
Proof.
  apply (stray_record_name_breaks_resolution _
           [("1.20", empty_config); ("notes", empty_config)]
           "1.19.4" "1.20" (194 # 10) (20 # 1) 1 "notes" empty_config).
  - reflexivity.
  - reflexivity.
  - reflexivity.
  - intros H. discriminate H.
  - right. now left.
  - reflexivity.
  - lia.
Defined.

(** ** The loaded registry *)

Lemma dict_get_set_ne {V} (k k' : string) (v : V) (d : dict V) :
  k <> k' -> dict_get k' (dict_set k v d) = dict_get k' d.
Proof.
  intros Hne. induction d as [|[k0 v0] d IH]; simpl.
  - destruct (String.eqb_spec k k'); [contradiction|reflexivity].
  - destruct (String.eqb_spec k0 k) as [-> | Hk0]; simpl.
    + destruct (String.eqb_spec k k'); [contradiction|reflexivity].
    + destruct (String.eqb k0 k'); [reflexivity|exact IH].
Qed.

Lemma dict_set_keys {V} (k : string) (v : V) (d : dict V) :
  (In k (map fst d) -> map fst (dict_set k v d) = map fst d) /\
  (~ In k (map fst d) -> map fst (dict_set k v d) = map fst d ++ [k]).
Proof.
  induction d as [|[k0 v0] d [IH1 IH2]]; simpl.
  - split; [contradiction|reflexivity].
  - destruct (String.eqb_spec k0 k) as [-> | Hk0]; simpl.
    + split; [reflexivity|tauto].
    + split.
      * intros [H | H]; [contradiction|]. now rewrite IH1.
      * intros H. rewrite IH2 by tauto. reflexivity.
Qed.

Lemma dict_set_NoDup {V} (k : string) (v : V) (d : dict V) :
  NoDup (map fst d) -> NoDup (map fst (dict_set k v d)).
Proof.
  intros Hd. destruct (dict_set_keys k v d) as [H1 H2].
  destruct (in_dec string_dec k (map fst d)) as [Hin | Hout].
  - now rewrite H1.
  - rewrite H2 by assumption.
    apply NoDup_app. split; [assumption|]. split.
    + intros x Hx Hk. apply list_elem_of_In in Hx.
      apply list_elem_of_singleton in Hk. subst. contradiction.
    + apply NoDup_singleton.
Qed.

Lemma load_from (files : config_store) : forall (acc configs : dict config),
  for_each
    (fun configs file =>
       if endswith (file_name file) ".json" then
         let version := replace ".json" "" (file_name file) in
         try! c := json_load file in
         Ok (dict_set version c configs)
       else Ok configs)
    files acc = Ok configs ->
  (NoDup (map fst acc) -> NoDup (map fst configs)) /\
  (forall version,
     dict_get version configs
     = match latest_document files version with
       | Some c => Some c
       | None => dict_get version acc
       end) /\
  Forall (fun f => fails_to_load f = false) files.
Proof.
  induction files as [|f files IH]; intros acc configs Hrun; simpl in Hrun.
  - injection Hrun as <-. split; [auto|]. split; [reflexivity|constructor].
  - unfold fails_to_load, version_of_file. simpl.
    destruct (endswith (file_name f) ".json") eqn:Ejson; simpl in *.
    + unfold json_load in Hrun.
      destruct (file_content f) as [| |c] eqn:Ec; simpl in Hrun;
        try discriminate.
      destruct (IH _ _ Hrun) as (Hnd & Hget & Hall).
      split; [|split].
      * intros Hacc. apply Hnd. now apply dict_set_NoDup.
      * intros version. rewrite Hget.
        destruct (latest_document files version); [reflexivity|].
        unfold version_of_file.
        destruct (String.eqb_spec (replace ".json" "" (file_name f)) version)
          as [<- | Hne].
        -- apply dict_get_set_eq.
        -- now apply dict_get_set_ne.
      * constructor; [|assumption]. unfold fails_to_load.
        rewrite Ejson, Ec. reflexivity.
    + destruct (IH _ _ Hrun) as (Hnd & Hget & Hall).
      split; [assumption|]. split.
      * intros version. rewrite Hget.
        destruct (latest_document files version); reflexivity.
      * constructor; [|assumption]. unfold fails_to_load.
        rewrite Ejson. reflexivity.
Qed.

Lemma latest_document_In (files : config_store) (version : string) (c : config) :
  latest_document files version = Some c ->
  exists f, In f files /\ endswith (file_name f) ".json" = true /\
            version_of_file f = version /\ file_content f = Document c.
Proof.
  induction files as [|f files IH]; simpl; [discriminate|].
  destruct (latest_document files version) as [c'|].
  - intros [= <-]. destruct (IH eq_refl) as (g & Hg & H). exists g. tauto.
  - destruct (endswith (file_name f) ".json") eqn:Ejson; simpl; [|discriminate].
    destruct (String.eqb_spec (version_of_file f) version) as [Heq | _];
      [|discriminate].
    destruct (file_content f) as [| |c'] eqn:Ec; try discriminate.
    intros [= <-]. exists f. auto.
Qed.

(** X7.  What [load_version_configs] returns when it returns: no version
    name twice; under each name the document of the last [.json] file of
    the directory with that name, and nothing under other names; so every
    entry comes from a [.json] file that loads, files with another
    extension are ignored, and every [.json] file of the directory
    loaded. *)
Theorem load_version_configs_returns (config_dir : config_store)
    (configs : dict config) :
  load_version_configs config_dir = Ok configs ->
  NoDup (map fst configs) /\
  (forall version,
     dict_get version configs = latest_document config_dir version) /\
  (forall version c,
     In (version, c) configs ->
     exists f, In f config_dir /\ endswith (file_name f) ".json" = true /\
               version_of_file f = version /\ file_content f = Document c) /\
  Forall (fun f => fails_to_load f = false) config_dir.
Proof.
  intros Hload. unfold load_version_configs in Hload.
  destruct (load_from config_dir [] configs Hload) as (Hnd & Hget & Hall).
  specialize (Hnd (NoDup_nil_2)).
  assert (Hlatest : forall version,
             dict_get version configs = latest_document config_dir version).
  { intros version. rewrite Hget.
    destruct (latest_document config_dir version); reflexivity. }
  split; [exact Hnd|]. split; [exact Hlatest|]. split; [|exact Hall].
  intros version c Hin. apply latest_document_In. rewrite <- Hlatest.
  clear - Hnd Hin. induction configs as [|[k v] configs IH]; [contradiction|].
  simpl in *. apply NoDup_cons in Hnd. destruct Hnd as [Hk Hnd].
  destruct Hin as [[= -> ->] | Hin].
  - now rewrite String.eqb_refl.
  - destruct (String.eqb_spec k version) as [-> | Hne]; [|now apply IH].
    exfalso. apply Hk. apply list_elem_of_In.
    change version with (fst (version, c)). now apply in_map.
Qed.

Lemma load_version_configs_returns_witness :
  NoDup (map fst sample_configs) /\
  (forall version,
     dict_get version sample_configs = latest_document sample_store version) /\
  (forall version c,
     In (version, c) sample_configs ->
     exists f, In f sample_store /\ endswith (file_name f) ".json" = true /\
               version_of_file f = version /\ file_content f = Document c) /\
  Forall (fun f => fails_to_load f = false) sample_store.
Proof.
  apply (load_version_configs_returns sample_store sample_configs).
  reflexivity.
Defined.

(** ** The list of available versions *)

Lemma scan_versions_spec (config_dir : config_store) :
  forall (versions : gset string) (console : list diagnostic),
  (forall v, v ∈ fst (scan_versions config_dir versions console)
             <-> v ∈ versions \/ declared config_dir v) /\
  snd (scan_versions config_dir versions console)
  = console ++ map diagnostic_of (List.filter fails_to_load config_dir).
Proof.
  induction config_dir as [|f files IH]; intros versions console; simpl.
  - split; [|now rewrite app_nil_r].
    intros v. split; [tauto|]. intros [H | (f & c & vs & [] & _)]. exact H.
  - assert (Hskip : forall P : Prop,
              (forall c vs, endswith (file_name f) ".json" = true ->
                            file_content f = Document c ->
                            cfg_versions c = Some vs -> False) ->
              forall v, (v ∈ versions \/ declared files v)
                        <-> (v ∈ versions \/ declared (f :: files) v)).
    { intros _ Hno v. split.
      - intros [H | (g & c & vs & Hg & H)]; [tauto|].
        right. exists g, c, vs. split; [now right|exact H].
      - intros [H | (g & c & vs & [Heq | Hg] & Hj & Hc & Hvs & Hv)]; [tauto| |].
        + subst g. exfalso. eapply Hno; eassumption.
        + right. exists g, c, vs. auto. }
    unfold fails_to_load at 1.
    destruct (endswith (file_name f) ".json") eqn:Ejson; simpl.
    2:{ destruct (IH versions console) as [Hin Hout]. split; [|exact Hout].
        intros v. rewrite Hin. apply (Hskip True). intros; congruence. }
    unfold json_load.
    destruct (file_content f) as [| |c] eqn:Ec; simpl.
    + destruct (IH versions
                  (console ++ [{| diag_file := file_name f;
                                  diag_error := OSError |}]))
        as [Hin Hout].
      split.
      * intros v. rewrite Hin. apply (Hskip True). intros; congruence.
      * rewrite Hout, <- app_assoc. simpl. do 2 f_equal.
        unfold diagnostic_of, load_error. now rewrite Ec.
    + destruct (IH versions
                  (console ++ [{| diag_file := file_name f;
                                  diag_error := JSONDecodeError |}]))
        as [Hin Hout].
      split.
      * intros v. rewrite Hin. apply (Hskip True). intros; congruence.
      * rewrite Hout, <- app_assoc. simpl. do 2 f_equal.
        unfold diagnostic_of, load_error. now rewrite Ec.
    + destruct (cfg_versions c) as [vs|] eqn:Evs.
      * destruct (IH (versions ∪ list_to_set vs) console) as [Hin Hout].
        split; [|exact Hout].
        intros v. rewrite Hin, elem_of_union, elem_of_list_to_set. split.
        -- intros [[H | H] | (g & c' & vs' & Hg & H)].
           ++ now left.
           ++ right. exists f, c, vs. split; [now left|].
              repeat split; try assumption. now apply list_elem_of_In.
           ++ right. exists g, c', vs'. split; [now right|exact H].
        -- intros [H | (g & c' & vs' & [Heq | Hg] & Hj & Hc & Hvs & Hv)].
           ++ tauto.
           ++ left. right. subst g. rewrite Ec in Hc. injection Hc as Hc.
              subst c'. rewrite Evs in Hvs. injection Hvs as Hvs. subst vs'.
              now apply list_elem_of_In.
           ++ right. exists g, c', vs'. auto.
      * destruct (IH versions console) as [Hin Hout]. split; [|exact Hout].
        intros v. rewrite Hin. apply (Hskip True).
        intros c' vs' _ Hc Hvs. congruence.
Qed.

Lemma map_result_Ok {A B} (f : A -> result B) (xs : list A) (ys : list B) :
  map_result f xs = Ok ys -> Forall2 (fun x y => f x = Ok y) xs ys.
Proof.
  revert ys. induction xs as [|x xs IH]; intros ys; simpl.
  - intros [= <-]. constructor.
  - destruct (f x) as [y| |] eqn:E; simpl; try discriminate.
    destruct (map_result f xs) as [ys'| |]; simpl; try discriminate.
    intros [= <-]. constructor; auto.
Qed.

Lemma insert_desc_perm (x : list Z * string) (l : list (list Z * string)) :
  insert_desc x l ≡ₚ x :: l.
Proof.
  induction l as [|y l IH]; simpl; [reflexivity|].
  destruct (list_ltb (fst y) (fst x)); [reflexivity|].
  rewrite IH. apply Permutation_swap.
Qed.

Lemma sorted_desc_perm (l : list (list Z * string)) : sorted_desc l ≡ₚ l.
Proof.
  unfold sorted_desc.
  assert (H : forall acc, fold_left (fun acc x => insert_desc x acc) l acc
                          ≡ₚ acc ++ l).
  { induction l as [|x l IH]; intros acc; simpl.
    - now rewrite app_nil_r.
    - rewrite IH, insert_desc_perm. simpl. apply Permutation_middle. }
  apply H.
Qed.

Lemma list_ltb_irrefl (a : list Z) : list_ltb a a = false.
Proof.
  induction a as [|x a IH]; simpl; [reflexivity|].
  rewrite Z.ltb_irrefl, Z.eqb_refl, IH. reflexivity.
Qed.

Lemma list_ltb_trans (a : list Z) : forall b c,
  list_ltb a b = true -> list_ltb b c = true -> list_ltb a c = true.
Proof.
  induction a as [|x a IH]; intros [|y b] [|z c]; simpl; try discriminate;
    try reflexivity.
  rewrite !orb_true_iff, !andb_true_iff, !Z.ltb_lt, !Z.eqb_eq.
  intros [H1 | [H1 H1']] [H2 | [H2 H2']].
  - left. lia.
  - left. lia.
  - left. lia.
  - right. split; [lia|]. eapply IH; eassumption.
Qed.

Lemma list_ltb_asym (a b : list Z) :
  list_ltb a b = true -> list_ltb b a = false.
Proof.
  intros H. destruct (list_ltb b a) eqn:E; [|reflexivity].
  pose proof (list_ltb_trans _ _ _ H E) as Hc.
  rewrite list_ltb_irrefl in Hc. discriminate.
Qed.

Lemma descending_cons (x : list Z * string) (l : list (list Z * string)) :
  descending (x :: l)
  <-> Forall (fun y => list_ltb (fst x) (fst y) = false) l /\ descending l.
Proof.
  unfold descending. split.
  - intros H. split.
    + apply Forall_lookup. intros j b Hb.
      apply (H 0%nat (S j) x b); [lia|reflexivity|exact Hb].
    + intros i j a b Hij Ha Hb. apply (H (S i) (S j) a b); [lia|exact Ha|exact Hb].
  - intros [Hx Hl] i j a b Hij Ha Hb.
    destruct j as [|j]; [lia|]. simpl in Hb.
    destruct i as [|i]; simpl in Ha.
    + injection Ha as <-. rewrite Forall_lookup in Hx. eapply Hx. eassumption.
    + apply (Hl i j a b); [lia|exact Ha|exact Hb].
Qed.

Lemma insert_desc_descending (x : list Z * string)
    (l : list (list Z * string)) :
  descending l -> descending (insert_desc x l).
Proof.
  induction l as [|y l IH]; intros Hl; simpl.
  - apply descending_cons. split; [constructor|].
    intros i j a b _ Ha. discriminate.
  - apply descending_cons in Hl. destruct Hl as [Hy Hl].
    destruct (list_ltb (fst y) (fst x)) eqn:E.
    + apply descending_cons. split.
      * constructor; [now apply list_ltb_asym|].
        eapply Forall_impl; [exact Hy|]. simpl. intros z Hz.
        destruct (list_ltb (fst x) (fst z)) eqn:Exz; [|reflexivity].
        rewrite (list_ltb_trans _ _ _ E Exz) in Hz. discriminate.
      * apply descending_cons. auto.
    + apply descending_cons. split; [|auto].
      rewrite (insert_desc_perm x l). constructor; assumption.
Qed.

Lemma sorted_desc_descending (l : list (list Z * string)) :
  descending (sorted_desc l).
Proof.
  unfold sorted_desc.
  assert (H : forall acc, descending acc ->
                descending (fold_left (fun acc x => insert_desc x acc) l acc)).
  { induction l as [|x l IH]; intros acc Hacc; simpl; [assumption|].
    apply IH. now apply insert_desc_descending. }
  apply H. intros i j a b _ Ha. discriminate.
Qed.

Lemma combine_keys_snd {A B} (R : A -> B -> Prop) (l : list A) (keys : list B) :
  Forall2 R l keys -> map snd (combine keys l) = l.
Proof. induction 1; simpl; [reflexivity|]. now f_equal. Qed.

Lemma combine_keys_Forall (l : list string) (keys : list (list Z)) :
  Forall2 (fun x y => sort_key x = Ok y) l keys ->
  Forall (fun kv => sort_key (snd kv) = Ok (fst kv)) (combine keys l).
Proof. induction 1; simpl; constructor; auto. Qed.

Lemma available_versions_Ok (config_dir : config_store) (l : list string) :
  fst (get_available_versions config_dir) = Ok l ->
  exists sorted : list (list Z * string),
    l = map snd sorted /\
    descending sorted /\
    Forall (fun kv => sort_key (snd kv) = Ok (fst kv)) sorted /\
    map snd sorted ≡ₚ elements (fst (scan_versions config_dir ∅ [])).
Proof.
  unfold get_available_versions.
  destruct (scan_versions config_dir ∅ []) as [versions console]. simpl.
  destruct (map_result sort_key (elements versions)) as [keys| |] eqn:E;
    simpl; try discriminate.
  intros [= <-]. apply map_result_Ok in E.
  exists (sorted_desc (combine keys (elements versions))).
  split; [reflexivity|]. split; [apply sorted_desc_descending|]. split.
  - rewrite (sorted_desc_perm (combine keys (elements versions))).
    now apply combine_keys_Forall.
  - rewrite (sorted_desc_perm (combine keys (elements versions))).
    now rewrite (combine_keys_snd _ _ _ E).
Qed.

(** X8.  [get_available_versions] is not stopped by records that fail to
    load: it prints one diagnostic for each [.json] file that cannot be
    read or parsed, in directory order, and when it returns a list, the
    list holds the versions declared by the records that load, each once. *)
Theorem available_versions_are_the_declared (config_dir : config_store) :
  snd (get_available_versions config_dir)
  = map diagnostic_of (List.filter fails_to_load config_dir) /\
  forall l,
    fst (get_available_versions config_dir) = Ok l ->
    NoDup l /\ forall v, In v l <-> declared config_dir v.
Proof.
  destruct (scan_versions_spec config_dir ∅ []) as [Hin Hout].
  split.
  - unfold get_available_versions.
    destruct (scan_versions config_dir ∅ []) as [versions console].
    simpl in *. exact Hout.
  - intros l Hl.
    destruct (available_versions_Ok config_dir l Hl)
      as (sorted & -> & _ & _ & Hperm).
    split.
    + rewrite Hperm. apply NoDup_elements.
    + intros v. rewrite <- list_elem_of_In, Hperm, elem_of_elements, Hin.
      split; [|tauto]. intros [H | H]; [|exact H].
      now apply not_elem_of_empty in H.
Qed.

(** X9.  The list [get_available_versions] returns is in descending order
    of the sort keys: no version comes before one with a greater key. *)
Theorem available_versions_descend (config_dir : config_store)
    (l : list string) :
  fst (get_available_versions config_dir) = Ok l ->
  forall (i j : nat) vi vj ki kj,
    (i < j)%nat ->
    l !! i = Some vi -> l !! j = Some vj ->
    sort_key vi = Ok ki -> sort_key vj = Ok kj ->
    list_ltb ki kj = false.
Proof.
  intros Hl i j vi vj ki kj Hij Hi Hj Hki Hkj.
  destruct (available_versions_Ok config_dir l Hl)
    as (sorted & -> & Hdesc & Hkeys & _).
  rewrite list_lookup_fmap in Hi, Hj.
  destruct (sorted !! i) as [[ki' vi']|] eqn:Ei; [|discriminate].
  destruct (sorted !! j) as [[kj' vj']|] eqn:Ej; [|discriminate].
  simpl in Hi, Hj. injection Hi as ->. injection Hj as ->.
  rewrite Forall_lookup in Hkeys.
  pose proof (Hkeys i _ Ei) as Hi'. pose proof (Hkeys j _ Ej) as Hj'.
  simpl in Hi', Hj'. rewrite Hki in Hi'. rewrite Hkj in Hj'.
  injection Hi' as ->. injection Hj' as ->.
  apply (Hdesc i j _ _ Hij Ei Ej).
Qed.

Lemma available_versions_descend_witness :
  list_ltb [20; 2]%Z [20; 1]%Z = false.
Proof.
  apply (available_versions_descend broken_store ["1.20.2"; "1.20.1"]
           ltac:(vm_compute; reflexivity) 0%nat 1%nat "1.20.2" "1.20.1").
  - lia.
  - reflexivity.
  - reflexivity.
  - reflexivity.
  - reflexivity.
Defined.

Lemma int_of_string_raises (s : string) :
  (exists n, int_of_string s = Ok n) \/ int_of_string s = Raise ValueError.
Proof.
  unfold int_of_string.
  destruct (read_digits s 0 0) as [[n [|k]] [|c r]]; eauto.
Qed.

Lemma map_result_raises {A B} (f : A -> result B) (xs : list A) (x : A) :
  (forall y, (exists b, f y = Ok b) \/ f y = Raise ValueError) ->
  In x xs -> f x = Raise ValueError ->
  map_result f xs = Raise ValueError.
Proof.
  intros Hf Hin Hx. induction xs as [|y xs IH]; [contradiction|]. simpl.
  destruct (Hf y) as [[b Hb] | Hy].
  - rewrite Hb. simpl. destruct Hin as [-> | Hin]; [congruence|].
    now rewrite (IH Hin).
  - now rewrite Hy.
Qed.

Lemma map_result_total {A B} (f : A -> result B) (xs : list A) :
  (forall y, (exists b, f y = Ok b) \/ f y = Raise ValueError) ->
  (exists ys, map_result f xs = Ok ys) \/ map_result f xs = Raise ValueError.
Proof.
  intros Hf. induction xs as [|y xs IH]; simpl; [eauto|].
  destruct (Hf y) as [[b ->] | ->]; simpl; [|auto].
  destruct IH as [[ys ->] | ->]; simpl; eauto.
Qed.

Lemma sort_key_raises (x : string) :
  (exists k, sort_key x = Ok k) \/ sort_key x = Raise ValueError.
Proof. apply map_result_total, int_of_string_raises. Qed.

Lemma int_of_string_letter (s : string) :
  holds is_letter s = true -> int_of_string s = Raise ValueError.
Proof.
  intros H. unfold int_of_string.
  pose proof (read_digits_keeps_letter s 0 0 H) as H1.
  destruct (read_digits s 0 0) as [[n k] r]. cbn [snd] in H1.
  destruct r; [discriminate|]. now destruct k.
Qed.

Lemma split_dot_keeps_letter (s : string) :
  holds is_letter s = true ->
  exists x, In x (split_dot s) /\ holds is_letter x = true.
Proof.
  induction s as [|c s IH]; [discriminate|]. intros H.
  cbn [split_dot]. destruct (Ascii.eqb_spec c "."%char) as [-> | Hne].
  - change (holds is_letter (String "." s)) with (holds is_letter s) in H.
    destruct (IH H) as (x & Hin & Hx). exists x. split; [now right|exact Hx].
  - rewrite holds_cons in H.
    destruct (is_letter c) eqn:Ec.
    + destruct (split_dot s) as [|h t].
      * exists (String c EmptyString). split; [now left|].
        rewrite holds_cons, Ec. reflexivity.
      * exists (String c h). split; [now left|].
        rewrite holds_cons, Ec. reflexivity.
    + simpl in H. destruct (IH H) as (x & Hin & Hx).
      destruct (split_dot s) as [|h t]; [destruct Hin|].
      destruct Hin as [<- | Hin].
      * exists (String c h). split; [now left|].
        rewrite holds_cons, Ec. exact Hx.
      * exists x. split; [now right|exact Hx].
Qed.

Lemma sort_key_letter (v : string) :
  holds is_letter v = true -> sort_key v = Raise ValueError.
Proof.
  intros H. unfold sort_key.
  destruct (split_dot_keeps_letter _ (replace_keeps_letter v H))
    as (x & Hin & Hx).
  apply (map_result_raises int_of_string _ x int_of_string_raises Hin).
  now apply int_of_string_letter.
Qed.

(** X10.  The sort is outside the [try]: one declared version with a
    letter in it, such as [1.21-pre1], has a component that [int()]
    cannot read and makes [get_available_versions] raise [ValueError],
    after the diagnostics have been printed. *)
Theorem available_versions_raise_on_odd_version (config_dir : config_store)
    (v : string) :
  declared config_dir v ->
  holds is_letter v = true ->
  fst (get_available_versions config_dir) = Raise ValueError.
Proof.
  intros Hdecl Hbad. apply sort_key_letter in Hbad.
  destruct (scan_versions_spec config_dir ∅ []) as [Hin _].
  unfold get_available_versions.
  destruct (scan_versions config_dir ∅ []) as [versions console].
  simpl in *.
  rewrite (map_result_raises sort_key (elements versions) v sort_key_raises);
    [reflexivity| |exact Hbad].
  apply list_elem_of_In, elem_of_elements, Hin. now right.
Qed.

Lemma available_versions_raise_on_odd_version_witness :
  fst (get_available_versions
         [ {| file_name := "1.21.json";
              file_content :=
                Document {| cfg_versions := Some ["1.21"; "1.21-pre1"];
                            cfg_removed_files := [];
                            cfg_split_operations := [];
                            cfg_merge_operations := [];
                            cfg_transparency_operations := [] |} |} ])
  = Raise ValueError.
Proof.
  apply (available_versions_raise_on_odd_version _ "1.21-pre1").
  - eexists _, _, _. split; [now left|]. split; [reflexivity|].
    split; [reflexivity|]. split; [reflexivity|]. right. now left.
  - reflexivity.
Defined.

(** ** Version categories *)

(** X11.  [get_version_category] sorts every version with a key into one
    of three categories and never puts a version with a greater key into a
    lower category; everything up to 19.4, versions before 1.19 included,
    goes to "1.19", and everything above 20.6 to "1.21". *)
Theorem version_category_is_monotone (v1 v2 : string) (q1 q2 : Q) :
  version_num v1 = Ok q1 ->
  version_num v2 = Ok q2 ->
  (q1 <= q2)%Q ->
  exists c1 c2 k1 k2,
    get_version_category v1 = Ok c1 /\
    get_version_category v2 = Ok c2 /\
    In c1 ["1.19"; "1.20"; "1.21"] /\
    version_num c1 = Ok k1 /\ version_num c2 = Ok k2 /\ (k1 <= k2)%Q /\
    ((q1 <= 194 # 10)%Q -> c1 = "1.19") /\
    ((206 # 10 < q1)%Q -> c1 = "1.21").
Proof.
  intros H1 H2 Hle. unfold get_version_category.
  unfold version_num in H1, H2. rewrite H1, H2. simpl.
  destruct (Qle_bool q1 (194 # 10)) eqn:A1;
    [|destruct (Qle_bool q1 (206 # 10)) eqn:B1];
    (destruct (Qle_bool q2 (194 # 10)) eqn:A2;
     [|destruct (Qle_bool q2 (206 # 10)) eqn:B2]);
    repeat match goal with
           | H : Qle_bool _ _ = true |- _ => apply Qle_bool_iff in H
           | H : Qle_bool ?x ?y = false |- _ =>
               assert (~ (x <= y)%Q)
                 by (intros Hc; apply Qle_bool_iff in Hc; congruence);
               clear H
           end;
    try (exfalso; lra);
    do 4 eexists;
    (split; [reflexivity|]); (split; [reflexivity|]);
    (split; [simpl; tauto|]);
    (split; [reflexivity|]); (split; [reflexivity|]);
    (split; [vm_compute; congruence|]);
    (split; intros; try reflexivity; exfalso; lra).
Qed.

Lemma version_category_is_monotone_witness :
  exists c1 c2 k1 k2,
    get_version_category "1.16.5" = Ok c1 /\
    get_version_category "1.20.4" = Ok c2 /\
    In c1 ["1.19"; "1.20"; "1.21"] /\
    version_num c1 = Ok k1 /\ version_num c2 = Ok k2 /\ (k1 <= k2)%Q /\
    ((165 # 10 <= 194 # 10)%Q -> c1 = "1.19") /\
    ((206 # 10 < 165 # 10)%Q -> c1 = "1.21").
Proof.
  apply (version_category_is_monotone "1.16.5" "1.20.4" (165 # 10) (204 # 10)).
  - reflexivity.
  - reflexivity.
  - vm_compute. congruence.
Defined.

(** ** The format code and the detected version *)

Lemma version_format_inverse (v : string) (code : Z) :
  dict_get v version_format = Some code ->
  int_dict_get code format_to_version = Some v.
Proof.
  unfold version_format. cbn [dict_get].
  repeat match goal with
         | |- context [String.eqb ?a v] =>
             destruct (String.eqb_spec a v) as [<- | _];
             [intros [= <-]; reflexivity|]
         end.
  discriminate.
Qed.

Lemma format_to_version_inverse (v : string) (code : Z) :
  int_dict_get code format_to_version = Some v ->
  dict_get v version_format = Some code.
Proof.
  unfold format_to_version. cbn [int_dict_get].
  repeat match goal with
         | |- context [Z.eqb ?a code] =>
             destruct (Z.eqb_spec a code) as [<- | _];
             [intros [= <-]; reflexivity|]
         end.
  discriminate.
Qed.

Lemma set_pack_format_inv (target : string) (mcmeta mcmeta' : json) :
  set_pack_format target mcmeta = Ok mcmeta' ->
  exists d pack,
    mcmeta = JDict d /\ dict_get "pack" d = Some (JDict pack) /\
    mcmeta'
    = JDict (dict_set "pack"
               (JDict (dict_set "pack_format"
                         (JInt (default 15 (dict_get target version_format)))
                         pack)) d).
Proof.
  unfold set_pack_format. destruct mcmeta as [| | | | |d]; try discriminate.
  destruct (dict_get "pack" d) as [[| | | | |pack]|] eqn:E; try discriminate.
  intros [= <-]. eauto.
Qed.

(** X12.  The table of [on_confirm] and the table of
    [get_version_from_pack_format] are inverse to each other, so a pack
    whose metadata was rewritten for a target of the table is recognised
    as that version when the convert window reads it again; rewritten for
    any other target it is recognised as 1.20.1, the version of the
    default code. *)
Theorem rewritten_pack_is_recognised (target : string) (mcmeta mcmeta' : json) :
  set_pack_format target mcmeta = Ok mcmeta' ->
  current_version_of mcmeta'
  = Some (match dict_get target version_format with
          | Some _ => target
          | None => "1.20.1"
          end) /\
  (forall v code,
     dict_get v version_format = Some code
     <-> int_dict_get code format_to_version = Some v).
Proof.
  intros Hset. split.
  - destruct (set_pack_format_inv _ _ _ Hset) as (d & pack & -> & Hpack & ->).
    unfold current_version_of, read_pack_format, dict_lookup.
    rewrite !dict_get_set_eq. cbn [rbind get_version_from_pack_format].
    destruct (dict_get target version_format) as [code|] eqn:E; cbn [default].
    + f_equal. exact (version_format_inverse _ _ E).
    + reflexivity.
  - intros v code. split.
    + apply version_format_inverse.
    + apply format_to_version_inverse.
Qed.

Lemma rewritten_pack_is_recognised_witness :
  current_version_of
    (JDict [("pack", JDict [("pack_format", JInt 26);
                            ("description", JStr "sample")])])
  = Some (match dict_get "1.20.4" version_format with
          | Some _ => "1.20.4"
          | None => "1.20.1"
          end) /\
  (forall v code,
     dict_get v version_format = Some code
     <-> int_dict_get code format_to_version = Some v).
Proof.
  apply (rewritten_pack_is_recognised "1.20.4" (JDict sample_mcmeta)).
  reflexivity.
Defined.

Lemma dict_set_twice {V} (k : string) (v : V) (d : dict V) :
  dict_set k v (dict_set k v d) = dict_set k v d.
Proof.
  induction d as [|[k0 v0] d IH]; simpl.
  - now rewrite String.eqb_refl.
  - destruct (String.eqb k0 k) eqn:E; simpl.
    + now rewrite String.eqb_refl.
    + now rewrite E, IH.
Qed.

Lemma dict_get_In_keys {V} (k : string) (v : V) (d : dict V) :
  dict_get k d = Some v -> In k (map fst d).
Proof.
  induction d as [|[k0 v0] d IH]; simpl; [discriminate|].
  destruct (String.eqb_spec k0 k) as [-> | _]; [now left|].
  intros H. right. now apply IH.
Qed.

(** X13.  The rewrite changes the format code and nothing else: the
    document keeps its keys in their order and its other fields, the
    [pack] object keeps its other fields, and rewriting again for the
    same target changes nothing. *)
Theorem rewrite_keeps_other_fields (target : string) (mcmeta mcmeta' : json) :
  set_pack_format target mcmeta = Ok mcmeta' ->
  set_pack_format target mcmeta' = Ok mcmeta' /\
  exists d d' pack pack',
    mcmeta = JDict d /\ mcmeta' = JDict d' /\
    dict_get "pack" d = Some (JDict pack) /\
    dict_get "pack" d' = Some (JDict pack') /\
    map fst d' = map fst d /\
    (forall k, k <> "pack" -> dict_get k d' = dict_get k d) /\
    (forall k, k <> "pack_format" -> dict_get k pack' = dict_get k pack).
Proof.
  intros Hset.
  destruct (set_pack_format_inv _ _ _ Hset) as (d & pack & -> & Hpack & ->).
  split.
  - unfold set_pack_format. rewrite dict_get_set_eq.
    now rewrite !dict_set_twice.
  - do 4 eexists. split; [reflexivity|]. split; [reflexivity|].
    split; [exact Hpack|]. split; [apply dict_get_set_eq|]. split; [|split].
    + apply dict_set_keys. eapply dict_get_In_keys. eassumption.
    + intros k Hk. apply dict_get_set_ne. congruence.
    + intros k Hk. apply dict_get_set_ne. congruence.
Qed.

Lemma rewrite_keeps_other_fields_witness :
  set_pack_format "1.21"
    (JDict [("pack", JDict [("pack_format", JInt 30);
                            ("description", JStr "sample")])])
  = Ok (JDict [("pack", JDict [("pack_format", JInt 30);
                               ("description", JStr "sample")])]) /\
  exists d d' pack pack',
    JDict sample_mcmeta = JDict d /\
    JDict [("pack", JDict [("pack_format", JInt 30);
                           ("description", JStr "sample")])] = JDict d' /\
    dict_get "pack" d = Some (JDict pack) /\
    dict_get "pack" d' = Some (JDict pack') /\
    map fst d' = map fst d /\
    (forall k, k <> "pack" -> dict_get k d' = dict_get k d) /\
    (forall k, k <> "pack_format" -> dict_get k pack' = dict_get k pack).
Proof.
  apply (rewrite_keeps_other_fields "1.21" (JDict sample_mcmeta)).
  reflexivity.
Defined.

(** ** What the operations leave alone, and when they raise *)

Section Keeps.

Context {X : Type}.
Variable f : world -> X.

Lemma keeps_pure {A} (c : io A) :
  (forall w, snd (c w) = w) -> keeps f c.
Proof. intros H w. now rewrite H. Qed.

Lemma keeps_bind {A B} (c : io A) (k : A -> io B) :
  keeps f c -> (forall a, keeps f (k a)) -> keeps f (io_bind c k).
Proof.
intros Hc Hk w. unfold io_bind. specialize (Hc w).
destruct (c w) as [[a|e|] w1]; simpl in *; try assumption.
now rewrite Hk.
Qed.

Lemma keeps_catch {A} (c : io A) (handler : exn -> io A) :
  keeps f c -> (forall e, keeps f (handler e)) -> keeps f (io_catch c handler).
Proof.
intros Hc Hh w. unfold io_catch. specialize (Hc w).
destruct (c w) as [[a|e|] w1]; simpl in *; try assumption.
now rewrite Hh.
Qed.

Lemma keeps_for {A} (xs : list A) (body : A -> io unit) :
  (forall x, keeps f (body x)) -> keeps f (io_for xs body).
Proof.
intros Hbody. induction xs as [|x xs IH]; simpl.
- now apply keeps_pure.
- apply keeps_bind; [apply Hbody|]. intros _. exact IH.
Qed.

Hypothesis f_disk : forall d w, f (set_disk d w) = f w.

Lemma keeps_write_file (p : path) (file : file) : keeps f (write_file p file).
Proof.
intros w. unfold write_file. destruct (decide (p ∈ locked w)); simpl;
  [reflexivity|apply f_disk].
Qed.

Lemma keeps_image_open (p : path) : keeps f (image_open p).
Proof.
apply keeps_pure. intros w. unfold image_open.
destruct (read_file p w) as [[| |]|]; reflexivity.
Qed.

Lemma keeps_image_save (img : image) (p : path) : keeps f (image_save img p).
Proof.
unfold image_save. destruct (is_empty_image img);
  [now apply keeps_pure|apply keeps_write_file].
Qed.

Lemma keeps_copy2 (src dst : path) : keeps f (copy2 src dst).
Proof.
intros w. unfold copy2. destruct (read_file src w);
  [apply keeps_write_file|reflexivity].
Qed.

Lemma keeps_split_image (image_path : path) (crop_box : box)
    (target_path : path) :
  keeps f (split_image image_path crop_box target_path).
Proof.
unfold split_image. apply keeps_catch; [|intros; now apply keeps_pure].
apply keeps_bind; [apply keeps_image_open|]. intros img.
apply keeps_bind; [now apply keeps_pure|]. intros cropped.
apply keeps_bind; [apply keeps_image_save|]. intros _. now apply keeps_pure.
Qed.

Lemma keeps_merge_images (base_path overlay_path : path) (position : Z * Z)
    (target_path : option path) :
  keeps f (merge_images base_path overlay_path position target_path).
Proof.
unfold merge_images. apply keeps_catch; [|intros; now apply keeps_pure].
apply keeps_bind; [apply keeps_image_open|]. intros base.
apply keeps_bind; [apply keeps_image_open|]. intros overlay.
apply keeps_bind; [apply keeps_image_save|]. intros _. now apply keeps_pure.
Qed.

Lemma keeps_apply_transparency (image_path : path) (keep : box)
    (target_path : option path) :
  keeps f (apply_transparency image_path keep target_path).
Proof.
unfold apply_transparency. apply keeps_catch; [|intros; now apply keeps_pure].
apply keeps_bind; [apply keeps_image_open|]. intros img.
apply keeps_bind; [apply keeps_image_save|]. intros _. now apply keeps_pure.
Qed.

Lemma keeps_process_operation (mcmeta_dir : mcmeta_store)
    (source_path target_path : string) (op : operation) :
  keeps f (process_operation mcmeta_dir source_path target_path op).
Proof.
unfold process_operation.
apply keeps_bind.
{ unfold process_splits. apply keeps_for. intros item.
  apply keeps_bind; [now apply keeps_pure|]. intros [|];
    [|now apply keeps_pure].
  apply keeps_for. intros split.
  apply keeps_bind; [apply keeps_split_image|]. intros _.
  now apply keeps_pure. }
intros _. apply keeps_bind.
{ unfold process_merges. apply keeps_for. intros item.
  apply keeps_for. intros merge. unfold merge_step.
  apply keeps_bind; [now apply keeps_pure|]. intros [|];
    [|now apply keeps_pure].
  apply keeps_bind; [apply keeps_merge_images|]. intros _.
  now apply keeps_pure. }
intros _. apply keeps_bind.
{ unfold process_transparency. apply keeps_for. intros item.
  apply keeps_bind; [now apply keeps_pure|]. intros [|];
    [|now apply keeps_pure].
  apply keeps_bind; [apply keeps_copy2|]. intros _.
  apply keeps_bind; [apply keeps_apply_transparency|]. intros _.
  now apply keeps_pure. }
intros _. unfold process_mcmeta.
destruct (mcmeta_dir !! op_version op); [|now apply keeps_pure].
apply keeps_for. intros entry.
destruct (endswith (sidecar_name entry) ".mcmeta"); [|now apply keeps_pure].
apply keeps_bind; [now apply keeps_pure|]. intros found.
destruct (is_split_target _ _ _ || found);
  [apply keeps_write_file|now apply keeps_pure].
Qed.

Lemma keeps_update_pack_format (target : string) :
  keeps f (update_pack_format target).
Proof.
unfold update_pack_format.
apply keeps_bind; [now apply keeps_pure|]. intros [|];
  [|now apply keeps_pure].
apply keeps_bind.
{ apply keeps_pure. intros w. unfold json_read.
  destruct (read_file _ w) as [[| |]|]; reflexivity. }
intros mcmeta. apply keeps_bind; [now apply keeps_pure|]. intros mcmeta'.
apply keeps_write_file.
Qed.

Lemma keeps_copytree (src dst : string) : keeps f (copytree src dst).
Proof.
intros w. unfold copytree. destruct (disk w !! src); simpl;
  [apply f_disk|reflexivity].
Qed.

Lemma keeps_remove_temp_dir : keeps f remove_temp_dir.
Proof.
unfold remove_temp_dir. apply keeps_bind; [now apply keeps_pure|].
intros [|]; [|now apply keeps_pure]. intros w. apply f_disk.
Qed.

End Keeps.

Lemma always_returns_ret {A} (a : A) : always_returns (io_ret a).
Proof. intros w. exists a. reflexivity. Qed.

Lemma always_returns_bind {A B} (c : io A) (k : A -> io B) :
  always_returns c -> (forall a, always_returns (k a)) ->
  always_returns (io_bind c k).
Proof.
  intros Hc Hk w. unfold io_bind. destruct (Hc w) as [a Ha].
  destruct (c w) as [r w1]. simpl in Ha. subst r. apply Hk.
Qed.

Lemma always_returns_for {A} (xs : list A) (body : A -> io unit) :
  (forall x, always_returns (body x)) -> always_returns (io_for xs body).
Proof.
  intros Hbody. induction xs as [|x xs IH]; simpl.
  - apply always_returns_ret.
  - apply always_returns_bind; [apply Hbody|]. intros _. exact IH.
Qed.

Lemma always_returns_exists_file (p : path) : always_returns (exists_file p).
Proof. intros w. eexists. reflexivity. Qed.

Lemma split_image_returns (image_path : path) (crop_box : box)
    (target_path : path) :
  always_returns (split_image image_path crop_box target_path).
Proof.
  intros w. unfold split_image, io_catch, io_bind, image_open, io_lift,
    image_save, io_raise, io_ret.
  destruct (read_file image_path w) as [[img| |]|]; simpl; eauto.
  unfold crop. destruct crop_box as [[[l t] r] b].
  destruct ((r <? l)%Z || (b <? t)%Z); simpl; eauto.
  match goal with
  | |- context [is_empty_image ?i] => destruct (is_empty_image i)
  end; simpl; eauto.
  unfold write_file. destruct (decide (target_path ∈ locked w)); simpl; eauto.
Qed.

Lemma merge_images_returns (base_path overlay_path : path) (position : Z * Z)
    (target_path : option path) :
  always_returns (merge_images base_path overlay_path position target_path).
Proof.
  intros w. unfold merge_images, io_catch, io_bind, image_open, image_save,
    io_raise, io_ret.
  destruct (read_file base_path w) as [[base| |]|]; simpl; eauto.
  destruct (read_file overlay_path w) as [[overlay| |]|]; simpl; eauto.
  destruct (is_empty_image _); simpl; eauto.
  unfold write_file. destruct (decide (_ ∈ locked w)); simpl; eauto.
Qed.

Lemma apply_transparency_returns (image_path : path) (keep : box)
    (target_path : option path) :
  always_returns (apply_transparency image_path keep target_path).
Proof.
  intros w. unfold apply_transparency, io_catch, io_bind, image_open,
    image_save, io_raise, io_ret.
  destruct (read_file image_path w) as [[img| |]|]; simpl; eauto.
  destruct (is_empty_image _); simpl; eauto.
  unfold write_file. destruct (decide (_ ∈ locked w)); simpl; eauto.
Qed.

Lemma process_splits_returns (source_path target_path : string) (c : config) :
  always_returns (process_splits source_path target_path c).
Proof.
  unfold process_splits. apply always_returns_for. intros item.
  apply always_returns_bind; [apply always_returns_exists_file|].
  intros [|]; [|apply always_returns_ret].
  apply always_returns_for. intros split.
  apply always_returns_bind; [apply split_image_returns|].
  intros _. apply always_returns_ret.
Qed.

Lemma process_merges_returns (source_path target_path : string) (c : config) :
  always_returns (process_merges source_path target_path c).
Proof.
  unfold process_merges. apply always_returns_for. intros item.
  apply always_returns_for. intros merge. unfold merge_step.
  apply always_returns_bind; [apply always_returns_exists_file|].
  intros [|]; [|apply always_returns_ret].
  apply always_returns_bind; [apply merge_images_returns|].
  intros _. apply always_returns_ret.
Qed.

Lemma raises_only_bind {A B} (c : io A) (k : A -> io B) :
  raises_only_OSError c -> (forall a, raises_only_OSError (k a)) ->
  raises_only_OSError (io_bind c k).
Proof.
  intros Hc Hk w. unfold io_bind. specialize (Hc w).
  destruct (c w) as [[a|e|] w1]; simpl in *.
  - apply Hk.
  - destruct Hc as [[a Ha] | Hc]; [discriminate|]. right.
    injection Hc as ->. reflexivity.
  - destruct Hc as [[a Ha] | Hc]; discriminate.
Qed.

Lemma raises_only_returns {A} (c : io A) :
  always_returns c -> raises_only_OSError c.
Proof. intros Hc w. left. apply Hc. Qed.

Lemma raises_only_for {A} (xs : list A) (body : A -> io unit) :
  (forall x, raises_only_OSError (body x)) ->
  raises_only_OSError (io_for xs body).
Proof.
  intros Hbody. induction xs as [|x xs IH]; simpl.
  - apply raises_only_returns, always_returns_ret.
  - apply raises_only_bind; [apply Hbody|]. intros _. exact IH.
Qed.

Lemma raises_only_write_file (p : path) (f : file) :
  raises_only_OSError (write_file p f).
Proof.
  intros w. unfold write_file. destruct (decide (p ∈ locked w)); simpl; eauto.
Qed.

Lemma raises_only_copy2 (src dst : path) : raises_only_OSError (copy2 src dst).
Proof.
  intros w. unfold copy2. destruct (read_file src w);
    [apply raises_only_write_file|now right].
Qed.

Lemma process_operation_raises_only (mcmeta_dir : mcmeta_store)
    (source_path target_path : string) (op : operation) :
  raises_only_OSError
    (process_operation mcmeta_dir source_path target_path op).
Proof.
  unfold process_operation.
  apply raises_only_bind;
    [apply raises_only_returns, process_splits_returns|]. intros _.
  apply raises_only_bind;
    [apply raises_only_returns, process_merges_returns|]. intros _.
  apply raises_only_bind.
  { unfold process_transparency. apply raises_only_for. intros item.
    apply raises_only_bind;
      [apply raises_only_returns, always_returns_exists_file|].
    intros [|]; [|apply raises_only_returns, always_returns_ret].
    apply raises_only_bind; [apply raises_only_copy2|]. intros _.
    apply raises_only_bind;
      [apply raises_only_returns, apply_transparency_returns|]. intros _.
    apply raises_only_returns, always_returns_ret. }
  intros _. unfold process_mcmeta.
  destruct (mcmeta_dir !! op_version op);
    [|apply raises_only_returns, always_returns_ret].
  apply raises_only_for. intros entry.
  destruct (endswith (sidecar_name entry) ".mcmeta");
    [|apply raises_only_returns, always_returns_ret].
  apply raises_only_bind;
    [apply raises_only_returns, always_returns_exists_file|].
  intros found.
  destruct (is_split_target _ _ _ || found);
    [apply raises_only_write_file|apply raises_only_returns, always_returns_ret].
Qed.

Lemma add_removed_spec (c : config) (exclude_files : gset string) (p : string) :
  p ∈ add_removed c exclude_files
  <-> p ∈ exclude_files \/ In p (cfg_removed_files c).
Proof.
  unfold add_removed. generalize (cfg_removed_files c) as files.
  intros files. revert exclude_files.
  induction files as [|file files IH]; intros exclude_files; simpl.
  - tauto.
  - rewrite IH, elem_of_union, elem_of_singleton. intuition congruence.
Qed.

(** What the loop over the operations returns, dialogs included. *)
Lemma process_operations_outcome (mcmeta_dir : mcmeta_store)
    (source_path target_path : string) (plan : list operation) :
  forall (exclude_files : gset string) (w : world),
  exists success exclude_files' w',
    process_operations mcmeta_dir source_path target_path plan exclude_files w
    = (Ok (success, exclude_files'), w') /\
    (forall p, p ∈ exclude_files -> p ∈ exclude_files') /\
    (forall p, p ∈ exclude_files' -> p ∈ exclude_files \/ removed_by plan p) /\
    (success = true ->
     ui w' = ui w /\
     forall p, removed_by plan p -> p ∈ exclude_files') /\
    (success = false -> ui w' = ui w ++ [ShowError OSError]).
Proof.
  induction plan as [|op plan IH]; intros exclude_files w; simpl.
  - exists true, exclude_files, w. split; [reflexivity|].
    split; [auto|]. split; [auto|]. split; [|discriminate].
    intros _. split; [reflexivity|]. intros p (op & [] & _).
  - pose proof (process_operation_raises_only mcmeta_dir source_path
                  target_path op w) as Hraise.
    pose proof (keeps_process_operation ui (fun _ _ => eq_refl) mcmeta_dir
                  source_path target_path op w) as Hui.
    destruct (process_operation mcmeta_dir source_path target_path op w)
      as [[u|e|] w1]; simpl in *.
    + destruct (IH (add_removed (op_config op) exclude_files) w1)
        as (success & ex' & w' & E & Hsub & Hsup & Htrue & Hfalse).
      exists success, ex', w'. split; [exact E|]. split; [|split; [|split]].
      * intros p Hp. apply Hsub, add_removed_spec. now left.
      * intros p Hp. destruct (Hsup p Hp) as [H | (op' & Hop' & H)].
        -- apply add_removed_spec in H. destruct H as [H | H]; [now left|].
           right. exists op. split; [now left|exact H].
        -- right. exists op'. split; [now right|exact H].
      * intros Hs. destruct (Htrue Hs) as [Hu Hall]. split; [congruence|].
        intros p (op' & [<- | Hop'] & H).
        -- apply Hsub, add_removed_spec. now right.
        -- apply Hall. exists op'. auto.
      * intros Hs. rewrite (Hfalse Hs). congruence.
    + destruct Hraise as [[a Ha] | Ha]; [discriminate|].
      injection Ha as ->.
      exists false, (add_removed (op_config op) exclude_files),
        (show (ShowError OSError) w1).
      split; [reflexivity|]. split; [|split; [|split]].
      * intros p Hp. apply add_removed_spec. now left.
      * intros p Hp. apply add_removed_spec in Hp.
        destruct Hp as [H | H]; [now left|].
        right. exists op. split; [now left|exact H].
      * discriminate.
      * intros _. simpl. now rewrite Hui.
    + destruct Hraise as [[a Ha] | Ha]; discriminate.
Qed.

Lemma for_returns_under {A} (Inv : world -> Prop) (xs : list A)
    (body : A -> io unit) :
  (forall x, In x xs -> forall w, Inv w ->
     exists u w', body x w = (Ok u, w') /\ Inv w') ->
  forall w, Inv w ->
    exists u w', io_for xs body w = (Ok u, w') /\ Inv w'.
Proof.
  induction xs as [|x xs IH]; intros Hbody w Hw; simpl.
  - exists tt, w. auto.
  - unfold io_bind. destruct (Hbody x ltac:(now left) w Hw) as (u & w1 & Hu & Hinv).
    rewrite Hu. apply IH; [|assumption]. intros y Hy. apply Hbody. now right.
Qed.

Lemma returns_and_keeps_locked {A} (c : io A) (L : gset path) :
  always_returns c -> keeps locked c ->
  forall w, locked w = L ->
    exists a w', c w = (Ok a, w') /\ locked w' = L.
Proof.
  intros Hret Hkeep w Hw. destruct (Hret w) as [a Ha]. specialize (Hkeep w).
  destruct (c w) as [r w']. simpl in *. subst r. exists a, w'.
  split; [reflexivity|congruence].
Qed.

Lemma process_transparency_unlocked (source_path target_path : string)
    (c : config) (L : gset path) :
  (forall p, transparency_targets c p -> (target_path, p) ∉ L) ->
  forall w, locked w = L ->
    exists u w',
      process_transparency source_path target_path c w = (Ok u, w') /\
      locked w' = L.
Proof.
  intros Hfree w0 Hw0. unfold process_transparency.
  apply (for_returns_under (fun w => locked w = L)); [|exact Hw0].
  clear w0 Hw0. intros item Hitem w Hw.
  unfold io_bind at 1, exists_file.
  destruct (read_file (source_path, fst item) w) as [f|] eqn:Eread.
  2:{ rewrite bool_decide_false by (intros [? ?]; discriminate).
      exists tt, w. auto. }
  rewrite bool_decide_true by eauto.
  unfold io_bind at 1, copy2. rewrite Eread.
  assert (Hnl : (target_path, transparency_target (snd item)) ∉ locked w).
  { rewrite Hw. apply Hfree. exists item. auto. }
  rewrite write_file_ok by assumption.
  apply (returns_and_keeps_locked
           (do! _ := apply_transparency
                       (target_path, transparency_target (snd item))
                       (keep_area (snd item)) None in io_ret tt) L).
  - apply always_returns_bind; [apply apply_transparency_returns|].
    intros _. apply always_returns_ret.
  - apply keeps_bind;
      [apply keeps_apply_transparency; reflexivity|].
    intros _. now apply keeps_pure.
  - exact Hw.
Qed.

Lemma process_mcmeta_unlocked (mcmeta_dir : mcmeta_store)
    (target_path version : string) (c : config) (L : gset path) :
  (forall p, sidecar_targets mcmeta_dir version p -> (target_path, p) ∉ L) ->
  forall w, locked w = L ->
    exists u w',
      process_mcmeta mcmeta_dir target_path version c w = (Ok u, w') /\
      locked w' = L.
Proof.
  intros Hfree w Hw. unfold process_mcmeta.
  destruct (mcmeta_dir !! version) as [walk|] eqn:Ewalk;
    [|exists tt, w; auto].
  apply (for_returns_under (fun w => locked w = L)); [|exact Hw].
  intros entry Hentry w0 Hw0. cbv zeta.
  destruct (endswith (sidecar_name entry) ".mcmeta"); [|exists tt, w0; auto].
  unfold io_bind, exists_file.
  destruct (is_split_target _ _ _ || _); [|exists tt, w0; auto].
  assert (Hnl : (target_path,
                 tree_key (sidecar_rel_path entry) (sidecar_name entry))
                ∉ locked w0).
  { rewrite Hw0. apply Hfree. exists walk, entry. auto. }
  rewrite write_file_ok by assumption. eexists tt, _. split; [reflexivity|].
  exact Hw0.
Qed.

Lemma keeps_locked_process_splits (source_path target_path : string)
    (c : config) :
  keeps locked (process_splits source_path target_path c).
Proof.
  unfold process_splits. apply keeps_for. intros item.
  apply keeps_bind; [now apply keeps_pure|]. intros [|];
    [|now apply keeps_pure].
  apply keeps_for. intros split.
  apply keeps_bind; [apply keeps_split_image; reflexivity|]. intros _.
  now apply keeps_pure.
Qed.

Lemma keeps_locked_process_merges (source_path target_path : string)
    (c : config) :
  keeps locked (process_merges source_path target_path c).
Proof.
  unfold process_merges. apply keeps_for. intros item.
  apply keeps_for. intros merge. unfold merge_step.
  apply keeps_bind; [now apply keeps_pure|]. intros [|];
    [|now apply keeps_pure].
  apply keeps_bind; [apply keeps_merge_images; reflexivity|]. intros _.
  now apply keeps_pure.
Qed.

Lemma process_operation_unlocked (mcmeta_dir : mcmeta_store)
    (source_path target_path : string) (op : operation) (w : world) :
  (forall p,
     transparency_targets (op_config op) p \/
     sidecar_targets mcmeta_dir (op_version op) p ->
     (target_path, p) ∉ locked w) ->
  exists u w',
    process_operation mcmeta_dir source_path target_path op w = (Ok u, w') /\
    locked w' = locked w.
Proof.
  intros Hfree. unfold process_operation.
  destruct (returns_and_keeps_locked
              (process_splits source_path target_path (op_config op))
              (locked w) (process_splits_returns _ _ _)
              (keeps_locked_process_splits _ _ _) w eq_refl)
    as (u1 & w1 & E1 & L1).
  unfold io_bind at 1. rewrite E1.
  destruct (returns_and_keeps_locked
              (process_merges source_path target_path (op_config op))
              (locked w) (process_merges_returns _ _ _)
              (keeps_locked_process_merges _ _ _) w1 L1)
    as (u2 & w2 & E2 & L2).
  unfold io_bind at 1. rewrite E2.
  destruct (process_transparency_unlocked source_path target_path
              (op_config op) (locked w) ltac:(auto) w2 L2)
    as (u3 & w3 & E3 & L3).
  unfold io_bind at 1. rewrite E3.
  apply (process_mcmeta_unlocked mcmeta_dir target_path (op_version op)
           (op_config op) (locked w)); auto.
Qed.

Lemma process_operations_unlocked (mcmeta_dir : mcmeta_store)
    (source_path target_path : string) (plan : list operation) :
  forall (exclude_files : gset string) (w : world),
  (forall p, unguarded_targets mcmeta_dir plan p ->
             (target_path, p) ∉ locked w) ->
  exists exclude_files' w',
    process_operations mcmeta_dir source_path target_path plan exclude_files w
    = (Ok (true, exclude_files'), w').
Proof.
  induction plan as [|op plan IH]; intros exclude_files w Hfree; simpl.
  - unfold io_ret. eauto.
  - destruct (process_operation_unlocked mcmeta_dir source_path target_path
                op w) as (u & w1 & Hu & Hl).
    { intros p Hp. apply Hfree. exists op. split; [now left|exact Hp]. }
    rewrite Hu.
    apply IH. intros p (op' & Hop' & Hp). rewrite Hl. apply Hfree.
    exists op'. split; [now right|exact Hp].
Qed.

(** X14.  Once the plan is resolved, [process_version_conversion] returns
    whatever the steps do: an exception of a step ends the run with the flag
    [False] and exactly one error dialog, and a run that returns [True]
    has shown nothing. *)
Theorem conversion_failures_are_reported (fuel : nat)
    (config_dir : config_store) (mcmeta_dir : mcmeta_store)
    (source_path target_path source_version target_version : string)
    (plan : list operation) (w : world) :
  get_version_operations fuel config_dir source_version target_version
  = Ok plan ->
  exists success exclude_files w',
    process_version_conversion fuel config_dir mcmeta_dir source_path
      target_path source_version target_version w
    = (Ok (success, exclude_files), w') /\
    (success = true -> ui w' = ui w) /\
    (success = false -> ui w' = ui w ++ [ShowError OSError]).
Proof.
  intros Hplan.
  unfold process_version_conversion, io_bind, io_lift. rewrite Hplan.
  destruct (process_operations_outcome mcmeta_dir source_path target_path plan
              ∅ w) as (success & excl & w' & E & _ & _ & Htrue & Hfalse).
  exists success, excl, w'. split; [exact E|]. split; [|exact Hfalse].
  intros Hs. now apply Htrue.
Qed.

Lemma conversion_failures_are_reported_witness :
  exists success exclude_files w',
    process_version_conversion 2 transparency_store ∅ "mypack" temp_dir
      "1.19" "1.20" locked_world
    = (Ok (success, exclude_files), w') /\
    (success = true -> ui w' = ui locked_world) /\
    (success = false -> ui w' = ui locked_world ++ [ShowError OSError]).
Proof.
  apply (conversion_failures_are_reported 2 transparency_store ∅ "mypack"
           temp_dir "1.19" "1.20"
           [{| op_version := "1.20"; op_config := transparency_config |}]).
  reflexivity.
Defined.

(** X15.  The set of excluded paths that [process_version_conversion]
    returns holds only paths listed under [removed_files] by a step of the
    plan, and after a run that returns [True] it holds all of them. *)
Theorem exclusions_are_the_removed_files (fuel : nat)
    (config_dir : config_store) (mcmeta_dir : mcmeta_store)
    (source_path target_path source_version target_version : string)
    (plan : list operation) (w : world) :
  get_version_operations fuel config_dir source_version target_version
  = Ok plan ->
  exists success exclude_files w',
    process_version_conversion fuel config_dir mcmeta_dir source_path
      target_path source_version target_version w
    = (Ok (success, exclude_files), w') /\
    (forall p, p ∈ exclude_files -> removed_by plan p) /\
    (success = true -> forall p, removed_by plan p -> p ∈ exclude_files).
Proof.
  intros Hplan.
  unfold process_version_conversion, io_bind, io_lift. rewrite Hplan.
  destruct (process_operations_outcome mcmeta_dir source_path target_path plan
              ∅ w) as (success & excl & w' & E & _ & Hsub & Htrue & _).
  exists success, excl, w'. split; [exact E|]. split.
  - intros p Hp. destruct (Hsub p Hp) as [Hin|Hrem]; [|exact Hrem].
    now apply not_elem_of_empty in Hin.
  - intros Hs. now apply Htrue.
Qed.

Lemma exclusions_are_the_removed_files_witness :
  exists success exclude_files w',
    process_version_conversion 2 transparency_store ∅ "mypack" temp_dir
      "1.19" "1.20" cache_world
    = (Ok (success, exclude_files), w') /\
    (forall p, p ∈ exclude_files ->
       removed_by [{| op_version := "1.20"; op_config := transparency_config |}]
         p) /\
    (success = true -> forall p,
       removed_by [{| op_version := "1.20"; op_config := transparency_config |}]
         p -> p ∈ exclude_files).
Proof.
  apply (exclusions_are_the_removed_files 2 transparency_store ∅ "mypack"
           temp_dir "1.19" "1.20"
           [{| op_version := "1.20"; op_config := transparency_config |}]).
  reflexivity.
Defined.

(** X16.  Failures of [split_image] and [merge_images] are swallowed:
    for a plan without transparency rules and without sidecar files the
    conversion returns [True] and shows no dialog, whatever the world is:
    images may be missing or unreadable, boxes empty, targets
    write-protected. *)
Theorem split_and_merge_failures_are_swallowed (fuel : nat)
    (config_dir : config_store) (mcmeta_dir : mcmeta_store)
    (source_path target_path source_version target_version : string)
    (plan : list operation) (w : world) :
  get_version_operations fuel config_dir source_version target_version
  = Ok plan ->
  (forall p, ~ unguarded_targets mcmeta_dir plan p) ->
  exists exclude_files w',
    process_version_conversion fuel config_dir mcmeta_dir source_path
      target_path source_version target_version w
    = (Ok (true, exclude_files), w') /\
    ui w' = ui w.
Proof.
  intros Hplan Hnone.
  unfold process_version_conversion, io_bind, io_lift. rewrite Hplan.
  destruct (process_operations_unlocked mcmeta_dir source_path target_path
              plan ∅ w) as (excl & w' & E).
  { intros p Hp. now apply Hnone in Hp. }
  destruct (process_operations_outcome mcmeta_dir source_path target_path plan
              ∅ w) as (success & excl' & w'' & E' & _ & _ & Htrue & _).
  rewrite E in E'. injection E' as <- <- <-.
  exists excl, w'. split; [exact E|]. now apply Htrue.
Qed.

Lemma split_and_merge_failures_are_swallowed_witness :
  exists exclude_files w',
    process_version_conversion 3 split_merge_store ∅ "mypack" temp_dir
      "1.19" "1.20" protected_world
    = (Ok (true, exclude_files), w') /\
    ui w' = ui protected_world.
Proof.
  apply (split_and_merge_failures_are_swallowed 3 split_merge_store ∅
           "mypack" temp_dir "1.19" "1.20" split_then_merge).
  - reflexivity.
  - intros p (op & Hop & [(item & Hitem & _) | (walk & entry & Hwalk & _)]).
    + destruct Hop as [<- | [<- | []]]; destruct Hitem.
    + discriminate Hwalk.
Defined.

Lemma leaves_rest_alone_refl (save_path : string) (w : world) :
  leaves_rest_alone save_path w w.
Proof. repeat split; auto. Qed.

Lemma leaves_rest_alone_trans (save_path : string) (w1 w2 w3 : world) :
  leaves_rest_alone save_path w1 w2 -> leaves_rest_alone save_path w2 w3 ->
  leaves_rest_alone save_path w1 w3.
Proof.
  intros (A1 & B1 & C1 & D1) (A2 & B2 & C2 & D2). repeat split.
  - intros d Hd. rewrite A2, A1; auto.
  - intros a Ha. rewrite B2, B1; auto.
  - congruence.
  - congruence.
Qed.

Lemma writes_within_leaves_rest_alone (save_path : string)
    (K : string -> Prop) (w w' : world) :
  writes_within temp_dir K w w' -> leaves_rest_alone save_path w w'.
Proof.
  intros (A & _ & _ & B & C & D). repeat split; auto.
  intros a _. now rewrite B.
Qed.

Lemma tree_lookup (dir p : string) (w : world) :
  default ∅ (disk w !! dir) !! p = read_file (dir, p) w.
Proof.
  unfold read_file. simpl. destruct (disk w !! dir); [reflexivity|].
  apply lookup_empty.
Qed.

Lemma update_pack_format_Ok (target : string) (w w' : world) (u : unit)
    (f : file) :
  update_pack_format target w = (Ok u, w') ->
  read_file (temp_dir, "pack.mcmeta") w = Some f ->
  exists mcmeta mcmeta',
    f = JsonFile mcmeta /\
    set_pack_format target mcmeta = Ok mcmeta' /\
    read_file (temp_dir, "pack.mcmeta") w' = Some (JsonFile mcmeta').
Proof.
  intros Hrun Hread. revert Hrun.
  unfold update_pack_format, io_bind at 1, exists_file.
  rewrite Hread. rewrite bool_decide_true by eauto.
  unfold io_bind at 1, json_read. rewrite Hread.
  destruct f as [img|mcmeta|]; try discriminate.
  unfold io_bind at 1, io_lift.
  destruct (set_pack_format target mcmeta) as [mcmeta'|e|] eqn:Eset;
    try discriminate.
  destruct (decide ((temp_dir, "pack.mcmeta") ∈ locked w)) as [Hl|Hl].
  { rewrite write_file_locked by exact Hl. discriminate. }
  pose proof (read_after_write (temp_dir, "pack.mcmeta") (JsonFile mcmeta') w
                Hl) as Hafter.
  intros Hrun. rewrite Hrun in Hafter. exists mcmeta, mcmeta'. auto.
Qed.

(** What the [try] block of [on_confirm] returns and leaves behind. *)
Lemma on_confirm_try_outcome (fuel : nat) (config_dir : config_store)
    (mcmeta_dir : mcmeta_store) (pack_name source target save_path : string)
    (w : world) :
  exists r w1,
    on_confirm_try fuel config_dir mcmeta_dir pack_name source target
      save_path w = (r, w1) /\
    leaves_rest_alone save_path w w1 /\
    match r with
    | Ok _ =>
        (archives w1 = archives w /\
         (ui w1 = ui w \/ ui w1 = ui w ++ [ShowError OSError])) \/
        (save_path <> "" /\
         ui w1 = ui w ++ [ShowInfo save_path; WindowDestroyed] /\
         exists src plan,
           disk w !! pack_name = Some src /\
           get_version_operations fuel config_dir source target = Ok plan /\
           packaged mcmeta_dir save_path target src plan w w1)
    | _ => archives w1 = archives w /\ ui w1 = ui w
    end.
Proof.
  unfold on_confirm_try. unfold io_bind at 1, copytree.
  destruct (disk w !! pack_name) as [src|] eqn:Esrc.
  2:{ exists (Raise OSError), w. split; [reflexivity|].
      split; [apply leaves_rest_alone_refl|auto]. }
  set (w1 := set_disk (<[temp_dir := src]> (disk w)) w).
  assert (H01 : leaves_rest_alone save_path w w1).
  { repeat split; auto. intros d Hd. simpl. now apply lookup_insert_ne. }
  assert (Hsrc : forall p, read_file (temp_dir, p) w1 = src !! p).
  { intros p. unfold read_file. simpl. now rewrite lookup_insert_eq. }
  pose proof (confined_update_pack_format target w1) as Hc12.
  pose proof (keeps_update_pack_format ui (fun _ _ => eq_refl) target w1)
    as Hui12.
  unfold io_bind at 1.
  destruct (update_pack_format target w1) as [r2 w2] eqn:E12.
  simpl in Hc12, Hui12.
  assert (H02 : leaves_rest_alone save_path w w2).
  { eapply leaves_rest_alone_trans; [exact H01|].
    eapply writes_within_leaves_rest_alone; exact Hc12. }
  assert (Harch2 : archives w2 = archives w).
  { destruct Hc12 as (_ & _ & _ & -> & _). reflexivity. }
  destruct r2 as [u2|e2|].
  2:{ exists (Raise e2), w2. auto. }
  2:{ exists OutOfFuel, w2. auto. }
  unfold io_bind at 1, process_version_conversion at 1.
  unfold io_bind at 1, io_lift.
  destruct (get_version_operations fuel config_dir source target)
    as [plan|e| ] eqn:Eplan.
  2:{ exists (Raise e), w2. auto. }
  2:{ exists OutOfFuel, w2. auto. }
  destruct (process_operations_outcome mcmeta_dir pack_name temp_dir plan ∅ w2)
    as (success & excl & w3 & E3 & _ & Hsub & Htrue & Hfalse).
  pose proof (confined_process_operations temp_dir
                (plan_targets mcmeta_dir plan) mcmeta_dir pack_name plan
                (fun _ H => H) ∅ w2) as Hc23.
  rewrite E3 in *. cbn [snd fst] in *.
  assert (H03 : leaves_rest_alone save_path w w3).
  { eapply leaves_rest_alone_trans; [exact H02|].
    eapply writes_within_leaves_rest_alone; exact Hc23. }
  assert (Harch3 : archives w3 = archives w).
  { destruct Hc23 as (_ & _ & _ & -> & _). exact Harch2. }
  destruct success.
  2:{ exists (Ok tt), w3. split; [reflexivity|]. split; [exact H03|].
      left. split; [exact Harch3|]. right. rewrite Hfalse by reflexivity.
      now rewrite Hui12. }
  destruct (Htrue eq_refl) as [Hui23 Hall].
  destruct (String.eqb_spec save_path "") as [Hempty|Hname].
  { exists (Ok tt), w3. split; [reflexivity|]. split; [exact H03|].
    left. split; [exact Harch3|]. left. congruence. }
  unfold io_bind at 1, write_zip.
  destruct (decide (save_path ∈ unwritable w3)) as [Hun|Hun].
  { exists (Raise OSError), w3. split; [reflexivity|]. split; [exact H03|].
    split; [exact Harch3|congruence]. }
  eexists (Ok tt), _. split; [reflexivity|].
  destruct H03 as (A3 & B3 & C3 & D3).
  split.
  { repeat split; auto. intros a Ha. simpl.
    rewrite lookup_insert_ne by congruence. now apply B3. }
  right. split; [exact Hname|]. split.
  { simpl. rewrite Hui23, Hui12, <- app_assoc. reflexivity. }
  exists src, plan. split; [reflexivity|]. split; [reflexivity|].
  exists excl, (default ∅ (disk w3 !! temp_dir)).
  split; [|split; [|split; [|split]]].
  - intros p. split; [|apply Hall].
    intros Hp. destruct (Hsub p Hp) as [Hin|Hrem]; [|exact Hrem].
    now apply not_elem_of_empty in Hin.
  - simpl. now rewrite Harch3.
  - intros p Hp Hmeta. rewrite tree_lookup.
    destruct Hc23 as (_ & K23 & _). rewrite K23 by exact Hp.
    destruct Hc12 as (_ & K12 & _). rewrite K12 by exact Hmeta.
    apply Hsrc.
  - intros p Hp. rewrite tree_lookup.
    destruct Hc23 as (_ & _ & G23 & _). apply G23.
    destruct Hc12 as (_ & _ & G12 & _). apply G12.
    now rewrite Hsrc.
  - intros f Hf. rewrite <- Hsrc in Hf.
    destruct (update_pack_format_Ok target w1 w2 u2 f E12 Hf)
      as (mcmeta & mcmeta' & Hdoc & Hset & Hafter).
    exists mcmeta, mcmeta'. split; [exact Hdoc|]. split; [exact Hset|].
    intros Hfree. rewrite tree_lookup.
    destruct Hc23 as (_ & K23 & _). rewrite K23 by exact Hfree.
    exact Hafter.
Qed.

Lemma finally_remove_temp_dir {A} (c : io A) (save_path : string)
    (w w1 : world) (r : result A) :
  c w = (r, w1) ->
  exists w',
    io_finally c remove_temp_dir w = (r, w') /\
    leaves_rest_alone save_path w1 w' /\
    archives w' = archives w1 /\ ui w' = ui w1.
Proof.
  intros E. unfold io_finally. rewrite E.
  destruct (remove_temp_dir_spec w1) as (w3 & E3 & _ & Hdirs3 & Ha3 & Hu3).
  pose proof (keeps_remove_temp_dir locked (fun _ _ => eq_refl) w1) as Hl3.
  pose proof (keeps_remove_temp_dir unwritable (fun _ _ => eq_refl) w1) as Hn3.
  rewrite E3 in Hl3, Hn3 |- *. cbn [snd] in Hl3, Hn3.
  exists w3. split; [reflexivity|]. split; [|auto].
  repeat split; auto. intros a _. now rewrite Ha3.
Qed.

(** What [on_confirm] returns and leaves behind. *)
Lemma on_confirm_outcome (fuel : nat) (config_dir : config_store)
    (mcmeta_dir : mcmeta_store) (pack_name source target save_path : string)
    (w : world) :
  exists r w',
    on_confirm fuel config_dir mcmeta_dir pack_name source target save_path w
    = (r, w') /\
    leaves_rest_alone save_path w w' /\
    ((archives w' = archives w /\
      (ui w' = ui w \/ ui w' = ui w ++ [ShowError OSError] \/
       exists e, ui w' = ui w ++ [ShowError e; WindowDestroyed])) \/
     (save_path <> "" /\
      ui w' = ui w ++ [ShowInfo save_path; WindowDestroyed] /\
      exists src plan,
        pack_name <> temp_dir /\
        disk w !! pack_name = Some src /\
        get_version_operations fuel config_dir source target = Ok plan /\
        packaged mcmeta_dir save_path target src plan w w')).
Proof.
  destruct (remove_temp_dir_spec w) as (w0 & E0 & Hgone0 & Hdirs0 & Ha0 & Hu0).
  pose proof (keeps_remove_temp_dir locked (fun _ _ => eq_refl) w) as Hl0.
  pose proof (keeps_remove_temp_dir unwritable (fun _ _ => eq_refl) w) as Hn0.
  rewrite E0 in Hl0, Hn0. cbn [snd] in Hl0, Hn0.
  assert (H00 : leaves_rest_alone save_path w w0).
  { repeat split; auto. intros a _. now rewrite Ha0. }
  unfold on_confirm, io_bind at 1. rewrite E0.
  destruct (on_confirm_try_outcome fuel config_dir mcmeta_dir pack_name source
              target save_path w0) as (r1 & w1 & E1 & H01 & Hout).
  pose proof (leaves_rest_alone_trans _ _ _ _ H00 H01) as H1.
  destruct r1 as [u|e|].
  - destruct (finally_remove_temp_dir
                (io_catch
                   (on_confirm_try fuel config_dir mcmeta_dir pack_name source
                      target save_path)
                   (fun e => do! _ := io_show (ShowError e) in
                             io_show WindowDestroyed))
                save_path w0 w1 (Ok u)) as (w' & E & H & Ha & Hu).
    { unfold io_catch. now rewrite E1. }
    exists (Ok u), w'. split; [exact E|].
    split; [eapply leaves_rest_alone_trans; eassumption|].
    destruct Hout as [[Harch Hui]|(Hname & Hui & src & plan & Hs & Hp & Hpk)].
    + left. rewrite Ha, Hu, Harch, Ha0. split; [reflexivity|].
      destruct Hui as [Hui|Hui]; rewrite Hui, Hu0; auto.
    + right. split; [exact Hname|]. split; [now rewrite Hu, Hui, Hu0|].
      exists src, plan. split.
      { intros ->. rewrite Hgone0 in Hs. discriminate. }
      split.
      { rewrite <- Hdirs0; [exact Hs|]. intros ->.
        rewrite Hgone0 in Hs. discriminate. }
      split; [exact Hp|].
      destruct Hpk as (excl & tree & Hex & Harch & Hsame & Hcov & Hmeta).
      exists excl, tree. rewrite Ha, Harch, Ha0. auto.
  - destruct (finally_remove_temp_dir
                (io_catch
                   (on_confirm_try fuel config_dir mcmeta_dir pack_name source
                      target save_path)
                   (fun e => do! _ := io_show (ShowError e) in
                             io_show WindowDestroyed))
                save_path w0
                (show WindowDestroyed (show (ShowError e) w1)) (Ok tt))
      as (w' & E & H & Ha & Hu).
    { unfold io_catch. now rewrite E1. }
    exists (Ok tt), w'. split; [exact E|]. split.
    { eapply leaves_rest_alone_trans; [|exact H].
      destruct H1 as (A & B & C & D). repeat split; auto. }
    left. destruct Hout as [Harch Hui]. rewrite Ha, Hu. simpl.
    rewrite Harch, Ha0, Hui, Hu0, <- app_assoc. split; [reflexivity|].
    right. right. exists e. reflexivity.
  - destruct (finally_remove_temp_dir
                (io_catch
                   (on_confirm_try fuel config_dir mcmeta_dir pack_name source
                      target save_path)
                   (fun e => do! _ := io_show (ShowError e) in
                             io_show WindowDestroyed))
                save_path w0 w1 OutOfFuel) as (w' & E & H & Ha & Hu).
    { unfold io_catch. now rewrite E1. }
    exists OutOfFuel, w'. split; [exact E|].
    split; [eapply leaves_rest_alone_trans; eassumption|].
    left. destruct Hout as [Harch Hui].
    rewrite Ha, Hu, Harch, Ha0, Hui, Hu0. auto.
Qed.

(** X17.  A conversion touches nothing but its working copy and the
    archive it saves: every other directory of the cache (the converted
    pack among them), every other archive and the write protections are
    after [on_confirm] what they were before, whether it succeeded or
    not. *)
Theorem on_confirm_leaves_the_rest_alone (fuel : nat)
    (config_dir : config_store) (mcmeta_dir : mcmeta_store)
    (pack_name source target save_path : string) (w : world) :
  leaves_rest_alone save_path w
    (snd (on_confirm fuel config_dir mcmeta_dir pack_name source target
            save_path w)).
Proof.
  destruct (on_confirm_outcome fuel config_dir mcmeta_dir pack_name source
              target save_path w) as (r & w' & E & H & _).
  now rewrite E.
Qed.

(** X18.  [on_confirm] ends in one of four ways: silently (the save dialog
    was cancelled), with the error dialog of [process_version_conversion]
    and the window left open, with its own error dialog and the window
    closed, or with the success dialog and the window closed.  Only in the
    last case has an archive been written, and then the name of the
    archive is not empty. *)
Theorem archive_written_only_with_success_dialog (fuel : nat)
    (config_dir : config_store) (mcmeta_dir : mcmeta_store)
    (pack_name source target save_path : string) (w : world) :
  let w' := snd (on_confirm fuel config_dir mcmeta_dir pack_name source target
                   save_path w) in
  (archives w' = archives w /\
   (ui w' = ui w \/ ui w' = ui w ++ [ShowError OSError] \/
    exists e, ui w' = ui w ++ [ShowError e; WindowDestroyed])) \/
  (ui w' = ui w ++ [ShowInfo save_path; WindowDestroyed] /\
   save_path <> "" /\
   is_Some (archives w' !! save_path)).
Proof.
  destruct (on_confirm_outcome fuel config_dir mcmeta_dir pack_name source
              target save_path w) as (r & w' & E & _ & H).
  rewrite E. cbn [snd].
  destruct H as [H|(Hname & Hui & src & plan & _ & _ & _ & Hpk)];
    [now left|right].
  split; [exact Hui|]. split; [exact Hname|].
  destruct Hpk as (excl & tree & _ & -> & _).
  rewrite lookup_insert_eq. eauto.
Qed.

(** X19.  When [on_confirm] ends with the success dialog, the archive it
    saved holds no file that a step of the plan lists under
    [removed_files], it holds an entry for every other file of the pack,
    and a file that no rule targets (the metadata file apart) is in the
    archive exactly as it is in the pack. *)
Theorem untouched_files_reach_the_archive (fuel : nat)
    (config_dir : config_store) (mcmeta_dir : mcmeta_store)
    (pack_name source target save_path : string) (w : world) :
  let w' := snd (on_confirm fuel config_dir mcmeta_dir pack_name source target
                   save_path w) in
  ui w' = ui w ++ [ShowInfo save_path; WindowDestroyed] ->
  exists plan archive,
    get_version_operations fuel config_dir source target = Ok plan /\
    archives w' !! save_path = Some archive /\
    (forall name f, In (name, f) archive -> ~ removed_by plan name) /\
    (forall p,
       is_Some (read_file (pack_name, p) w) ->
       ~ removed_by plan (replace "\" "/" p) ->
       exists f, In (replace "\" "/" p, f) archive) /\
    (forall p f,
       read_file (pack_name, p) w = Some f ->
       ~ removed_by plan (replace "\" "/" p) ->
       ~ plan_targets mcmeta_dir plan p ->
       p <> "pack.mcmeta" ->
       In (replace "\" "/" p, f) archive).
Proof.
  destruct (on_confirm_outcome fuel config_dir mcmeta_dir pack_name source
              target save_path w) as (r & w' & E & _ & H).
  rewrite E. cbn [snd]. intros Hui.
  destruct H as [[_ H]|(_ & _ & src & plan & Hne & Hsrc & Hplan & Hpk)].
  { exfalso. rewrite Hui in H.
    destruct H as [H|[H|[e H]]].
    - rewrite <- (app_nil_r (ui w)) in H at 2.
      apply app_inv_head in H. discriminate.
    - apply app_inv_head in H. discriminate.
    - apply app_inv_head in H. discriminate. }
  destruct Hpk as (excl & tree & Hex & Harch & Hsame & Hcov & _).
  assert (Hread : forall p, read_file (pack_name, p) w = src !! p).
  { intros p. unfold read_file. simpl. now rewrite Hsrc. }
  exists plan, (pack_archive tree excl).
  split; [exact Hplan|]. split; [rewrite Harch; apply lookup_insert_eq|].
  split; [|split].
  - intros name f Hin Hrem. apply pack_archive_In in Hin.
    destruct Hin as (p & _ & _ & Hnot). apply Hnot. now apply Hex.
  - intros p Hp Hrem. rewrite Hread in Hp.
    destruct (Hcov p Hp) as [f Hf]. exists f.
    apply pack_archive_In. exists p. split; [exact Hf|]. split; [reflexivity|].
    intros Hin. apply Hrem. now apply Hex.
  - intros p f Hp Hrem Htarget Hmeta.
    apply pack_archive_In. exists p. split.
    + rewrite Hsame by assumption. now rewrite <- Hread.
    + split; [reflexivity|]. intros Hin. apply Hrem. now apply Hex.
Qed.

Lemma untouched_files_reach_the_archive_witness :
  exists plan archive,
    get_version_operations 2 transparency_store "1.19" "1.20" = Ok plan /\
    archives (snd (on_confirm 2 transparency_store ∅ "mypack" "1.19" "1.20"
                     "out.zip" cache_world)) !! "out.zip" = Some archive /\
    (forall name f, In (name, f) archive -> ~ removed_by plan name) /\
    (forall p,
       is_Some (read_file ("mypack", p) cache_world) ->
       ~ removed_by plan (replace "\" "/" p) ->
       exists f, In (replace "\" "/" p, f) archive) /\
    (forall p f,
       read_file ("mypack", p) cache_world = Some f ->
       ~ removed_by plan (replace "\" "/" p) ->
       ~ plan_targets ∅ plan p ->
       p <> "pack.mcmeta" ->
       In (replace "\" "/" p, f) archive).
Proof.
  apply (untouched_files_reach_the_archive 2 transparency_store ∅ "mypack"
           "1.19" "1.20" "out.zip" cache_world).
  vm_compute. reflexivity.
Defined.

(** ** The packaged metadata file *)

(** C3.  As the code has it: take a conversion run that ends with the
    archive saved, of a pack that holds the metadata file.  Then the file
    was a JSON document with a [pack] object, and the run rewrote it with
    [pack.pack_format] equal to the table's code for the target version,
    the default 15 for a target outside the table, whatever the field
    held before.  When no rule of the plan writes [pack.mcmeta] and no
    step lists it under [removed_files], the entry [pack.mcmeta] of the
    saved archive is that rewritten document and no other. *)
Theorem packaged_metadata_has_target_format (fuel : nat)
    (config_dir : config_store) (mcmeta_dir : mcmeta_store)
    (pack_name source target save_path : string) (w : world) (f : file) :
  let w' := snd (on_confirm fuel config_dir mcmeta_dir pack_name source target
                   save_path w) in
  ui w' = ui w ++ [ShowInfo save_path; WindowDestroyed] ->
  read_file (pack_name, "pack.mcmeta") w = Some f ->
  exists plan archive mcmeta mcmeta',
    get_version_operations fuel config_dir source target = Ok plan /\
    archives w' !! save_path = Some archive /\
    f = JsonFile mcmeta /\
    set_pack_format target mcmeta = Ok mcmeta' /\
    pack_format_of mcmeta'
    = Some (JInt (default 15 (dict_get target version_format))) /\
    (dict_get target version_format = None ->
     pack_format_of mcmeta' = Some (JInt 15)) /\
    (~ plan_targets mcmeta_dir plan "pack.mcmeta" ->
     ~ removed_by plan "pack.mcmeta" ->
     In ("pack.mcmeta", JsonFile mcmeta') archive /\
     forall f', In ("pack.mcmeta", f') archive -> f' = JsonFile mcmeta').
Proof.
  destruct (on_confirm_outcome fuel config_dir mcmeta_dir pack_name source
              target save_path w) as (r & w' & E & _ & H).
  rewrite E. cbn [snd]. intros Hui Hf.
  destruct H as [[_ H]|(_ & _ & src & plan & Hne & Hsrc & Hplan & Hpk)].
  { exfalso. rewrite Hui in H.
    destruct H as [H|[H|[e H]]].
    - rewrite <- (app_nil_r (ui w)) in H at 2.
      apply app_inv_head in H. discriminate.
    - apply app_inv_head in H. discriminate.
    - apply app_inv_head in H. discriminate. }
  destruct Hpk as (excl & tree & Hex & Harch & _ & _ & Hmeta).
  unfold read_file in Hf. cbn [fst snd] in Hf. rewrite Hsrc in Hf.
  cbn in Hf.
  destruct (Hmeta f Hf) as (mcmeta & mcmeta' & Hdoc & Hset & Htree).
  assert (Hfmt : pack_format_of mcmeta'
                 = Some (JInt (default 15 (dict_get target version_format)))).
  { destruct (set_pack_format_inv target mcmeta mcmeta' Hset)
      as (d & pack & _ & _ & ->).
    unfold pack_format_of. rewrite dict_get_set_eq. apply dict_get_set_eq. }
  exists plan, (pack_archive tree excl), mcmeta, mcmeta'.
  split; [exact Hplan|]. split; [rewrite Harch; apply lookup_insert_eq|].
  split; [exact Hdoc|]. split; [exact Hset|]. split; [exact Hfmt|].
  split; [intros Hnone; rewrite Hfmt, Hnone; reflexivity|].
  intros Hfree Hkept. specialize (Htree Hfree). split.
  - apply pack_archive_In. exists "pack.mcmeta".
    split; [exact Htree|]. split; [reflexivity|].
    intros Hin. apply Hkept. now apply Hex.
  - intros f' Hin. apply pack_archive_In in Hin.
    destruct Hin as (p & Hp & Hname & _).
    symmetry in Hname. apply replace_backslash_inv in Hname; [|reflexivity].
    subst p. congruence.
Qed.

Lemma packaged_metadata_has_target_format_witness :
  exists plan archive mcmeta mcmeta',
    get_version_operations 4 sample_store "1.19.4" "1.21" = Ok plan /\
    archives (snd (on_confirm 4 sample_store ∅ "mypack" "1.19.4" "1.21"
                     "out.zip" cache_world)) !! "out.zip" = Some archive /\
    JsonFile (JDict sample_mcmeta) = JsonFile mcmeta /\
    set_pack_format "1.21" mcmeta = Ok mcmeta' /\
    pack_format_of mcmeta'
    = Some (JInt (default 15 (dict_get "1.21" version_format))) /\
    (dict_get "1.21" version_format = None ->
     pack_format_of mcmeta' = Some (JInt 15)) /\
    (~ plan_targets ∅ plan "pack.mcmeta" ->
     ~ removed_by plan "pack.mcmeta" ->
     In ("pack.mcmeta", JsonFile mcmeta') archive /\
     forall f', In ("pack.mcmeta", f') archive -> f' = JsonFile mcmeta').
Proof.
  apply (packaged_metadata_has_target_format 4 sample_store ∅ "mypack"
           "1.19.4" "1.21" "out.zip" cache_world
           (JsonFile (JDict sample_mcmeta))).
  - vm_compute. reflexivity.
  - reflexivity.
Defined.

(** Without the proviso the statement fails: the step of [overwrite_store]
    has a transparency rule with target [pack.mcmeta].  The run holds the
    metadata file, rewrites it and ends with the archive saved, and the
    entry [pack.mcmeta] of the archive is the masked image, not a document
    with the format code of the target. *)
Lemma overwritten_metadata_is_packaged :
  let w' := snd (on_confirm 2 overwrite_store ∅ "mypack" "1.19" "1.20"
                   "out.zip" cache_world) in
  read_file ("mypack", "pack.mcmeta") cache_world
  = Some (JsonFile (JDict sample_mcmeta)) /\
  ui w' = ui cache_world ++ [ShowInfo "out.zip"; WindowDestroyed] /\
  archives w' !! "out.zip"
  = Some [("base.png", ImageFile sample_image);
          ("pack.mcmeta", ImageFile sample_image)] /\
  ~ exists archive mcmeta,
      archives w' !! "out.zip" = Some archive /\
      In ("pack.mcmeta", JsonFile mcmeta) archive /\
      pack_format_of mcmeta
      = Some (JInt (default 15 (dict_get "1.20" version_format))).
Proof.
  assert (Harch :
            archives (snd (on_confirm 2 overwrite_store ∅ "mypack" "1.19"
                             "1.20" "out.zip" cache_world)) !! "out.zip"
            = Some [("base.png", ImageFile sample_image);
                    ("pack.mcmeta", ImageFile sample_image)])
    by (vm_compute; reflexivity).
  cbv zeta. split; [reflexivity|]. split; [vm_compute; reflexivity|].
  split; [exact Harch|].
  intros (archive & mcmeta & Hsaved & Hin & _).
  rewrite Harch in Hsaved. injection Hsaved as <-.
  destruct Hin as [Hin|[Hin|[]]]; discriminate Hin.
Qed.

(** An exception of the [try] block ends in the error dialog. *)
Lemma on_confirm_raise (fuel : nat) (config_dir : config_store)
    (mcmeta_dir : mcmeta_store) (pack_name source target save_path : string)
    (w w0 w1 : world) (e : exn) :
  remove_temp_dir w = (Ok tt, w0) ->
  ui w0 = ui w -> archives w0 = archives w ->
  on_confirm_try fuel config_dir mcmeta_dir pack_name source target save_path
    w0 = (Raise e, w1) ->
  ui w1 = ui w0 -> archives w1 = archives w0 ->
  exists w',
    on_confirm fuel config_dir mcmeta_dir pack_name source target save_path w
    = (Ok tt, w') /\
    ui w' = ui w ++ [ShowError e; WindowDestroyed] /\
    archives w' = archives w.
Proof.
  intros E0 Hu0 Ha0 E1 Hu1 Ha1.
  unfold on_confirm, io_bind at 1. rewrite E0.
  destruct (finally_remove_temp_dir
              (io_catch
                 (on_confirm_try fuel config_dir mcmeta_dir pack_name source
                    target save_path)
                 (fun e => do! _ := io_show (ShowError e) in
                           io_show WindowDestroyed))
              save_path w0
              (show WindowDestroyed (show (ShowError e) w1)) (Ok tt))
    as (w' & E & _ & Ha & Hu).
  { unfold io_catch. now rewrite E1. }
  exists w'. split; [exact E|]. rewrite Ha, Hu. simpl.
  rewrite Hu1, Hu0, Ha1, Ha0, <- app_assoc. auto.
Qed.

(** X20.  The working directory is removed before the pack is copied into
    it: a pack whose cache directory is the working directory itself, like
    a pack with no cache directory, cannot be converted.  [on_confirm]
    shows the error of the copy, closes the window and writes no
    archive. *)
Theorem pack_directory_must_exist_and_differ (fuel : nat)
    (config_dir : config_store) (mcmeta_dir : mcmeta_store)
    (pack_name source target save_path : string) (w : world) :
  pack_name = temp_dir \/ disk w !! pack_name = None ->
  exists w',
    on_confirm fuel config_dir mcmeta_dir pack_name source target save_path w
    = (Ok tt, w') /\
    ui w' = ui w ++ [ShowError OSError; WindowDestroyed] /\
    archives w' = archives w /\
    disk w' !! pack_name = None.
Proof.
  intros Hpack.
  destruct (remove_temp_dir_spec w) as (w0 & E0 & Hgone0 & Hdirs0 & Ha0 & Hu0).
  assert (Hnone : disk w0 !! pack_name = None).
  { destruct (decide (pack_name = temp_dir)) as [->|Hne]; [exact Hgone0|].
    rewrite Hdirs0 by exact Hne. now destruct Hpack. }
  destruct (on_confirm_raise fuel config_dir mcmeta_dir pack_name source target
              save_path w w0 w0 OSError E0 Hu0 Ha0)
    as (w' & E & Hui & Harch); [|reflexivity|reflexivity|].
  { unfold on_confirm_try, io_bind at 1, copytree. now rewrite Hnone. }
  exists w'. split; [exact E|]. split; [exact Hui|]. split; [exact Harch|].
  pose proof (on_confirm_outcome fuel config_dir mcmeta_dir pack_name source
                target save_path w) as (r & w'' & E' & (Hdirs & _) & _).
  rewrite E in E'. injection E' as _ <-.
  destruct (decide (pack_name = temp_dir)) as [->|Hne].
  - pose proof (remove_temp_dir_spec w) as _.
    unfold on_confirm, io_bind at 1 in E. rewrite E0 in E.
    unfold io_finally in E.
    destruct (io_catch _ _ w0) as [r2 w2].
    destruct (remove_temp_dir_spec w2) as (w3 & E3 & Hgone3 & _).
    rewrite E3 in E. injection E as _ <-. exact Hgone3.
  - rewrite Hdirs by exact Hne. now destruct Hpack.
Qed.

Lemma pack_directory_must_exist_and_differ_witness :
  exists w',
    on_confirm 4 sample_store ∅ temp_dir "1.19.4" "1.21" "out.zip" sample_world
    = (Ok tt, w') /\
    ui w' = ui sample_world ++ [ShowError OSError; WindowDestroyed] /\
    archives w' = archives sample_world /\
    disk w' !! temp_dir = None.
Proof.
  apply (pack_directory_must_exist_and_differ 4 sample_store ∅ temp_dir
           "1.19.4" "1.21" "out.zip" sample_world).
  left. reflexivity.
Defined.

(** X21.  A pack whose [pack.mcmeta] cannot be updated is not converted:
    when the file is no JSON document, or the document has no [pack]
    object to update, [on_confirm] shows that error, closes the window and
    writes no archive. *)
Theorem bad_metadata_stops_the_conversion (fuel : nat)
    (config_dir : config_store) (mcmeta_dir : mcmeta_store)
    (pack_name source target save_path : string) (w : world)
    (f : file) (e : exn) :
  pack_name <> temp_dir ->
  read_file (pack_name, "pack.mcmeta") w = Some f ->
  metadata_error target f = Some e ->
  exists w',
    on_confirm fuel config_dir mcmeta_dir pack_name source target save_path w
    = (Ok tt, w') /\
    ui w' = ui w ++ [ShowError e; WindowDestroyed] /\
    archives w' = archives w.
Proof.
  intros Hne Hread Herr.
  destruct (remove_temp_dir_spec w) as (w0 & E0 & Hgone0 & Hdirs0 & Ha0 & Hu0).
  unfold read_file in Hread. simpl in Hread.
  destruct (disk w !! pack_name) as [src|] eqn:Esrc; [|discriminate].
  simpl in Hread.
  set (w1 := set_disk (<[temp_dir := src]> (disk w0)) w0).
  apply (on_confirm_raise fuel config_dir mcmeta_dir pack_name source target
           save_path w w0 w1 e E0 Hu0 Ha0); [|reflexivity|reflexivity].
  unfold on_confirm_try, io_bind at 1, copytree.
  rewrite Hdirs0 by exact Hne. rewrite Esrc. fold w1.
  assert (Hmeta : read_file (temp_dir, "pack.mcmeta") w1 = Some f).
  { unfold read_file. simpl. rewrite lookup_insert_eq. exact Hread. }
  unfold io_bind at 1, update_pack_format, io_bind at 1, exists_file.
  rewrite Hmeta. rewrite bool_decide_true by eauto.
  unfold io_bind at 1, json_read. rewrite Hmeta.
  unfold metadata_error in Herr.
  destruct f as [img|doc|]; try (injection Herr as <-; reflexivity).
  unfold io_bind at 1, io_lift.
  destruct (set_pack_format target doc) as [doc'|e'|]; try discriminate.
  injection Herr as <-. reflexivity.
Qed.

Lemma bad_metadata_stops_the_conversion_witness :
  exists w',
    on_confirm 4 sample_store ∅ "mypack" "1.19.4" "1.21" "out.zip"
      (set_disk (<["mypack" :=
                     <["pack.mcmeta" := JsonFile (JDict [("description",
                                                          JStr "sample")])]>
                       ∅]> ∅) cache_world)
    = (Ok tt, w') /\
    ui w' = ui cache_world ++ [ShowError KeyError; WindowDestroyed] /\
    archives w' = archives cache_world.
Proof.
  apply (bad_metadata_stops_the_conversion 4 sample_store ∅ "mypack" "1.19.4"
           "1.21" "out.zip"
           (set_disk (<["mypack" :=
                          <["pack.mcmeta" :=
                              JsonFile (JDict [("description",
                                                JStr "sample")])]> ∅]> ∅)
              cache_world)
           (JsonFile (JDict [("description", JStr "sample")])) KeyError).
  - discriminate.
  - reflexivity.
  - reflexivity.
Defined.

(** ** The image operations on files *)

Lemma read_file_write_other (p q : path) (f : file) (w : world) :
  q <> p ->
  read_file q (snd (write_file p f w)) = read_file q w.
Proof.
  intros Hne. unfold write_file.
  destruct (decide (p ∈ locked w)); [reflexivity|].
  unfold read_file. simpl.
  destruct (decide (fst q = fst p)) as [Hd|Hd].
  - rewrite Hd, lookup_insert_eq. simpl.
    rewrite lookup_insert_ne.
    + destruct (disk w !! fst p); [reflexivity|]. simpl. apply lookup_empty.
    + intros Hs. apply Hne. destruct p, q. simpl in *. congruence.
  - rewrite lookup_insert_ne by congruence. reflexivity.
Qed.

Lemma flat_rows_lookup {A} (g : nat -> list A) (w : nat) :
  (forall y, length (g y) = w) ->
  forall (h s y x : nat),
    (y < h)%nat -> (x < w)%nat ->
    flat_map g (seq s h) !! (y * w + x)%nat = g (s + y)%nat !! x.
Proof.
  intros Hlen. induction h as [|h IH]; intros s y x Hy Hx; [lia|].
  simpl. destruct y as [|y].
  - simpl. rewrite lookup_app_l by (rewrite Hlen; lia).
    now rewrite Nat.add_0_r.
  - rewrite lookup_app_r by (rewrite Hlen; simpl; lia). rewrite Hlen.
    replace (S y * w + x - w)%nat with (y * w + x)%nat by (simpl; lia).
    rewrite IH by lia.
    replace (S s + y)%nat with (s + S y)%nat by lia. reflexivity.
Qed.

(** The pixels of a cropped image: those of the region, and zeros where
    the region reaches outside the image. *)
Lemma crop_getpixel (img cropped : image) (l t r b : Z) (x y : nat) :
  crop img (l, t, r, b) = Ok cropped ->
  (Z.of_nat x < r - l)%Z ->
  (Z.of_nat y < b - t)%Z ->
  getpixel cropped (Z.of_nat x) (Z.of_nat y)
  = Some (default (Pixel 0 0 0 0)
            (getpixel img (l + Z.of_nat x) (t + Z.of_nat y))).
Proof.
  unfold crop. destruct ((r <? l)%Z || (b <? t)%Z); [discriminate|].
  intros [= <-] Hx Hy. unfold getpixel at 1. cbn [img_width img_height img_data].
  assert (Hx' : (x < Z.to_nat (r - l))%nat) by lia.
  assert (Hy' : (y < Z.to_nat (b - t))%nat) by lia.
  replace ((0 <=? Z.of_nat x)%Z) with true by (symmetry; apply Z.leb_le; lia).
  replace ((Z.of_nat x <? Z.of_nat (Z.to_nat (r - l)))%Z) with true
    by (symmetry; apply Z.ltb_lt; lia).
  replace ((0 <=? Z.of_nat y)%Z) with true by (symmetry; apply Z.leb_le; lia).
  replace ((Z.of_nat y <? Z.of_nat (Z.to_nat (b - t)))%Z) with true
    by (symmetry; apply Z.ltb_lt; lia).
  cbn [andb].
  rewrite <- Nat2Z.inj_mul, <- Nat2Z.inj_add, Nat2Z.id.
  rewrite (flat_rows_lookup _ (Z.to_nat (r - l)));
    [|intros y0; now rewrite length_map, length_seq|exact Hy'|exact Hx'].
  rewrite list_lookup_fmap, lookup_seq_lt by exact Hx'. reflexivity.
Qed.

Lemma crop_size (img cropped : image) (l t r b : Z) :
  crop img (l, t, r, b) = Ok cropped ->
  img_width cropped = Z.to_nat (r - l) /\
  img_height cropped = Z.to_nat (b - t).
Proof.
  unfold crop. destruct ((r <? l)%Z || (b <? t)%Z); [discriminate|].
  intros [= <-]. auto.
Qed.

(** X22.  [split_image] does not raise, and whatever it returns it has
    touched no file but the target.  When it returns [True] the target
    holds an image of the size of the box, and wherever the box lies
    inside the source image its pixels are those of the source. *)
Theorem split_image_writes_the_region (image_path target_path : path)
    (l t r b : Z) (w : world) :
  exists ok w',
    split_image image_path (l, t, r, b) target_path w = (Ok ok, w') /\
    (forall q, q <> target_path -> read_file q w' = read_file q w) /\
    (ok = true ->
     exists img cropped,
       read_file image_path w = Some (ImageFile img) /\
       read_file target_path w' = Some (ImageFile cropped) /\
       img_width cropped = Z.to_nat (r - l) /\
       img_height cropped = Z.to_nat (b - t) /\
       forall (x y : nat) (p : pixel),
         (Z.of_nat x < r - l)%Z -> (Z.of_nat y < b - t)%Z ->
         getpixel img (l + Z.of_nat x) (t + Z.of_nat y) = Some p ->
         getpixel cropped (Z.of_nat x) (Z.of_nat y) = Some p).
Proof.
  unfold split_image, io_catch, io_bind at 1, image_open.
  destruct (read_file image_path w) as [[img| |]|] eqn:Eread;
    try (exists false, w; split; [reflexivity|]; split;
         [reflexivity|discriminate]).
  unfold io_bind at 1, io_lift.
  destruct (crop img (l, t, r, b)) as [cropped|e|] eqn:Ecrop.
  2:{ exists false, w. split; [reflexivity|]. split;
        [reflexivity|discriminate]. }
  2:{ unfold crop in Ecrop.
      destruct ((r <? l)%Z || (b <? t)%Z); discriminate. }
  unfold io_bind at 1, image_save.
  destruct (is_empty_image cropped).
  { exists false, w. split; [reflexivity|]. split;
      [reflexivity|discriminate]. }
  destruct (decide (target_path ∈ locked w)) as [Hl|Hl].
  { rewrite write_file_locked by exact Hl.
    exists false, w. split; [reflexivity|]. split;
      [reflexivity|discriminate]. }
  pose proof (read_after_write target_path (ImageFile cropped) w Hl) as Hafter.
  pose proof (fun q H =>
                read_file_write_other target_path q (ImageFile cropped) w H)
    as Hother.
  rewrite write_file_ok in * by exact Hl. cbn [snd] in *.
  eexists true, _. split; [reflexivity|]. split; [exact Hother|].
  intros _. exists img, cropped.
  destruct (crop_size _ _ _ _ _ _ Ecrop) as [Hw Hh].
  split; [reflexivity|]. split; [exact Hafter|].
  split; [exact Hw|]. split; [exact Hh|].
  intros x y p Hx Hy Hp.
  rewrite (crop_getpixel img cropped l t r b x y Ecrop Hx Hy), Hp.
  reflexivity.
Qed.

Lemma blend8_transparent (a b : Z) :
  (0 <= a <= 255)%Z -> blend8 0 a b = a.
Proof.
  intros Ha. unfold blend8. rewrite !Z.shiftr_div_pow2 by lia.
  change (2 ^ 8)%Z with 256%Z.
  replace (a * (255 - 0) + b * 0 + 128)%Z with (255 * a + 128)%Z by lia.
  Z.to_euclidean_division_equations. lia.
Qed.

Lemma blend8_opaque (a b : Z) :
  (0 <= b <= 255)%Z -> blend8 255 a b = b.
Proof.
  intros Hb. unfold blend8. rewrite !Z.shiftr_div_pow2 by lia.
  change (2 ^ 8)%Z with 256%Z.
  replace (a * (255 - 255) + b * 255 + 128)%Z with (255 * b + 128)%Z by lia.
  Z.to_euclidean_division_equations. lia.
Qed.

Lemma blend_pixel_transparent (p o : pixel) :
  byte_pixel p -> alpha o = 0%Z -> blend_pixel p o = p.
Proof.
  intros (Hr & Hg & Hb & Ha) Ho. unfold blend_pixel. rewrite Ho.
  rewrite !blend8_transparent by assumption. now destruct p.
Qed.

Lemma blend_pixel_opaque (p o : pixel) :
  byte_pixel o -> alpha o = 255%Z -> blend_pixel p o = o.
Proof.
  intros (Hr & Hg & Hb & Ha) Ho. unfold blend_pixel. rewrite Ho.
  rewrite !blend8_opaque by lia. destruct o. simpl in *. now subst.
Qed.

(** The pixel of a pasted image. *)
Lemma paste_getpixel (base overlay : image) (position : Z * Z) (x y : Z)
    (p : pixel) :
  getpixel base x y = Some p ->
  getpixel (paste base overlay position) x y
  = Some (match getpixel overlay (x - fst position) (y - snd position) with
          | Some o => blend_pixel p o
          | None => p
          end).
Proof.
  unfold getpixel at 1 2. cbn [img_width img_height img_data paste].
  destruct ((0 <=? x)%Z && (x <? Z.of_nat (img_width base))%Z
            && (0 <=? y)%Z && (y <? Z.of_nat (img_height base))%Z) eqn:Ein;
    [|discriminate].
  apply andb_true_iff in Ein. destruct Ein as [Ein Hy2].
  apply andb_true_iff in Ein. destruct Ein as [Ein Hy1].
  apply andb_true_iff in Ein. destruct Ein as [Hx1 Hx2].
  apply Z.leb_le in Hx1, Hy1. apply Z.ltb_lt in Hx2, Hy2.
  intros Hp. rewrite list_lookup_imap, Hp. simpl. f_equal.
  rewrite Z2Nat.id by nia.
  rewrite Z.div_add_l by lia. rewrite (Z.div_small x) by lia.
  rewrite Z.add_0_r.
  rewrite (Z.add_comm (y * _) x), Z.mod_add by lia.
  rewrite Z.mod_small by lia. reflexivity.
Qed.

(** X23.  [merge_images] does not raise, and whatever it returns it has
    touched no file but the base.  When it returns [True] the base file
    holds the merged image, which has the size of the base; a pixel that
    the overlay does not cover, or covers with a fully transparent pixel,
    is the pixel of the base, and one that it covers with a fully opaque
    pixel is the pixel of the overlay. *)
Theorem merge_images_keeps_uncovered_pixels (base_path overlay_path : path)
    (position : Z * Z) (w : world) :
  exists ok w',
    merge_images base_path overlay_path position None w = (Ok ok, w') /\
    (forall q, q <> base_path -> read_file q w' = read_file q w) /\
    (ok = true ->
     exists base overlay merged,
       read_file base_path w = Some (ImageFile base) /\
       read_file overlay_path w = Some (ImageFile overlay) /\
       read_file base_path w' = Some (ImageFile merged) /\
       img_width merged = img_width base /\
       img_height merged = img_height base /\
       forall (x y : Z) (p : pixel),
         getpixel base x y = Some p ->
         (getpixel overlay (x - fst position) (y - snd position) = None ->
          getpixel merged x y = Some p) /\
         (forall o,
            getpixel overlay (x - fst position) (y - snd position) = Some o ->
            (byte_pixel p -> alpha o = 0%Z -> getpixel merged x y = Some p) /\
            (byte_pixel o -> alpha o = 255%Z ->
             getpixel merged x y = Some o))).
Proof.
  unfold merge_images, io_catch, io_bind at 1, image_open.
  destruct (read_file base_path w) as [[base| |]|] eqn:Ebase;
    try (exists false, w; split; [reflexivity|]; split;
         [reflexivity|discriminate]).
  unfold io_bind at 1.
  destruct (read_file overlay_path w) as [[overlay| |]|] eqn:Eover;
    try (exists false, w; split; [reflexivity|]; split;
         [reflexivity|discriminate]).
  cbv zeta. cbn [default].
  unfold io_bind at 1, image_save.
  destruct (is_empty_image (paste base overlay position)).
  { exists false, w. split; [reflexivity|]. split;
      [reflexivity|discriminate]. }
  destruct (decide (base_path ∈ locked w)) as [Hl|Hl].
  { rewrite write_file_locked by exact Hl.
    exists false, w. split; [reflexivity|]. split;
      [reflexivity|discriminate]. }
  pose proof (read_after_write base_path
                (ImageFile (paste base overlay position)) w Hl) as Hafter.
  pose proof (fun q H =>
                read_file_write_other base_path q
                  (ImageFile (paste base overlay position)) w H) as Hother.
  rewrite write_file_ok in * by exact Hl. cbn [snd] in *.
  eexists true, _. split; [reflexivity|]. split; [exact Hother|].
  intros _. exists base, overlay, (paste base overlay position).
  split; [reflexivity|]. split; [reflexivity|]. split; [exact Hafter|].
  split; [reflexivity|]. split; [reflexivity|].
  intros x y p Hp. rewrite (paste_getpixel _ _ _ _ _ _ Hp). split.
  - intros ->. reflexivity.
  - intros o ->. split.
    + intros Hbyte Ho. now rewrite blend_pixel_transparent.
    + intros Hbyte Ho. now rewrite blend_pixel_opaque.
Qed.

(** ** Names in the archive *)

Lemma replace_backslash_clean (p : string) :
  no_backslash (replace "\" "/" p) = true.
Proof.
  induction p as [|c p IH]; [reflexivity|].
  rewrite replace_backslash_cons. cbn [no_backslash]. rewrite IH, andb_true_r.
  destruct (Ascii.eqb_spec c "\"%char) as [->|Hne]; [reflexivity|].
  apply negb_true_iff. now apply Ascii.eqb_neq.
Qed.

Lemma fold_left_agree {A B} (f g : A -> B -> A) (l : list B) :
  (forall a x, In x l -> f a x = g a x) ->
  forall a, fold_left f l a = fold_left g l a.
Proof.
  induction l as [|x l IH]; intros H a; [reflexivity|]. simpl.
  rewrite (H a x) by now left. apply IH. intros a' y Hy. apply H. now right.
Qed.

(** X24.  Every name in the archive is written with forward slashes: no
    entry of [pack_archive] holds a backslash, whatever the paths of the
    working tree are. *)
Theorem archive_names_hold_no_backslash (tree : gmap string file)
    (exclude_files : gset string) :
  Forall (fun entry => no_backslash (fst entry) = true)
    (pack_archive tree exclude_files).
Proof.
  apply Forall_forall. intros [name f] Hin. apply list_elem_of_In in Hin.
  apply pack_archive_In in Hin. destruct Hin as (p & _ & -> & _).
  apply replace_backslash_clean.
Qed.

(** X25.  The exclusions are compared with the normalised names: a path
    listed for removal with a backslash in it excludes nothing, the
    archive is the same with and without it. *)
Theorem exclusion_with_backslash_is_void (tree : gmap string file)
    (exclude_files : gset string) (removed : string) :
  no_backslash removed = false ->
  pack_archive tree (exclude_files ∪ {[removed]})
  = pack_archive tree exclude_files.
Proof.
  intros Hback. unfold pack_archive. apply fold_left_agree.
  intros zipf [p f] _. cbn [fst snd].
  assert (Hne : replace "\" "/" p <> removed).
  { intros <-. rewrite replace_backslash_clean in Hback. discriminate. }
  destruct (decide (replace "\" "/" p ∈ exclude_files)) as [Hin|Hout].
  - rewrite decide_True by (apply elem_of_union; now left). reflexivity.
  - rewrite decide_False; [reflexivity|].
    rewrite elem_of_union, elem_of_singleton. tauto.
Qed.

Lemma exclusion_with_backslash_is_void_witness :
  pack_archive sample_pack (∅ ∪ {["textures\base.png"]})
  = pack_archive sample_pack ∅.
Proof.
  apply (exclusion_with_backslash_is_void sample_pack ∅ "textures\base.png").
  reflexivity.
Defined.

(** ** Sidecars *)

Lemma process_mcmeta_steps (mcmeta_dir : mcmeta_store)
    (target_path version : string) (c : config) :
  process_mcmeta mcmeta_dir target_path version c
  = match mcmeta_dir !! version with
    | None => io_ret tt
    | Some walk => io_for walk (mcmeta_step target_path c)
    end.
Proof. reflexivity. Qed.

Lemma is_split_target_compared (c : config) (entry : sidecar) :
  compared_as_split_target c entry ->
  is_split_target c (sidecar_rel_path entry)
    (drop_mcmeta (sidecar_name entry)) = true.
Proof.
  intros (item & split & Hitem & Hsplit & Heq). unfold is_split_target.
  apply existsb_exists. exists item. split; [exact Hitem|].
  apply existsb_exists. exists split. split; [exact Hsplit|].
  now apply String.eqb_eq.
Qed.

Lemma mcmeta_step_spec (target_path : string) (c : config) (entry : sidecar)
    (w : world) :
  (target_path, sidecar_key entry) ∉ locked w ->
  exists w',
    mcmeta_step target_path c entry w = (Ok tt, w') /\
    locked w' = locked w /\
    (forall q, is_Some (read_file q w) -> is_Some (read_file q w')) /\
    (forall q, q <> (target_path, sidecar_key entry) ->
               read_file q w' = read_file q w) /\
    (sidecar_wanted target_path c entry w ->
     read_file (target_path, sidecar_key entry) w'
     = Some (sidecar_content entry)).
Proof.
  intros Hfree. unfold mcmeta_step, sidecar_wanted, sidecar_original.
  cbv zeta.
  destruct (endswith (sidecar_name entry) ".mcmeta").
  2:{ exists w. split; [reflexivity|]. repeat split; auto.
      intros [? _]. discriminate. }
  unfold io_bind, exists_file.
  destruct (is_split_target c (sidecar_rel_path entry)
              (drop_mcmeta (sidecar_name entry))
            || bool_decide
                 (is_Some
                    (read_file
                       (target_path,
                        tree_key (sidecar_rel_path entry)
                          (drop_mcmeta (sidecar_name entry))) w))) eqn:Ewant.
  2:{ exists w. split; [reflexivity|]. repeat split; auto.
      intros [_ Hw]. apply orb_false_iff in Ewant. destruct Ewant as [E1 E2].
      destruct Hw as [Hw|Hw];
        [apply is_split_target_compared in Hw; congruence|].
      apply bool_decide_eq_false in E2. contradiction. }
  fold (sidecar_key entry).
  pose proof (read_after_write (target_path, sidecar_key entry)
                (sidecar_content entry) w Hfree) as Hafter.
  pose proof (fun q H =>
                read_file_write_other (target_path, sidecar_key entry) q
                  (sidecar_content entry) w H) as Hother.
  rewrite write_file_ok in * by exact Hfree. cbn [snd] in *.
  eexists. split; [reflexivity|]. split; [reflexivity|].
  split; [|split; [exact Hother|intros _; exact Hafter]].
  intros q Hq.
  destruct (decide (q = (target_path, sidecar_key entry))) as [->|Hne].
  - rewrite Hafter. eauto.
  - now rewrite Hother.
Qed.

Lemma mcmeta_steps_keep (target_path : string) (c : config) (key : string)
    (L : gset path) (walk : list sidecar) :
  (forall e, In e walk -> (target_path, sidecar_key e) ∉ L) ->
  ~ In key (map sidecar_key walk) ->
  forall w, locked w = L ->
    exists w',
      io_for walk (mcmeta_step target_path c) w = (Ok tt, w') /\
      read_file (target_path, key) w' = read_file (target_path, key) w.
Proof.
  induction walk as [|e walk IH]; intros Hfree Hkey w Hw; simpl.
  - exists w. auto.
  - destruct (mcmeta_step_spec target_path c e w)
      as (w1 & E1 & Hl1 & _ & Hother & _).
    { rewrite Hw. apply Hfree. now left. }
    unfold io_bind. rewrite E1.
    destruct (IH (fun e' H => Hfree e' (or_intror H))
                 (fun H => Hkey (or_intror H)) w1 ltac:(congruence))
      as (w' & E & Hread).
    exists w'. split; [exact E|]. rewrite Hread. apply Hother.
    intros [= Heq]. apply Hkey. left. now rewrite Heq.
Qed.

Lemma mcmeta_steps_copy (target_path : string) (c : config) (entry : sidecar)
    (L : gset path) (walk : list sidecar) :
  (forall e, In e walk -> (target_path, sidecar_key e) ∉ L) ->
  NoDup (map sidecar_key walk) ->
  In entry walk ->
  forall w, locked w = L ->
    sidecar_wanted target_path c entry w ->
    exists w',
      io_for walk (mcmeta_step target_path c) w = (Ok tt, w') /\
      read_file (target_path, sidecar_key entry) w'
      = Some (sidecar_content entry).
Proof.
  induction walk as [|e walk IH]; intros Hfree Hnd Hin w Hw Hwant;
    [destruct Hin|].
  apply NoDup_cons in Hnd. destruct Hnd as [Hfresh Hnd].
  destruct (mcmeta_step_spec target_path c e w)
    as (w1 & E1 & Hl1 & Hgrow & Hother & Hcopied).
  { rewrite Hw. apply Hfree. now left. }
  simpl. unfold io_bind. rewrite E1.
  destruct (in_dec string_dec (sidecar_key entry) (map sidecar_key walk))
    as [Hlater|Hlast].
  - destruct Hin as [->|Hin].
    { exfalso. apply Hfresh. now apply list_elem_of_In. }
    apply (IH (fun e' H => Hfree e' (or_intror H)) Hnd Hin w1
              ltac:(congruence)).
    destruct Hwant as [Hsuffix Hwant]. split; [exact Hsuffix|].
    destruct Hwant as [Hsplit|Hthere]; [now left|right].
    now apply Hgrow.
  - destruct Hin as [->|Hin].
    2:{ exfalso. apply Hlast. now apply in_map. }
    destruct (mcmeta_steps_keep target_path c (sidecar_key entry) L walk
                (fun e' H => Hfree e' (or_intror H)) Hlast w1
                ltac:(congruence)) as (w' & E & Hread).
    exists w'. split; [exact E|]. rewrite Hread. now apply Hcopied.
Qed.

(** X26.  Sidecars follow their files: when the sidecar directory of the
    step's version lists each file once and none of its targets is
    write-protected, [process_mcmeta] returns, and a [.mcmeta] file of
    the directory is then in the working copy beside its original, with
    the contents it has in the directory, in two cases: the original is in
    the working copy, or the directory of the sidecar joined with the name
    of the original ([./name] at the top of the directory) equals,
    backslashes normalised, the target of a split of the step. *)
Theorem sidecars_follow_their_files (mcmeta_dir : mcmeta_store)
    (target_path version : string) (c : config) (walk : list sidecar)
    (entry : sidecar) (w : world) :
  mcmeta_dir !! version = Some walk ->
  NoDup (map sidecar_key walk) ->
  (forall e, In e walk -> (target_path, sidecar_key e) ∉ locked w) ->
  In entry walk ->
  sidecar_wanted target_path c entry w ->
  exists w',
    process_mcmeta mcmeta_dir target_path version c w = (Ok tt, w') /\
    read_file (target_path, sidecar_key entry) w'
    = Some (sidecar_content entry).
Proof.
  intros Hwalk Hnd Hfree Hin Hwant.
  rewrite process_mcmeta_steps, Hwalk.
  now apply (mcmeta_steps_copy target_path c entry (locked w) walk).
Qed.

Lemma sidecars_follow_their_files_witness :
  exists w',
    process_mcmeta sample_sidecars temp_dir "1.20" empty_config sample_world
    = (Ok tt, w') /\
    read_file (temp_dir, sidecar_key sample_sidecar) w'
    = Some (sidecar_content sample_sidecar).
Proof.
  apply (sidecars_follow_their_files sample_sidecars temp_dir "1.20"
           empty_config [sample_sidecar] sample_sidecar sample_world).
  - reflexivity.
  - apply NoDup_singleton.
  - intros e _. simpl. apply not_elem_of_empty.
  - now left.
  - split; [reflexivity|]. right. vm_compute. eauto.
Defined.
